(** * ticket-env: the pricing engine and the reward scorer

    A shallow embedding of [src/pricing.py] (class [ConcertPricing]) and
    [src/reward_func.py] (the standalone [calculate_reward]), followed by
    the routes of [src/app.py], the local fallback of [src/llm_client.py]
    and the constants in which the class of [src/testy.py] differs.

    Modelling conventions.
    - Python [float] prices and rewards are exact rationals ([Q]); the
      literals [0.85], [1.15], [0.25], ... are the rationals they denote.
      Python [int]s are [Z].
    - A [dict] that is iterated ([base_prices]) is an association list in
      insertion order; the other dicts are [gmap string _].
    - A raised exception ([KeyError], [ZeroDivisionError], [ValueError]) is
      [None]; where the state mutated before the exception matters, the
      state reached is returned next to the [None].
    - [datetime] is a count of microseconds and [random.randint] reads its
      raw draw from an explicit source. *)

From Stdlib Require Import Ascii String QArith Qround Lqa.
From stdpp Require Import gmap strings list fin_maps.

Local Open Scope Z_scope.

(** ** Numbers: comparisons, [max], [min], [np.clip] *)

Definition Qltb (a b : Q) : bool := negb (Qle_bool b a).

(** Python's [max(a, b)]: the first argument unless the second is greater. *)
Definition fmax (a b : Q) : Q := if Qltb a b then b else a.

(** Python's [min(a, b)]: the first argument unless the second is smaller. *)
Definition fmin (a b : Q) : Q := if Qltb b a then b else a.

(** [min(xs)] and [max(xs)] of a list; [None] is the [ValueError] on []. *)
Definition list_min (xs : list Q) : option Q :=
  match xs with
  | [] => None
  | x :: xs' => Some (fold_left fmin xs' x)
  end.

Definition list_max (xs : list Q) : option Q :=
  match xs with
  | [] => None
  | x :: xs' => Some (fold_left fmax xs' x)
  end.

(** [np.clip(x, lo, hi)] is [minimum(maximum(x, lo), hi)]. *)
Definition clip (x lo hi : Q) : Q := fmin (fmax x lo) hi.

(** ** [np.linspace] and [np.digitize] *)

(** [np.linspace(start, stop, num)]: [num] samples [start + i * step] with
    [step = (stop - start) / (num - 1)], the last one overwritten by [stop]
    when [num > 1]; a negative [num] raises [ValueError]. *)
Definition linspace (start stop : Q) (num : Z) : option (list Q) :=
  if decide (num < 0) then None
  else
    let n := Z.to_nat num in
    let step := ((stop - start) / inject_Z (num - 1))%Q in
    let y := map (λ i : nat, (inject_Z (Z.of_nat i) * step + start)%Q) (seq 0 n) in
    Some (if decide (1 < num) then take (n - 1)%nat y ++ [stop] else y).

(** [np.digitize(x, bins, right=True)] for increasing [bins]: the index [i]
    with [bins[i-1] < x <= bins[i]], that is the number of leading edges
    strictly below [x]. *)
Fixpoint digitize (x : Q) (bins : list Q) : Z :=
  match bins with
  | [] => 0
  | b :: bins' => if Qltb b x then 1 + digitize x bins' else 0
  end.

(** Lines 161-168 of [pricing.py] and 30-34 of [reward_func.py]: clip the
    purchased price, build the edges, locate the bin. *)
Definition locate_bin (min_p max_p purchased_price : Q) (num_bins : Z)
  : option (Z * list Q) :=
  let purchased := clip purchased_price min_p max_p in
  bins ← linspace min_p max_p (num_bins + 1);
  Some (digitize purchased bins, bins).

(** ** [reward_func.py] *)

Module RewardFunc.

(** Lines 35-39: the clamped bin and the base reward. *)
Definition clamp_bin (num_bins bin_index : Z) : Z :=
  Z.max 1 (Z.min num_bins bin_index).

Definition base_reward (num_bins bin_index : Z) : Z :=
  Z.max (num_bins - bin_index) 0.

(** Lines 41-45: preference adjustment. *)
Definition preference_adjustment (preference : Z) (reward : Q) : Q :=
  if decide (50 < preference) then (reward + (1 # 4))%Q
  else if decide (preference < 30) then (reward - (3 # 2))%Q
  else reward.

(** Lines 47-52: threshold adjustment. *)
Definition threshold_adjustment (preference : Z) (threshold reward : Q) : Q :=
  if Qle_bool reward threshold then
    if decide (50 < preference) then (reward + (3 # 4))%Q
    else (reward - 1)%Q
  else reward.

(** [calculate_reward(price_history, purchased_price, preference,
    num_bins, threshold)]: the triple (reward, bin_index, bins). *)
Definition calculate_reward (price_history : list Q) (purchased_price : Q)
    (preference num_bins : Z) (threshold : Q)
  : option (Q * option Z * list Q) :=
  match price_history with
  | [] => Some (0%Q, None, [])
  | _ =>
      min_p ← list_min price_history;
      max_p ← list_max price_history;
      if Qeq_bool min_p max_p then
        Some (inject_Z (num_bins - 1), Some 1,
              replicate (Z.to_nat (num_bins + 1)) min_p)
      else
        '(bin_index, bins) ← locate_bin min_p max_p purchased_price num_bins;
        let bin_index := clamp_bin num_bins bin_index in
        let reward := inject_Z (base_reward num_bins bin_index) in
        let reward := preference_adjustment preference reward in
        let reward := threshold_adjustment preference threshold reward in
        Some (reward, Some bin_index, bins)
  end.

(** The components of the returned triple. *)
Definition reward (result : Q * option Z * list Q) : Q := result.1.1.
Definition bin_index (result : Q * option Z * list Q) : option Z := result.1.2.
Definition bins (result : Q * option Z * list Q) : list Q := result.2.

(** The defaults of the signature. *)
Definition default_preference : Z := 50.
Definition default_num_bins : Z := 10.
Definition default_threshold : Q := 2%Q.

End RewardFunc.

(** ** Strings: [str.lower] and the substring test [a in b] *)

(** [str.lower] on ASCII text: [A]..[Z] go to [a]..[z]. *)
Definition lower_ascii (c : ascii) : ascii :=
  let n := N_of_ascii c in
  if ((65 <=? n) && (n <=? 90))%N then ascii_of_N (n + 32) else c.

Fixpoint lower (s : string) : string :=
  match s with
  | EmptyString => EmptyString
  | String c s' => String (lower_ascii c) (lower s')
  end.

(** [needle in hay]. *)
Fixpoint contains (needle hay : string) : bool :=
  String.prefix needle hay ||
  match hay with
  | EmptyString => false
  | String _ hay' => contains needle hay'
  end.

(** ** [round(x, 2)] and [statistics.median] *)

Definition round_half_even (x : Q) : Z :=
  let f := Qfloor x in
  let r := (x - inject_Z f)%Q in
  if Qltb r (1 # 2) then f
  else if Qltb (1 # 2) r then f + 1
  else if Z.even f then f else f + 1.

Definition round2 (x : Q) : Q :=
  (inject_Z (round_half_even (x * 100)) / 100)%Q.

(** [sorted(data)], a stable insertion sort. *)
Fixpoint insert_sorted (x : Q) (l : list Q) : list Q :=
  match l with
  | [] => [x]
  | y :: l' => if Qltb y x then y :: insert_sorted x l' else x :: y :: l'
  end.

Definition sorted (data : list Q) : list Q := foldr insert_sorted [] data.

(** [statistics.median(data)]; [None] is the [StatisticsError] on no data. *)
Definition median (data : list Q) : option Q :=
  let data := sorted data in
  let n := length data in
  if decide (n = 0%nat) then None
  else if decide (n `mod` 2 = 1)%nat then data !! (n `div` 2)%nat
  else
    let i := (n `div` 2)%nat in
    lo ← data !! (i - 1)%nat;
    hi ← data !! i;
    Some ((lo + hi) / 2)%Q.

(** ** [random.randint] and [timedelta] *)

(** [random.randint(a, b)] from a raw draw: a value in [a..b]. *)
Definition randint (a b raw : Z) : Z := a + raw `mod` (b - a + 1).

Definition microseconds_per_day : Z := 86400000000.

(** [(d1 - d2).days] *)
Definition days_between (d1 d2 : Z) : Z := (d1 - d2) `div` microseconds_per_day.

(** ** [pricing.py]: class [ConcertPricing] *)

Module Pricing.

(** An insertion-ordered [dict] from concert names. *)
Fixpoint dict_get {V} (d : list (string * V)) (c : string) : option V :=
  match d with
  | [] => None
  | (k, v) :: d' => if decide (k = c) then Some v else dict_get d' c
  end.

Definition keys {V} (d : list (string * V)) : list string := d.*1.

Record ConcertPricing := mkConcertPricing {
  base_prices : list (string * Q);
  total_tickets : gmap string Z;
  sold_tickets : gmap string Z;
  concert_dates : gmap string Z;
  current_date : Z;
  price_history : gmap string (list Q);
  user_preferences : gmap string Z
}.

Definition set_sold_tickets (e : ConcertPricing) (s : gmap string Z) :=
  mkConcertPricing (base_prices e) (total_tickets e) s (concert_dates e)
    (current_date e) (price_history e) (user_preferences e).

Definition set_current_date (e : ConcertPricing) (d : Z) :=
  mkConcertPricing (base_prices e) (total_tickets e) (sold_tickets e)
    (concert_dates e) d (price_history e) (user_preferences e).

Definition set_price_history (e : ConcertPricing) (h : gmap string (list Q)) :=
  mkConcertPricing (base_prices e) (total_tickets e) (sold_tickets e)
    (concert_dates e) (current_date e) h (user_preferences e).

Definition set_user_preferences (e : ConcertPricing) (p : gmap string Z) :=
  mkConcertPricing (base_prices e) (total_tickets e) (sold_tickets e)
    (concert_dates e) (current_date e) (price_history e) p.

(** [__init__]; [now] is [datetime.now()]. *)
Definition init (base_prices : list (string * Q))
    (total_tickets concert_dates : gmap string Z) (now : Z) : ConcertPricing :=
  {| base_prices := base_prices;
     total_tickets := total_tickets;
     sold_tickets := (λ _, 0) <$> total_tickets;
     concert_dates := concert_dates;
     current_date := now;
     price_history := list_to_map ((λ c, (c, [])) <$> keys base_prices);
     user_preferences := list_to_map ((λ c, (c, 50)) <$> keys base_prices) |}.

(** *** Multipliers *)

Definition _time_multiplier (e : ConcertPricing) (concert_name : string)
  : option Q :=
  d ← concert_dates e !! concert_name;
  let days_before := days_between d (current_date e) in
  Some (if decide (30 < days_before) then 85 # 100
        else if decide (7 <= days_before) then 1%Q
        else 125 # 100).

Definition _inventory_multiplier (e : ConcertPricing) (concert_name : string)
  : option Q :=
  total ← total_tickets e !! concert_name;
  sold ← sold_tickets e !! concert_name;
  if decide (total = 0) then None
  else
    let remaining_ratio := (inject_Z (total - sold) / inject_Z total)%Q in
    Some (if Qltb (1 # 2) remaining_ratio then 1%Q
          else if Qltb (2 # 10) remaining_ratio then 115 # 100
          else 135 # 100).

Definition _traffic_multiplier (web_traffic : Z) : Q :=
  if decide (web_traffic < 30) then 95 # 100
  else if decide (web_traffic < 70) then 1%Q
  else 12 # 10.

Definition _preference_multiplier (e : ConcertPricing) (concert_name : string)
  : Q :=
  let preference := default 50 (user_preferences e !! concert_name) in
  if decide (preference < 50) then 9 # 10
  else if decide (preference < 70) then 1%Q
  else 115 # 100.

(** *** Price calculation *)

Definition raw_price (e : ConcertPricing) (concert_name : string)
    (web_traffic : Z) : option Q :=
  base ← dict_get (base_prices e) concert_name;
  t_factor ← _time_multiplier e concert_name;
  i_factor ← _inventory_multiplier e concert_name;
  let w_factor := _traffic_multiplier web_traffic in
  let p_factor := _preference_multiplier e concert_name in
  Some (round2 (base * t_factor * i_factor * w_factor * p_factor)%Q).

Definition get_price (e : ConcertPricing) (concert_name : string)
    (web_traffic : Z) : option Q :=
  raw_price ← raw_price e concert_name web_traffic;
  history ← price_history e !! concert_name;
  match history with
  | [] => Some raw_price
  | _ =>
      floor_price ← median history;
      Some (fmax raw_price floor_price)
  end.

(** *** Selling *)

Definition sell_ticket (e : ConcertPricing) (concert_name : string) (num : Z)
  : option ConcertPricing :=
  total ← total_tickets e !! concert_name;
  sold ← sold_tickets e !! concert_name;
  let remaining := total - sold in
  let num := Z.min num remaining in
  Some (set_sold_tickets e (<[concert_name := sold + num]> (sold_tickets e))).

(** [self.price_history[concert].append(price)] *)
Definition append_price (concert : string) (price : Q) (e : ConcertPricing)
  : option ConcertPricing :=
  history ← price_history e !! concert;
  Some (set_price_history e (<[concert := history ++ [price]]> (price_history e))).

(** *** Prompt parser *)

(** The first loop: the first concert whose lowered name occurs in the
    lowered prompt ([break] at the first hit). *)
Fixpoint select_concert (prompt_lower : string) (concerts : list string)
  : option string :=
  match concerts with
  | [] => None
  | concert :: rest =>
      if contains (lower concert) prompt_lower then Some concert
      else select_concert prompt_lower rest
  end.

Definition high_preference : Z := 95.
Definition low_preference : Z := 40.

(** The second loop: one assignment per concert, in iteration order. *)
Definition assign_preferences (selected_concert : option string)
    (concerts : list string) (prefs : gmap string Z) : gmap string Z :=
  fold_left
    (λ prefs concert,
       if decide (Some concert = selected_concert)
       then <[concert := high_preference]> prefs
       else <[concert := low_preference]> prefs)
    concerts prefs.

Definition _parse_user_prompt (e : ConcertPricing) (prompt : string)
  : ConcertPricing :=
  let prompt_lower := lower prompt in
  let selected_concert := select_concert prompt_lower (keys (base_prices e)) in
  set_user_preferences e
    (assign_preferences selected_concert (keys (base_prices e))
       (user_preferences e)).

(** *** Reward function *)

(** Line 171-172: no clamp of the bin here. *)
Definition base_reward (num_bins bin_index : Z) : Z :=
  Z.max (num_bins - bin_index) 0.

(** Lines 174-179. *)
Definition preference_adjustment (preference : Z) (reward : Q) : Q :=
  if decide (70 < preference) then (reward + (1 # 2))%Q
  else if decide (preference < 30) then (reward - (3 # 2))%Q
  else reward.

Definition calculate_reward (e : ConcertPricing) (concert_name : string)
    (purchased_price : Q) (num_bins : Z) : option Q :=
  history ← price_history e !! concert_name;
  match history with
  | [] => Some 0%Q
  | _ =>
      min_price ← list_min history;
      max_price ← list_max history;
      if Qeq_bool min_price max_price then Some (inject_Z (num_bins - 1))
      else
        '(bin_index, _) ← locate_bin min_price max_price purchased_price num_bins;
        let reward := inject_Z (base_reward num_bins bin_index) in
        let preference := default 50 (user_preferences e !! concert_name) in
        let reward := preference_adjustment preference reward in
        Some (fmax reward 0)
  end.

Definition default_num_bins : Z := 5.

(** *** One simulated day

    A method that mutates [self] and may raise: the state reached is
    kept when an exception ([None]) leaves the method. *)

Definition M (A : Type) : Type := ConcertPricing → ConcertPricing * option A.

Definition ret {A} (a : A) : M A := λ e, (e, Some a).

Definition bind {A B} (m : M A) (k : A → M B) : M B :=
  λ e, match m e with
       | (e', Some a) => k a e'
       | (e', None) => (e', None)
       end.

(** A read of the state that may raise. *)
Definition read {A} (f : ConcertPricing → option A) : M A := λ e, (e, f e).

(** A mutation of the state that may raise (before it mutates). *)
Definition update (f : ConcertPricing → option ConcertPricing) : M unit :=
  λ e, match f e with
       | Some e' => (e', Some tt)
       | None => (e, None)
       end.

#[export] Instance M_ret : MRet M := @ret.
#[export] Instance M_bind : MBind M := λ A B k m, bind m k.

Record DayEntry := mkDayEntry {
  Price : Q;
  Traffic : Z;
  Preference : Z;
  Sold_Today : Z;
  Total_Sold : Z;
  Remaining : Z;
  Floor_Price : Q;
  Reward : Q
}.

(** The body of the loop for one concert; [raw] is the day's raw draw. *)
Definition simulate_concert (web_traffic_dict : gmap string Z) (raw : Z)
    (concert : string) : M DayEntry :=
  traffic ← read (λ _, web_traffic_dict !! concert);
  price ← read (λ e, get_price e concert traffic);
  _ ← update (append_price concert price);
  let tickets_sold_today := randint 0 (Z.max 1 (traffic `div` 10)) raw in
  _ ← update (λ e, sell_ticket e concert tickets_sold_today);
  reward ← read (λ e, calculate_reward e concert price 5);
  preference ← read (λ e, user_preferences e !! concert);
  total_sold ← read (λ e, sold_tickets e !! concert);
  total ← read (λ e, total_tickets e !! concert);
  floor_price ← read (λ e, price_history e !! concert ≫= median);
  mret {| Price := price;
         Traffic := traffic;
         Preference := preference;
         Sold_Today := tickets_sold_today;
         Total_Sold := total_sold;
         Remaining := total - total_sold;
         Floor_Price := floor_price;
         Reward := reward |}.

(** [for concert in self.base_prices: ...]; [rng i] is the raw draw of
    the [i]-th call to [random.randint]. *)
Fixpoint simulate_loop (web_traffic_dict : gmap string Z) (rng : nat → Z)
    (i : nat) (concerts : list string) (day_state : gmap string DayEntry)
  : M (gmap string DayEntry) :=
  match concerts with
  | [] => mret day_state
  | concert :: rest =>
      entry ← simulate_concert web_traffic_dict (rng i) concert;
      simulate_loop web_traffic_dict rng (S i) rest (<[concert := entry]> day_state)
  end.

Definition advance_date : M unit :=
  update (λ e, Some (set_current_date e (current_date e + microseconds_per_day))).

Definition simulate_purchase (e : ConcertPricing) (user_prompt : string)
    (web_traffic_dict : gmap string Z) (rng : nat → Z)
  : ConcertPricing * option (gmap string DayEntry) :=
  let e := _parse_user_prompt e user_prompt in
  (day_state ← simulate_loop web_traffic_dict rng 0 (keys (base_prices e)) ∅;
   _ ← advance_date;
   mret day_state) e.

End Pricing.

(** ** The configuration of [app.py], used for the concrete runs *)

Module Demo.
Import Pricing.

Definition base_prices : list (string * Q) :=
  [("Coldplay", 7000%Q); ("Arijit Singh", 5000%Q); ("Taylor Swift", 9000%Q)].

Definition total_tickets : gmap string Z :=
  {[ "Coldplay" := 1000; "Arijit Singh" := 1500; "Taylor Swift" := 2000 ]}.

(** Dates counted from 2025-09-01 00:00. *)
Definition concert_dates : gmap string Z :=
  {[ "Coldplay" := 19 * microseconds_per_day;
     "Arijit Singh" := 24 * microseconds_per_day;
     "Taylor Swift" := 29 * microseconds_per_day ]}.

Definition pricing : ConcertPricing :=
  init base_prices total_tickets concert_dates 0.

(** The engine with a given Coldplay history. *)
Definition with_history (h : list Q) : ConcertPricing :=
  set_price_history pricing (<["Coldplay" := h]> (price_history pricing)).

Definition web_traffic : gmap string Z :=
  {[ "Coldplay" := 50; "Arijit Singh" := 80; "Taylor Swift" := 20 ]}.

(** A traffic dictionary that misses the second concert. *)
Definition web_traffic_missing : gmap string Z :=
  {[ "Coldplay" := 50; "Taylor Swift" := 20 ]}.
End Demo.

(** ** Sequences of sales *)

(** A caller's sequence of [sell_ticket] calls; a call that raises
    ([KeyError]) has not touched the state. *)
Definition sell_or_skip (e : Pricing.ConcertPricing) (op : string * Z)
  : Pricing.ConcertPricing :=
  default e (Pricing.sell_ticket e op.1 op.2).

Definition sell_all (e : Pricing.ConcertPricing) (ops : list (string * Z))
  : Pricing.ConcertPricing :=
  fold_left sell_or_skip ops e.

Definition never_oversold (e : Pricing.ConcertPricing) : Prop :=
  ∀ c total, Pricing.total_tickets e !! c = Some total →
    ∃ sold, Pricing.sold_tickets e !! c = Some sold ∧ sold ≤ total.

(** ** What one simulated day does to the engine *)

Section day_effects.
Import Pricing.

(** A concert is ready to be priced when every dictionary has it and its
    inventory is not zero. *)
Definition ready (e : ConcertPricing) (c : string) : Prop :=
  is_Some (dict_get (base_prices e) c)
  ∧ is_Some (concert_dates e !! c)
  ∧ (∃ total, total_tickets e !! c = Some total ∧ total ≠ 0)
  ∧ is_Some (sold_tickets e !! c)
  ∧ is_Some (price_history e !! c).

(** The state after the body of the loop has run for [c]. *)
Definition after_concert (e : ConcertPricing) (c : string) (h : list Q)
    (price : Q) (sold_now : Z) : ConcertPricing :=
  set_sold_tickets
    (set_price_history e (<[c := h ++ [price]]> (price_history e)))
    (<[c := sold_now]> (sold_tickets e)).

(** What the loop never writes. *)
Definition same_config (e e' : ConcertPricing) : Prop :=
  base_prices e' = base_prices e
  ∧ total_tickets e' = total_tickets e
  ∧ concert_dates e' = concert_dates e
  ∧ current_date e' = current_date e
  ∧ user_preferences e' = user_preferences e.

(** The concerts [done] have been processed between [e] and [e']: each
    has one more price in its history and its clamped sales added; when a
    snapshot [r] is returned it records that price, the sales drawn and
    the reward of the price against the new history. *)
Definition processed (e e' : ConcertPricing) (done : list string)
    (r : option (gmap string DayEntry)) : Prop :=
  ∀ c, c ∈ done →
    ∃ h p sold total n,
      price_history e !! c = Some h
      ∧ price_history e' !! c = Some (h ++ [p])
      ∧ sold_tickets e !! c = Some sold
      ∧ total_tickets e !! c = Some total
      ∧ 0 ≤ n
      ∧ sold_tickets e' !! c = Some (sold + Z.min n (total - sold))
      ∧ ∀ ds, r = Some ds →
          ∃ entry, ds !! c = Some entry ∧ Price entry = p
                   ∧ Sold_Today entry = n
                   ∧ calculate_reward e' c p 5 = Some (Reward entry).

(** The other concerts are as they were. *)
Definition untouched (e e' : ConcertPricing) (done : list string)
    (ds0 : gmap string DayEntry) (r : option (gmap string DayEntry)) : Prop :=
  ∀ c, c ∉ done →
    price_history e' !! c = price_history e !! c
    ∧ sold_tickets e' !! c = sold_tickets e !! c
    ∧ ∀ ds, r = Some ds → ds !! c = ds0 !! c.

(** The body of the loop raises for [c] in engine [e]: [c] has no entry in
    the traffic dictionary ([KeyError] at line 90) or [get_price] raises
    (line 91). *)
Definition raises_at (e : ConcertPricing) (web_traffic_dict : gmap string Z)
    (c : string) : Prop :=
  web_traffic_dict !! c ≫= get_price e c = None.

(** The body of the loop has run to its end for [c] with the raw draw
    [raw], between [e0], the engine as the parser left it, and [e']: the
    history of [c] has gained the price that [get_price] gives in [e0] and
    the sold count has gained the tickets drawn, clamped to the remainder. *)
Definition committed (e0 : ConcertPricing) (web_traffic_dict : gmap string Z)
    (raw : Z) (e' : ConcertPricing) (c : string) : Prop :=
  ∃ traffic h total sold price,
    web_traffic_dict !! c = Some traffic
    ∧ price_history e0 !! c = Some h
    ∧ total_tickets e0 !! c = Some total
    ∧ sold_tickets e0 !! c = Some sold
    ∧ get_price e0 c traffic = Some price
    ∧ price_history e' !! c = Some (h ++ [price])
    ∧ sold_tickets e' !! c
      = Some (sold + Z.min (randint 0 (Z.max 1 (traffic `div` 10)) raw)
                       (total - sold)).

(** The engine [e1] reached when the loop has gone through [done], the
    [i]-th concert reading the [i]-th raw draw. *)
Definition loop_state (e0 : ConcertPricing) (web_traffic_dict : gmap string Z)
    (rng : nat → Z) (done : list string) (e1 : ConcertPricing) : Prop :=
  same_config e0 e1
  ∧ (∀ c, c ∉ done →
          price_history e1 !! c = price_history e0 !! c
          ∧ sold_tickets e1 !! c = sold_tickets e0 !! c)
  ∧ (∀ i c, done !! i = Some c → committed e0 web_traffic_dict (rng i) e1 c).

End day_effects.

(** ** What a returned snapshot records *)

Section day_records.
Import Pricing.

(** The entry recorded for concert [c] by a day that started (after the
    prompt parser) in [e0], ran with [web_traffic_dict] and ended in [e']. *)
Definition day_entry_ok (e0 : ConcertPricing) (web_traffic_dict : gmap string Z)
    (e' : ConcertPricing) (c : string) (entry : DayEntry) : Prop :=
  ∃ traffic h total sold,
    web_traffic_dict !! c = Some traffic
    ∧ price_history e0 !! c = Some h
    ∧ total_tickets e0 !! c = Some total
    ∧ sold_tickets e0 !! c = Some sold
    ∧ get_price e0 c traffic = Some (Price entry)
    ∧ price_history e' !! c = Some (h ++ [Price entry])
    ∧ sold_tickets e' !! c = Some (Total_Sold entry)
    ∧ Total_Sold entry = sold + Z.min (Sold_Today entry) (total - sold)
    ∧ 0 ≤ Sold_Today entry ≤ Z.max 1 (traffic `div` 10)
    ∧ Remaining entry = total - Total_Sold entry
    ∧ Traffic entry = traffic
    ∧ user_preferences e0 !! c = Some (Preference entry)
    ∧ median (h ++ [Price entry]) = Some (Floor_Price entry)
    ∧ calculate_reward e' c (Price entry) 5 = Some (Reward entry).

(** The invariant of the loop: nothing but histories and sold counts has
    changed, the concerts still to come are as at the start of the day, and
    every concert done has its entry. *)
Definition day_invariant (e0 : ConcertPricing) (web_traffic_dict : gmap string Z)
    (done : list string) (e1 : ConcertPricing) (ds1 : gmap string DayEntry)
  : Prop :=
  same_config e0 e1
  ∧ (∀ c, c ∉ done →
          price_history e1 !! c = price_history e0 !! c
          ∧ sold_tickets e1 !! c = sold_tickets e0 !! c
          ∧ ds1 !! c = None)
  ∧ (∀ c, c ∈ done →
          ∃ entry, ds1 !! c = Some entry
                   ∧ day_entry_ok e0 web_traffic_dict e1 c entry).

(** The inputs of one day: the prompt, the traffic and the random source. *)
Definition DayInput : Type := string * gmap string Z * (nat → Z).

(** A caller running one day after the other on the same engine, as the
    routes of [app.py] do; the snapshots (or [None] for a day that raised)
    are collected in order. *)
Fixpoint simulate_days (e : ConcertPricing) (days : list DayInput)
  : ConcertPricing * list (option (gmap string DayEntry)) :=
  match days with
  | [] => (e, [])
  | (prompt, traffic, rng) :: rest =>
      let '(e1, r) := simulate_purchase e prompt traffic rng in
      let '(e2, rs) := simulate_days e1 rest in
      (e2, r :: rs)
  end.

End day_records.

(** ** [app.py]: the state query and the buy route

    The module-level [pricing] object is the engine passed around; the
    module-level [base_prices] is the dict the engine was built from. The
    append to [results.json] and the HTTP wrapping are left out. *)

Module App.
Import Pricing.

Record State := mkState {
  prices : gmap string Q;
  remaining : gmap string Z;
  preference : gmap string Z;
  date : Z
}.

(** The loop of [get_state] for one concert. *)
Definition get_state_concert (e : ConcertPricing) (c : string)
    (acc : gmap string Q * gmap string Z * gmap string Z)
  : option (gmap string Q * gmap string Z * gmap string Z) :=
  let '(prices, rem, pref) := acc in
  history ← price_history e !! c;
  price ← match last history with
          | Some p => Some p
          | None => dict_get (base_prices e) c
          end;
  total ← total_tickets e !! c;
  sold ← sold_tickets e !! c;
  p ← user_preferences e !! c;
  Some (<[c := price]> prices, <[c := total - sold]> rem, <[c := p]> pref).

Fixpoint get_state_loop (e : ConcertPricing) (concerts : list string)
    (acc : gmap string Q * gmap string Z * gmap string Z)
  : option (gmap string Q * gmap string Z * gmap string Z) :=
  match concerts with
  | [] => Some acc
  | c :: rest =>
      acc ← get_state_concert e c acc;
      get_state_loop e rest acc
  end.

(** [get_state()] *)
Definition get_state (e : ConcertPricing) : option State :=
  '(prices, rem, pref) ← get_state_loop e (keys (base_prices e)) (∅, ∅, ∅);
  Some (mkState prices rem pref (current_date e)).

(** The logged entry of a purchase. *)
Record Entry := mkEntry {
  entry_date : Z;
  entry_user_prompt : string;
  entry_concert : string;
  entry_price : Q;
  entry_reward : Q;
  entry_bins : list Q;
  entry_bin_index : option Z;
  entry_web_traffic : gmap string Z
}.

Inductive Response :=
| ConcertNotFound
| Bought (entry : Entry).

(** [{c: random.randint(lo, 100) for c in base_prices}], the [i]-th
    concert reading the [i]-th raw draw. *)
Definition generate_traffic (lo : Z) (concerts : list string) (rng : nat → Z)
  : gmap string Z :=
  list_to_map (imap (λ i c, (c, randint lo 100 (rng i))) concerts).

(** [buy(concert, user_prompt)]: the engine reached and the response, or
    [None] for a raised exception. The day's draws follow the traffic
    draws in the random source. *)
Definition buy (e : ConcertPricing) (concert user_prompt : string)
    (rng : nat → Z) : ConcertPricing * option Response :=
  let concerts := keys (base_prices e) in
  let web_traffic := generate_traffic 20 concerts rng in
  let '(e', r) := simulate_purchase e user_prompt web_traffic
                    (λ i, rng (length concerts + i)%nat) in
  (e',
   day_state ← r;
   match day_state !! concert with
   | None => Some ConcertNotFound
   | Some snapshot =>
       let purchased_price := Price snapshot in
       history ← price_history e' !! concert;
       '(reward, bin_index, bins) ←
         RewardFunc.calculate_reward history purchased_price
           RewardFunc.default_preference 5 RewardFunc.default_threshold;
       Some (Bought (mkEntry (current_date e') user_prompt concert
                       purchased_price reward bins bin_index web_traffic))
   end).

(** What [llm_buy] answers. *)
Inductive LlmResponse :=
| Wait (state : State)
| Decided (entry : Entry).

(** [llm_buy(user_prompt)] with the outcome [decision] of
    [decide_with_llm] on the state read first. *)
Definition llm_buy (e : ConcertPricing) (user_prompt : string)
    (decide_with_llm : State → string) (rng : nat → Z)
  : ConcertPricing * option LlmResponse :=
  match get_state e with
  | None => (e, None)
  | Some state =>
      let decision := decide_with_llm state in
      if decide (decision = "Wait") then (e, Some (Wait state))
      else
        let concerts := keys (base_prices e) in
        let web_traffic := generate_traffic 33 concerts rng in
        let '(e', r) := simulate_purchase e user_prompt web_traffic
                          (λ i, rng (length concerts + i)%nat) in
        (e',
         day_state ← r;
         snapshot ← day_state !! decision;
         let purchased_price := Price snapshot in
         history ← price_history e' !! decision;
         '(reward, bin_index, bins) ←
           RewardFunc.calculate_reward history purchased_price
             RewardFunc.default_preference 5 RewardFunc.default_threshold;
         Some (Decided (mkEntry (current_date e') user_prompt decision
                          purchased_price reward bins bin_index web_traffic)))
  end.

End App.

(** ** [llm_client.py]: the local fallback of [decide_with_llm]

    The network call is outside the model. [state_prices] stands for the
    outcome of reading the prices out of [state_json]: [None] when
    [json.loads] fails, the state is no dict, or it has no ["prices"]. *)

Module LlmClient.

(** [min(prices, key=prices.get)]: the first key with the smallest price;
    [None] is the [ValueError] on an empty dict. *)
Fixpoint min_key_from (best : string) (best_price : Q)
    (rest : list (string * Q)) : string :=
  match rest with
  | [] => best
  | (k, v) :: rest' =>
      if Qltb v best_price then min_key_from k v rest'
      else min_key_from best best_price rest'
  end.

Definition min_key (prices : list (string * Q)) : option string :=
  match prices with
  | [] => None
  | (k, v) :: rest => Some (min_key_from k v rest)
  end.

(** [random.choice(seq)] from a raw draw; [None] is the [IndexError] on an
    empty list. *)
Definition random_choice (seq : list string) (raw : Z) : option string :=
  seq !! Z.to_nat (raw `mod` Z.of_nat (length seq)).

(** The nested [fallback()]: keyword match, then the cheapest concert when
    the prompt says so and the prices can be read (any exception there is
    swallowed), then a random artist. *)
Definition fallback (user_prompt : string)
    (state_prices : option (list (string * Q)))
    (available_artists : list string) (raw : Z) : option string :=
  let low := lower user_prompt in
  match Pricing.select_concert low available_artists with
  | Some a => Some a
  | None =>
      match (if contains "cheapest" low then state_prices ≫= min_key else None) with
      | Some a => Some a
      | None => random_choice available_artists raw
      end
  end.

End LlmClient.

(** ** [testy.py]: the variant of the engine

    The class of [testy.py] repeats [ConcertPricing] with three constants
    changed: the low band of [_preference_multiplier] starts below 30, the
    keyword parser gives the other concerts 20, and the reward penalty is
    0.5. Its logging and its network parser are left out. *)

Module Testy.
Import Pricing.

Definition _preference_multiplier (e : ConcertPricing) (concert_name : string)
  : Q :=
  let preference := default 50 (user_preferences e !! concert_name) in
  if decide (preference < 30) then 9 # 10
  else if decide (preference < 70) then 1%Q
  else 115 # 100.

Definition raw_price (e : ConcertPricing) (concert_name : string)
    (web_traffic : Z) : option Q :=
  base ← dict_get (base_prices e) concert_name;
  t_factor ← _time_multiplier e concert_name;
  i_factor ← _inventory_multiplier e concert_name;
  let w_factor := _traffic_multiplier web_traffic in
  let p_factor := _preference_multiplier e concert_name in
  Some (round2 (base * t_factor * i_factor * w_factor * p_factor)%Q).

Definition get_price (e : ConcertPricing) (concert_name : string)
    (web_traffic : Z) : option Q :=
  raw_price ← raw_price e concert_name web_traffic;
  history ← price_history e !! concert_name;
  match history with
  | [] => Some raw_price
  | _ =>
      floor_price ← median history;
      Some (fmax raw_price floor_price)
  end.

Definition low_preference : Z := 20.

Definition assign_preferences (selected_concert : option string)
    (concerts : list string) (prefs : gmap string Z) : gmap string Z :=
  fold_left
    (λ prefs concert,
       if decide (Some concert = selected_concert)
       then <[concert := high_preference]> prefs
       else <[concert := low_preference]> prefs)
    concerts prefs.

Definition _parse_user_prompt (e : ConcertPricing) (prompt : string)
  : ConcertPricing :=
  let prompt_lower := lower prompt in
  let selected_concert := select_concert prompt_lower (keys (base_prices e)) in
  set_user_preferences e
    (assign_preferences selected_concert (keys (base_prices e))
       (user_preferences e)).

Definition preference_adjustment (preference : Z) (reward : Q) : Q :=
  if decide (70 < preference) then (reward + (1 # 2))%Q
  else if decide (preference < 30) then (reward - (1 # 2))%Q
  else reward.

Definition calculate_reward (e : ConcertPricing) (concert_name : string)
    (purchased_price : Q) (num_bins : Z) : option Q :=
  history ← price_history e !! concert_name;
  match history with
  | [] => Some 0%Q
  | _ =>
      min_price ← list_min history;
      max_price ← list_max history;
      if Qeq_bool min_price max_price then Some (inject_Z (num_bins - 1))
      else
        '(bin_index, _) ← locate_bin min_price max_price purchased_price num_bins;
        let reward := inject_Z (Pricing.base_reward num_bins bin_index) in
        let preference := default 50 (user_preferences e !! concert_name) in
        let reward := preference_adjustment preference reward in
        Some (fmax reward 0)
  end.

End Testy.

(** * Properties *)

Example linspace_example :
  (map Qred <$> linspace 100 500 6) = Some [100; 180; 260; 340; 420; 500]%Q.
Proof. vm_compute. reflexivity. Qed.

(** The history [100 .. 500] with a purchase at 250 and five bins: bin 2,
    base reward 3, untouched by the adjustments at preference 50 and
    threshold 2. *)
Example calculate_reward_scenario :
  (λ r, (Qred (RewardFunc.reward r), RewardFunc.bin_index r,
         map Qred (RewardFunc.bins r)))
    <$> RewardFunc.calculate_reward [100; 200; 300; 400; 500]%Q 250 50 5 2
  = Some (3%Q, Some 2, [100; 180; 260; 340; 420; 500]%Q).
Proof. vm_compute. reflexivity. Qed.

(** ** Order lemmas for the numeric layer *)

Lemma Qltb_true (a b : Q) : Qltb a b = true ↔ (a < b)%Q.
Proof.
  unfold Qltb. destruct (Qle_bool b a) eqn:E; simpl.
  - apply Qle_bool_iff in E. split; [discriminate|].
    intros H. exfalso. exact (Qlt_not_le _ _ H E).
  - split; [intros _|reflexivity]. apply Qnot_le_lt. intros H.
    apply Qle_bool_iff in H. congruence.
Qed.

Lemma Qltb_false (a b : Q) : Qltb a b = false ↔ (b <= a)%Q.
Proof.
  unfold Qltb. destruct (Qle_bool b a) eqn:E; simpl.
  - apply Qle_bool_iff in E. tauto.
  - split; [discriminate|]. intros H. apply Qle_bool_iff in H. congruence.
Qed.

Ltac case_Qltb :=
  match goal with
  | |- context [Qltb ?a ?b] =>
      let E := fresh "E" in
      destruct (Qltb a b) eqn:E;
      [apply Qltb_true in E | apply Qltb_false in E]
  end.

Lemma fmax_ub_l (a b : Q) : (a <= fmax a b)%Q.
Proof. unfold fmax. case_Qltb; lra. Qed.

Lemma fmax_ub_r (a b : Q) : (b <= fmax a b)%Q.
Proof. unfold fmax. case_Qltb; lra. Qed.

Lemma fmin_lb_l (a b : Q) : (fmin a b <= a)%Q.
Proof. unfold fmin. case_Qltb; lra. Qed.

Lemma fmin_lb_r (a b : Q) : (fmin a b <= b)%Q.
Proof. unfold fmin. case_Qltb; lra. Qed.

Lemma fmax_mono (a1 a2 b : Q) : (a1 <= a2)%Q → (fmax a1 b <= fmax a2 b)%Q.
Proof. intros H. unfold fmax. repeat case_Qltb; lra. Qed.

Lemma fmin_mono (a1 a2 b : Q) : (a1 <= a2)%Q → (fmin a1 b <= fmin a2 b)%Q.
Proof. intros H. unfold fmin. repeat case_Qltb; lra. Qed.

Lemma clip_mono (x1 x2 lo hi : Q) :
  (x1 <= x2)%Q → (clip x1 lo hi <= clip x2 lo hi)%Q.
Proof. intros H. unfold clip. by apply fmin_mono, fmax_mono. Qed.

Lemma clip_le_hi (x lo hi : Q) : (clip x lo hi <= hi)%Q.
Proof. apply fmin_lb_r. Qed.

(** ** [np.digitize]: range and monotonicity *)

Lemma digitize_nonneg (x : Q) (bins : list Q) : 0 ≤ digitize x bins.
Proof. induction bins as [|b bins IH]; simpl; [lia|]. case_Qltb; lia. Qed.

Lemma digitize_le_length (x : Q) (bins : list Q) :
  digitize x bins ≤ Z.of_nat (length bins).
Proof. induction bins as [|b bins IH]; simpl; [lia|]. case_Qltb; lia. Qed.

Lemma digitize_mono (x1 x2 : Q) (bins : list Q) :
  (x1 <= x2)%Q → digitize x1 bins ≤ digitize x2 bins.
Proof.
  intros H. induction bins as [|b bins IH]; simpl; [lia|].
  destruct (Qltb b x1) eqn:E1.
  - apply Qltb_true in E1.
    assert (Qltb b x2 = true) as -> by (apply Qltb_true; lra). lia.
  - case_Qltb; [|lia]. pose proof (digitize_nonneg x2 bins). lia.
Qed.

(** A price that does not exceed the last edge never counts it. *)
Lemma digitize_below_last (x hi : Q) (edges : list Q) :
  (x <= hi)%Q → digitize x (edges ++ [hi]) ≤ Z.of_nat (length edges).
Proof.
  intros H. induction edges as [|b edges IH]; simpl.
  - assert (Qltb hi x = false) as -> by (apply Qltb_false; lra). lia.
  - case_Qltb; lia.
Qed.

(** ** [np.linspace]: it returns [num] edges, the last one [stop] *)

Lemma linspace_Some (start stop : Q) (num : Z) :
  0 ≤ num →
  ∃ bins, linspace start stop num = Some bins ∧ length bins = Z.to_nat num.
Proof.
  intros H. unfold linspace. destruct (decide (num < 0)); [lia|].
  eexists; split; [reflexivity|]. case_decide.
  - rewrite length_app, length_take, length_map, length_seq. simpl. lia.
  - by rewrite length_map, length_seq.
Qed.

Lemma linspace_last (start stop : Q) (num : Z) :
  1 < num →
  ∃ edges, linspace start stop num = Some (edges ++ [stop])
           ∧ length edges = Z.to_nat (num - 1).
Proof.
  intros H. unfold linspace. destruct (decide (num < 0)); [lia|].
  rewrite decide_True by done. eexists; split; [reflexivity|].
  rewrite length_take, length_map, length_seq. lia.
Qed.

Lemma locate_bin_Some (min_p max_p p : Q) (num_bins : Z) :
  0 ≤ num_bins + 1 →
  ∃ bins, locate_bin min_p max_p p num_bins
          = Some (digitize (clip p min_p max_p) bins, bins)
        ∧ linspace min_p max_p (num_bins + 1) = Some bins.
Proof.
  intros H. destruct (linspace_Some min_p max_p _ H) as (bins & Hb & _).
  exists bins. unfold locate_bin. rewrite Hb. done.
Qed.

(** The located bin lies in [0 .. num_bins]. *)
Lemma locate_bin_range (min_p max_p p : Q) (num_bins bin_index : Z) (bins : list Q) :
  1 ≤ num_bins →
  locate_bin min_p max_p p num_bins = Some (bin_index, bins) →
  0 ≤ bin_index ≤ num_bins.
Proof.
  intros Hn. unfold locate_bin.
  destruct (linspace_last min_p max_p (num_bins + 1)) as (edges & -> & Hlen); [lia|].
  simpl. intros [= <- <-]. split; [apply digitize_nonneg|].
  etrans; [apply digitize_below_last, clip_le_hi|]. lia.
Qed.

(** ** The two reward scorers, case by case *)

Lemma list_min_is_Some (h : list Q) : h ≠ [] → is_Some (list_min h).
Proof. destruct h; [done|]. by eexists. Qed.

Lemma list_max_is_Some (h : list Q) : h ≠ [] → is_Some (list_max h).
Proof. destruct h; [done|]. by eexists. Qed.

Lemma RewardFunc_degenerate (h : list Q) (lo hi p : Q) (pref nb : Z) (thr : Q) :
  list_min h = Some lo → list_max h = Some hi → Qeq_bool lo hi = true →
  RewardFunc.calculate_reward h p pref nb thr
  = Some (inject_Z (nb - 1), Some 1, replicate (Z.to_nat (nb + 1)) lo).
Proof.
  intros Hlo Hhi Heq. unfold RewardFunc.calculate_reward.
  destruct h; [done|]. rewrite Hlo, Hhi. simpl. by rewrite Heq.
Qed.

Lemma RewardFunc_spread (h : list Q) (lo hi p : Q) (pref nb : Z) (thr : Q)
    (b : Z) (bins : list Q) :
  list_min h = Some lo → list_max h = Some hi → Qeq_bool lo hi = false →
  locate_bin lo hi p nb = Some (b, bins) →
  RewardFunc.calculate_reward h p pref nb thr
  = Some (RewardFunc.threshold_adjustment pref thr
            (RewardFunc.preference_adjustment pref
               (inject_Z (RewardFunc.base_reward nb (RewardFunc.clamp_bin nb b)))),
          Some (RewardFunc.clamp_bin nb b), bins).
Proof.
  intros Hlo Hhi Heq Hb. unfold RewardFunc.calculate_reward.
  destruct h; [done|]. rewrite Hlo, Hhi. simpl. by rewrite Heq, Hb.
Qed.

Lemma Pricing_degenerate (e : Pricing.ConcertPricing) (c : string) (h : list Q)
    (lo hi p : Q) (nb : Z) :
  Pricing.price_history e !! c = Some h →
  list_min h = Some lo → list_max h = Some hi → Qeq_bool lo hi = true →
  Pricing.calculate_reward e c p nb = Some (inject_Z (nb - 1)).
Proof.
  intros Hh Hlo Hhi Heq. unfold Pricing.calculate_reward. rewrite Hh. simpl.
  destruct h; [done|]. rewrite Hlo, Hhi. simpl. by rewrite Heq.
Qed.

Lemma Pricing_spread (e : Pricing.ConcertPricing) (c : string) (h : list Q)
    (lo hi p : Q) (nb b : Z) (bins : list Q) :
  Pricing.price_history e !! c = Some h →
  list_min h = Some lo → list_max h = Some hi → Qeq_bool lo hi = false →
  locate_bin lo hi p nb = Some (b, bins) →
  Pricing.calculate_reward e c p nb
  = Some (fmax (Pricing.preference_adjustment
                  (default 50 (Pricing.user_preferences e !! c))
                  (inject_Z (Pricing.base_reward nb b))) 0).
Proof.
  intros Hh Hlo Hhi Heq Hb. unfold Pricing.calculate_reward. rewrite Hh. simpl.
  destruct h; [done|]. rewrite Hlo, Hhi. simpl. by rewrite Heq, Hb.
Qed.

Lemma inject_Z_nonneg (z : Z) : 0 ≤ z → (0 <= inject_Z z)%Q.
Proof. intros H. change 0%Q with (inject_Z 0). rewrite <- Zle_Qle. exact H. Qed.

Lemma RewardFunc_adjust_lower (pref : Z) (thr r : Q) :
  (0 <= r)%Q →
  let r' := RewardFunc.threshold_adjustment pref thr
              (RewardFunc.preference_adjustment pref r) in
  (- (5 # 2) <= r')%Q ∧ (50 < pref → (0 <= r')%Q).
Proof.
  intros Hr. unfold RewardFunc.threshold_adjustment,
    RewardFunc.preference_adjustment.
  repeat case_decide; destruct (Qle_bool _ thr); split; intros; try lia; lra.
Qed.

(** ** C1: the sign of the reward *)

(** C1 (as amended). With [num_bins >= 1] the method
    [ConcertPricing.calculate_reward] returns a reward that is at least 0:
    its last step is [max(reward, 0)]. The standalone [calculate_reward]
    floors the base reward only; after the preference and threshold
    adjustments its reward is at least -2.5, and at least 0 when
    [preference > 50]. *)
Theorem C1_reward_lower_bounds (e : Pricing.ConcertPricing) (c : string)
    (h : list Q) (p : Q) (pref nb : Z) (thr : Q) :
  1 ≤ nb →
  Pricing.price_history e !! c = Some h →
  (∃ r, Pricing.calculate_reward e c p nb = Some r ∧ (0 <= r)%Q) ∧
  (∃ res, RewardFunc.calculate_reward h p pref nb thr = Some res
          ∧ (- (5 # 2) <= RewardFunc.reward res)%Q
          ∧ (50 < pref → (0 <= RewardFunc.reward res)%Q)).
Proof.
  intros Hnb Hh.
  destruct (decide (h = [])) as [->|Hne].
  { split.
    - exists 0%Q. unfold Pricing.calculate_reward. rewrite Hh. simpl.
      split; [done|lra].
    - eexists. split; [reflexivity|]. cbn. split; intros; lra. }
  destruct (list_min_is_Some h Hne) as [lo Hlo].
  destruct (list_max_is_Some h Hne) as [hi Hhi].
  assert (0 <= inject_Z (nb - 1))%Q as Hdeg by (apply inject_Z_nonneg; lia).
  destruct (Qeq_bool lo hi) eqn:Heq.
  { split.
    - eexists. split; [by eapply Pricing_degenerate|done].
    - eexists. split; [by eapply RewardFunc_degenerate|].
      cbn. split; intros; lra. }
  destruct (locate_bin_Some lo hi p nb) as (bins & Hb & _); [lia|].
  split.
  - eexists. split; [by eapply Pricing_spread|]. apply fmax_ub_r.
  - eexists. split; [by eapply RewardFunc_spread|]. cbn.
    apply RewardFunc_adjust_lower, inject_Z_nonneg.
    unfold RewardFunc.base_reward. lia.
Qed.

Lemma C1_reward_lower_bounds_witness :
  (∃ r, Pricing.calculate_reward (Demo.with_history [100; 200]%Q)
          "Coldplay" 200 5 = Some r ∧ (0 <= r)%Q) ∧
  (∃ res, RewardFunc.calculate_reward [100; 200]%Q 200 50 5 2 = Some res
          ∧ (- (5 # 2) <= RewardFunc.reward res)%Q
          ∧ (50 < 50 → (0 <= RewardFunc.reward res)%Q)).
Proof.
  apply (C1_reward_lower_bounds (Demo.with_history [100; 200]%Q) "Coldplay"
           [100; 200]%Q 200 50 5 2); [lia | reflexivity].
Defined.

(** C1 fails as stated: the standalone scorer returns -1 for the most
    expensive purchase at the default preference, and the method returns
    -1 on a one-price history when [num_bins = 0]. *)
Lemma C1_counterexample :
  (RewardFunc.reward <$> RewardFunc.calculate_reward [100; 200]%Q 200 50 5 2)
    = Some (-1)%Q
  ∧ Pricing.calculate_reward (Demo.with_history [100]%Q) "Coldplay" 100 0
    = Some (-1)%Q
  ∧ (-1 < 0)%Q.
Proof. split; [|split]; reflexivity. Qed.

(** ** C2: the range of the bin index *)

(** The first edge of [np.linspace] is [start] (up to the value of the
    fraction). *)
Lemma linspace_first (start stop : Q) (num : Z) :
  1 ≤ num →
  ∃ b0 edges, linspace start stop num = Some (b0 :: edges) ∧ (b0 == start)%Q.
Proof.
  intros H. unfold linspace. destruct (decide (num < 0)); [lia|].
  destruct (Z.to_nat num) as [|k] eqn:En; [lia|].
  rewrite <- cons_seq. simpl map.
  case_decide.
  - destruct k as [|k]; [lia|]. simpl.
    do 2 eexists. split; [reflexivity|]. simpl. ring.
  - do 2 eexists. split; [reflexivity|]. simpl. ring.
Qed.

(** Before any clamp, a purchase at the lower end of the range is located
    in bin 0: [digitize] is right-inclusive and the first edge is [min]. *)
Lemma locate_bin_at_min (min_p max_p : Q) (num_bins : Z) :
  0 ≤ num_bins →
  ∃ bins, locate_bin min_p max_p min_p num_bins = Some (0, bins).
Proof.
  intros H. unfold locate_bin.
  destruct (linspace_first min_p max_p (num_bins + 1)) as (b0 & edges & -> & Hb0);
    [lia|].
  simpl. eexists. rewrite (proj2 (Qltb_false _ _)); [reflexivity|].
  rewrite Hb0. apply Qle_trans with (fmax min_p min_p); [apply fmin_lb_l|].
  unfold fmax. case_Qltb; lra.
Qed.

(** The standalone scorer clamps: its bin lies in [1 .. num_bins] and its
    base reward in [0 .. num_bins - 1]. *)
Lemma RewardFunc_bin_range (num_bins b : Z) :
  1 ≤ num_bins →
  1 ≤ RewardFunc.clamp_bin num_bins b ≤ num_bins
  ∧ 0 ≤ RewardFunc.base_reward num_bins (RewardFunc.clamp_bin num_bins b)
      ≤ num_bins - 1.
Proof. unfold RewardFunc.clamp_bin, RewardFunc.base_reward. lia. Qed.

(** The method does not: with bin 0 its base reward is [num_bins]. *)
Lemma Pricing_base_reward_at_min (min_p max_p : Q) (num_bins : Z) :
  0 ≤ num_bins →
  ∃ bins, locate_bin min_p max_p min_p num_bins = Some (0, bins)
          ∧ Pricing.base_reward num_bins 0 = num_bins.
Proof.
  intros H. destruct (locate_bin_at_min min_p max_p num_bins H) as [bins Hb].
  exists bins. split; [done|]. unfold Pricing.base_reward. lia.
Qed.

(** C2 (the code departs from it). On the history [100, 200] with
    [num_bins = 5], a purchase at the historical minimum 100 is located in
    bin 0; the standalone scorer clamps it to bin 1 (base reward 4), the
    method [ConcertPricing.calculate_reward] has no clamp and returns 5,
    that is [num_bins]. *)
Theorem C2_method_bin_zero_at_minimum :
  fst <$> locate_bin 100 200 100 5 = Some 0
  ∧ (RewardFunc.bin_index <$> RewardFunc.calculate_reward [100; 200]%Q 100 50 5 5)
    = Some (Some 1)
  ∧ Pricing.calculate_reward (Demo.with_history [100; 200]%Q) "Coldplay" 100 5
    = Some 5%Q.
Proof. split; [|split]; reflexivity. Qed.

(** ** C4: the degenerate history *)

(** A history whose entries are all equal has [min == max]. *)
Lemma all_equal_min_max (a : Q) (h : list Q) :
  h ≠ [] → Forall (λ x, (x == a)%Q) h →
  ∃ lo hi, list_min h = Some lo ∧ list_max h = Some hi ∧ Qeq_bool lo hi = true.
Proof.
  intros Hne Hall. destruct h as [|x h]; [done|].
  apply Forall_cons in Hall as [Hx Hall]. clear Hne.
  assert (∀ y, (y == a)%Q → (fold_left fmin h y == a)%Q
                              ∧ (fold_left fmax h y == a)%Q) as Hfold.
  { induction Hall as [|z h Hz Hall IH]; intros y Hy; [done|]. simpl.
    split; apply IH; unfold fmin, fmax; case_Qltb; done. }
  destruct (Hfold x Hx) as [Hlo Hhi].
  do 2 eexists. split; [reflexivity|]. split; [reflexivity|].
  apply Qeq_bool_iff. by rewrite Hlo, Hhi.
Qed.

(** C4. When the minimum and the maximum of a non-empty history are equal,
    both scorers return exactly [num_bins - 1], whatever the purchased
    price, the preference and the threshold. *)
Theorem C4_degenerate_history_reward (e : Pricing.ConcertPricing) (c : string)
    (h : list Q) (lo hi p : Q) (pref nb : Z) (thr : Q) :
  list_min h = Some lo → list_max h = Some hi → (lo == hi)%Q →
  Pricing.price_history e !! c = Some h →
  (RewardFunc.reward <$> RewardFunc.calculate_reward h p pref nb thr)
    = Some (inject_Z (nb - 1))
  ∧ Pricing.calculate_reward e c p nb = Some (inject_Z (nb - 1)).
Proof.
  intros Hlo Hhi Heq Hh. apply Qeq_bool_iff in Heq. split.
  - by erewrite RewardFunc_degenerate.
  - by eapply Pricing_degenerate.
Qed.

Lemma C4_degenerate_history_reward_witness :
  (RewardFunc.reward <$>
     RewardFunc.calculate_reward [8050; 8050; 8050]%Q 9999 20 5 2)
    = Some (inject_Z (5 - 1))
  ∧ Pricing.calculate_reward (Demo.with_history [8050; 8050; 8050]%Q)
      "Coldplay" 9999 5 = Some (inject_Z (5 - 1)).
Proof.
  apply (C4_degenerate_history_reward
           (Demo.with_history [8050; 8050; 8050]%Q) "Coldplay"
           [8050; 8050; 8050]%Q 8050 8050 9999 20 5 2); reflexivity.
Defined.

(** ** C5: a lower price never earns a lower base reward *)

(** C5. On a history with [min] and [max] different, for purchased prices
    [p1 < p2] both scorers locate bins [b1 <= b2], and the base reward
    ([num_bins] minus the bin, floored at 0; after the clamp in the
    standalone scorer) of [p1] is at least that of [p2]. *)
Theorem C5_base_reward_monotone (h : list Q) (lo hi p1 p2 : Q) (nb : Z) :
  list_min h = Some lo → list_max h = Some hi → ¬ (lo == hi)%Q →
  1 ≤ nb → (p1 < p2)%Q →
  ∃ b1 b2 bins,
    locate_bin lo hi p1 nb = Some (b1, bins)
    ∧ locate_bin lo hi p2 nb = Some (b2, bins)
    ∧ Pricing.base_reward nb b2 ≤ Pricing.base_reward nb b1
    ∧ RewardFunc.base_reward nb (RewardFunc.clamp_bin nb b2)
      ≤ RewardFunc.base_reward nb (RewardFunc.clamp_bin nb b1).
Proof.
  intros _ _ _ Hnb Hp.
  destruct (locate_bin_Some lo hi p1 nb) as (bins & H1 & Hbins); [lia|].
  destruct (locate_bin_Some lo hi p2 nb) as (bins' & H2 & Hbins'); [lia|].
  assert (bins' = bins) as -> by congruence.
  eexists _, _, bins. split; [exact H1|]. split; [exact H2|].
  assert (digitize (clip p1 lo hi) bins ≤ digitize (clip p2 lo hi) bins) as Hmono.
  { apply digitize_mono, clip_mono. lra. }
  unfold Pricing.base_reward, RewardFunc.base_reward, RewardFunc.clamp_bin. lia.
Qed.

Lemma C5_base_reward_monotone_witness :
  ∃ b1 b2 bins,
    locate_bin 100 500 250 5 = Some (b1, bins)
    ∧ locate_bin 100 500 430 5 = Some (b2, bins)
    ∧ Pricing.base_reward 5 b2 ≤ Pricing.base_reward 5 b1
    ∧ RewardFunc.base_reward 5 (RewardFunc.clamp_bin 5 b2)
      ≤ RewardFunc.base_reward 5 (RewardFunc.clamp_bin 5 b1).
Proof.
  apply (C5_base_reward_monotone [100; 200; 300; 400; 500]%Q 100 500 250 430 5);
    [reflexivity | reflexivity | | lia | reflexivity].
  intros H. vm_compute in H. discriminate H.
Defined.

(** ** C9: the two scorers disagree *)

(** C9. The two reward implementations are not extensionally equal: on the
    history [100, 200] with [num_bins = 5], the method and the standalone
    scorer (threshold 2.0) return different rewards for the same purchased
    price and the same preference; the bonus, its threshold and the
    threshold penalty all differ. *)
Theorem C9_scorers_not_equal :
  ∃ (e : Pricing.ConcertPricing) (c : string) (h : list Q) (p : Q) (nb : Z)
    (r_method r_standalone : Q),
    Pricing.price_history e !! c = Some h
    ∧ Pricing.calculate_reward e c p nb = Some r_method
    ∧ (RewardFunc.reward <$>
         RewardFunc.calculate_reward h p
           (default 50 (Pricing.user_preferences e !! c)) nb
           RewardFunc.default_threshold) = Some r_standalone
    ∧ ¬ (r_method == r_standalone)%Q.
Proof.
  exists (Demo.with_history [100; 200]%Q), "Coldplay", [100; 200]%Q, 200%Q, 5,
    0%Q, (-1)%Q.
  repeat split; try reflexivity. intros H. vm_compute in H. discriminate H.
Qed.

(** Two more disagreements on the same history: preference 95 at price
    150 (bonus 0.5 against 0.25) and preference 60 at price 110 (no bonus
    against 0.25). *)
Example scorers_disagree_on_bonus :
  let e := Pricing.set_user_preferences (Demo.with_history [100; 200]%Q)
             {[ "Coldplay" := 95 ]} in
  Qred <$> Pricing.calculate_reward e "Coldplay" 150 5 = Some (5 # 2)
  ∧ (Qred ∘ RewardFunc.reward <$>
       RewardFunc.calculate_reward [100; 200]%Q 150 95 5 2) = Some (9 # 4).
Proof. split; reflexivity. Qed.

Example scorers_disagree_on_bonus_threshold :
  let e := Pricing.set_user_preferences (Demo.with_history [100; 200]%Q)
             {[ "Coldplay" := 60 ]} in
  Qred <$> Pricing.calculate_reward e "Coldplay" 110 5 = Some 4%Q
  ∧ (Qred ∘ RewardFunc.reward <$>
       RewardFunc.calculate_reward [100; 200]%Q 110 60 5 2) = Some (17 # 4).
Proof. split; reflexivity. Qed.

(** ** C3: the median floor of [get_price] *)

Lemma length_insert_sorted (x : Q) (l : list Q) :
  length (insert_sorted x l) = S (length l).
Proof.
  induction l as [|y l IH]; simpl; [done|]. case_Qltb; simpl; by rewrite ?IH.
Qed.

Lemma length_sorted (data : list Q) : length (sorted data) = length data.
Proof.
  induction data as [|x data IH]; simpl; [done|].
  by rewrite length_insert_sorted, IH.
Qed.

(** [statistics.median] does not raise on a non-empty list. *)
Lemma median_is_Some (data : list Q) : data ≠ [] → is_Some (median data).
Proof.
  intros Hne. unfold median.
  assert (0 < length (sorted data))%nat as Hlen.
  { rewrite length_sorted. destruct data; [done|simpl; lia]. }
  set (n := length (sorted data)) in *.
  pose proof (Nat.div_lt n 2 Hlen ltac:(lia)) as Hhalf.
  case_decide; [lia|]. case_decide.
  - by apply lookup_lt_is_Some.
  - destruct (lookup_lt_is_Some_2 (sorted data) (n `div` 2 - 1)) as [lo ->];
      [fold n; lia|].
    destruct (lookup_lt_is_Some_2 (sorted data) (n `div` 2)) as [hi ->];
      [fold n; lia|].
    by eexists.
Qed.

(** C3. When the multiplier product can be computed ([raw_price] returns),
    [get_price] returns it unchanged on an empty history, and on a non-empty
    history it returns [max(raw, median(history))], which is at least the
    median. *)
Theorem C3_price_at_least_median (e : Pricing.ConcertPricing) (c : string)
    (traffic : Z) (h : list Q) (raw : Q) :
  Pricing.price_history e !! c = Some h →
  Pricing.raw_price e c traffic = Some raw →
  (h = [] → Pricing.get_price e c traffic = Some raw)
  ∧ (h ≠ [] →
     ∃ m, median h = Some m
          ∧ Pricing.get_price e c traffic = Some (fmax raw m)
          ∧ (m <= fmax raw m)%Q).
Proof.
  intros Hh Hraw. unfold Pricing.get_price. rewrite Hraw, Hh. simpl. split.
  - by intros ->.
  - intros Hne. destruct (median_is_Some h Hne) as [m Hm]. exists m.
    split; [done|]. destruct h; [done|]. rewrite Hm. simpl.
    split; [done|apply fmax_ub_r].
Qed.

Lemma C3_price_at_least_median_witness :
  ([8050; 9000; 9500]%Q = [] →
   Pricing.get_price (Demo.with_history [8050; 9000; 9500]%Q) "Coldplay" 50
   = Some 7000.00%Q)
  ∧ ([8050; 9000; 9500]%Q ≠ [] →
     ∃ m, median [8050; 9000; 9500]%Q = Some m
          ∧ Pricing.get_price (Demo.with_history [8050; 9000; 9500]%Q)
              "Coldplay" 50 = Some (fmax 7000.00 m)
          ∧ (m <= fmax 7000.00 m)%Q).
Proof.
  apply (C3_price_at_least_median (Demo.with_history [8050; 9000; 9500]%Q)
           "Coldplay" 50 [8050; 9000; 9500]%Q 7000.00); reflexivity.
Defined.

Example get_price_empty_history :
  Pricing.get_price Demo.pricing "Coldplay" 50 = Some 7000.00%Q
  ∧ Pricing.raw_price Demo.pricing "Coldplay" 50 = Some 7000.00%Q.
Proof. split; reflexivity. Qed.

Example get_price_floored :
  Pricing.get_price (Demo.with_history [8050; 9000; 9500]%Q) "Coldplay" 50
  = Some 9000%Q.
Proof. reflexivity. Qed.

(** ** C7: ticket conservation *)

Lemma sell_ticket_Some (e : Pricing.ConcertPricing) (c : string) (num total sold : Z) :
  Pricing.total_tickets e !! c = Some total →
  Pricing.sold_tickets e !! c = Some sold →
  Pricing.sell_ticket e c num
  = Some (Pricing.set_sold_tickets e
            (<[c := sold + Z.min num (total - sold)]> (Pricing.sold_tickets e))).
Proof. intros Ht Hs. unfold Pricing.sell_ticket. by rewrite Ht, Hs. Qed.

Lemma never_oversold_init (base_prices : list (string * Q))
    (total_tickets concert_dates : gmap string Z) (now : Z) :
  (∀ c total, total_tickets !! c = Some total → 0 ≤ total) →
  never_oversold (Pricing.init base_prices total_tickets concert_dates now).
Proof.
  intros Hpos c total Hc. simpl in *. exists 0.
  rewrite lookup_fmap, Hc. split; [done|]. by eapply Hpos.
Qed.

Lemma never_oversold_step (e : Pricing.ConcertPricing) (op : string * Z) :
  never_oversold e → never_oversold (sell_or_skip e op)
  ∧ Pricing.total_tickets (sell_or_skip e op) = Pricing.total_tickets e.
Proof.
  intros Hinv. destruct op as [c num]. unfold sell_or_skip. simpl.
  destruct (Pricing.total_tickets e !! c) as [total|] eqn:Ht.
  - destruct (Hinv c total Ht) as (sold & Hs & Hle).
    rewrite (sell_ticket_Some e c num total sold Ht Hs). simpl.
    split; [|done]. intros c' total' Hc'. simpl in *.
    destruct (decide (c = c')) as [<-|Hne].
    + rewrite lookup_insert_eq. eexists. split; [done|].
      assert (total' = total) as -> by congruence. lia.
    + rewrite lookup_insert_ne by done. by apply Hinv.
  - unfold Pricing.sell_ticket. rewrite Ht. simpl. done.
Qed.

Lemma never_oversold_sell_all (ops : list (string * Z)) (e : Pricing.ConcertPricing) :
  never_oversold e → never_oversold (sell_all e ops).
Proof.
  revert e. induction ops as [|op ops IH]; intros e Hinv; [done|].
  apply IH. by apply never_oversold_step.
Qed.

(** C7. Starting from a fresh engine (zero sold, non-negative totals), after
    any sequence of [sell_ticket] calls no concert is oversold, and in the
    state reached a call for more tickets than remain does not raise and
    adds exactly the remaining count, selling the concert out. *)
Theorem C7_ticket_conservation (base_prices : list (string * Q))
    (total_tickets concert_dates : gmap string Z) (now : Z)
    (ops : list (string * Z)) :
  (∀ c total, total_tickets !! c = Some total → 0 ≤ total) →
  let e := sell_all (Pricing.init base_prices total_tickets concert_dates now) ops in
  never_oversold e
  ∧ ∀ c total sold num,
      Pricing.total_tickets e !! c = Some total →
      Pricing.sold_tickets e !! c = Some sold →
      total - sold < num →
      ∃ e', Pricing.sell_ticket e c num = Some e'
            ∧ Pricing.sold_tickets e' !! c = Some (sold + (total - sold))
            ∧ Pricing.sold_tickets e' !! c = Some total.
Proof.
  intros Hpos e. split.
  - by apply never_oversold_sell_all, never_oversold_init.
  - intros c total sold num Ht Hs Hnum. eexists.
    split; [by apply sell_ticket_Some|]. simpl. rewrite lookup_insert_eq.
    split; f_equal; lia.
Qed.

Lemma C7_ticket_conservation_witness :
  let e := sell_all Demo.pricing
             [("Coldplay", 5); ("Nobody", 3); ("Coldplay", 2000)] in
  never_oversold e
  ∧ ∀ c total sold num,
      Pricing.total_tickets e !! c = Some total →
      Pricing.sold_tickets e !! c = Some sold →
      total - sold < num →
      ∃ e', Pricing.sell_ticket e c num = Some e'
            ∧ Pricing.sold_tickets e' !! c = Some (sold + (total - sold))
            ∧ Pricing.sold_tickets e' !! c = Some total.
Proof.
  apply (C7_ticket_conservation Demo.base_prices Demo.total_tickets
           Demo.concert_dates 0
           [("Coldplay", 5); ("Nobody", 3); ("Coldplay", 2000)]).
  intros c total. unfold Demo.total_tickets.
  rewrite !lookup_insert_Some, lookup_singleton_Some.
  intros [[_ <-]|[_ [[_ <-]|[_ [_ <-]]]]]; lia.
Defined.

Example sell_ticket_clamps :
  (λ e, Pricing.sold_tickets e !! "Coldplay") <$>
    Pricing.sell_ticket (sell_all Demo.pricing [("Coldplay", 990)]) "Coldplay" 25
  = Some (Some 1000).
Proof. reflexivity. Qed.

(** ** C8: the keyword preference resolver *)

Lemma select_concert_unique (prompt_lower k : string) (concerts : list string) :
  k ∈ concerts →
  contains (lower k) prompt_lower = true →
  (∀ c, c ∈ concerts → c ≠ k → contains (lower c) prompt_lower = false) →
  Pricing.select_concert prompt_lower concerts = Some k.
Proof.
  intros Hk Hhit Hmiss. induction concerts as [|c concerts IH]; simpl.
  - by apply elem_of_nil in Hk.
  - destruct (decide (c = k)) as [->|Hne].
    + by rewrite Hhit.
    + rewrite (Hmiss c) by (done || left). apply IH.
      * apply elem_of_cons in Hk as [->|Hk]; done.
      * intros c' Hc'. apply Hmiss. by right.
Qed.

(** What the second loop leaves in [user_preferences]: every concert of the
    loop has its assigned value, every other key keeps its own. *)
Lemma assign_preferences_lookup (selected : option string)
    (concerts : list string) (prefs : gmap string Z) (c : string) :
  Pricing.assign_preferences selected concerts prefs !! c
  = if decide (c ∈ concerts)
    then Some (if decide (Some c = selected) then Pricing.high_preference
               else Pricing.low_preference)
    else prefs !! c.
Proof.
  unfold Pricing.assign_preferences.
  revert prefs. induction concerts as [|k concerts IH]; intros prefs;
    cbn [fold_left].
  - rewrite decide_False; [done|]. apply not_elem_of_nil.
  - rewrite IH. destruct (decide (c ∈ concerts)) as [Hin|Hnin].
    + rewrite (decide_True (P := c ∈ k :: concerts)); [done|]. by right.
    + destruct (decide (c ∈ k :: concerts)) as [Hin'|Hnin'].
      * apply elem_of_cons in Hin' as [->|?]; [|done].
        case_decide; by rewrite lookup_insert_eq.
      * apply not_elem_of_cons in Hnin' as [? _].
        case_decide; by rewrite lookup_insert_ne.
Qed.

(** C8. When exactly one concert name occurs (case-insensitively) in the
    prompt, [_parse_user_prompt] gives that concert the high value 95 and
    every other concert the low value 40, and an engine that lists the same
    concerts in another order ends with the same preferences. *)
Theorem C8_preference_resolution (e : Pricing.ConcertPricing)
    (prompt k : string) :
  k ∈ Pricing.keys (Pricing.base_prices e) →
  contains (lower k) (lower prompt) = true →
  (∀ c, c ∈ Pricing.keys (Pricing.base_prices e) → c ≠ k →
        contains (lower c) (lower prompt) = false) →
  let e' := Pricing._parse_user_prompt e prompt in
  Pricing.user_preferences e' !! k = Some 95
  ∧ (∀ c, c ∈ Pricing.keys (Pricing.base_prices e) → c ≠ k →
          Pricing.user_preferences e' !! c = Some 40)
  ∧ (∀ e2, Pricing.base_prices e2 ≡ₚ Pricing.base_prices e →
           Pricing.user_preferences e2 = Pricing.user_preferences e →
           Pricing.user_preferences (Pricing._parse_user_prompt e2 prompt)
           = Pricing.user_preferences e').
Proof.
  intros Hk Hhit Hmiss e'.
  pose proof (select_concert_unique _ _ _ Hk Hhit Hmiss) as Hsel.
  subst e'. unfold Pricing._parse_user_prompt. simpl. rewrite Hsel.
  split; [|split].
  - rewrite assign_preferences_lookup, decide_True by done.
    by rewrite decide_True.
  - intros c Hc Hne. rewrite assign_preferences_lookup, decide_True by done.
    rewrite decide_False; [done|]. congruence.
  - intros e2 Hperm Hprefs.
    assert (Pricing.keys (Pricing.base_prices e2)
            ≡ₚ Pricing.keys (Pricing.base_prices e)) as Hkeys.
    { unfold Pricing.keys. by rewrite Hperm. }
    rewrite (select_concert_unique (lower prompt) k).
    + apply map_eq. intros c. rewrite !assign_preferences_lookup, Hprefs.
      destruct (decide (c ∈ Pricing.keys (Pricing.base_prices e))) as [Hin|Hnin].
      * rewrite decide_True; [done|]. by rewrite Hkeys.
      * rewrite decide_False; [done|]. by rewrite Hkeys.
    + by rewrite Hkeys.
    + done.
    + intros c Hc. apply Hmiss. by rewrite <- Hkeys.
Qed.

Lemma C8_preference_resolution_witness :
  let e' := Pricing._parse_user_prompt Demo.pricing "I want COLDPLAY tickets" in
  Pricing.user_preferences e' !! "Coldplay" = Some 95
  ∧ (∀ c, c ∈ Pricing.keys (Pricing.base_prices Demo.pricing) → c ≠ "Coldplay" →
          Pricing.user_preferences e' !! c = Some 40)
  ∧ (∀ e2, Pricing.base_prices e2 ≡ₚ Pricing.base_prices Demo.pricing →
           Pricing.user_preferences e2 = Pricing.user_preferences Demo.pricing →
           Pricing.user_preferences
             (Pricing._parse_user_prompt e2 "I want COLDPLAY tickets")
           = Pricing.user_preferences e').
Proof.
  apply (C8_preference_resolution Demo.pricing "I want COLDPLAY tickets"
           "Coldplay").
  - vm_compute. left.
  - reflexivity.
  - intros c Hc Hne. cbn in Hc.
    rewrite !elem_of_cons, elem_of_nil in Hc.
    destruct Hc as [->|[->|[->|[]]]]; [done|reflexivity|reflexivity].
Defined.

Example parse_user_prompt_demo :
  map_to_list (Pricing.user_preferences
     (Pricing._parse_user_prompt Demo.pricing "two for taylor swift please"))
  ≡ₚ [("Coldplay", 40); ("Arijit Singh", 40); ("Taylor Swift", 95)].
Proof. vm_compute. reflexivity. Qed.

(** ** The day simulator: one concert *)

Lemma randint_nonneg (b raw : Z) : 0 ≤ b → 0 ≤ randint 0 b raw.
Proof. intros H. unfold randint. pose proof (Z.mod_pos_bound raw (b - 0 + 1)). lia. Qed.

Lemma randint_range (a b raw : Z) : a ≤ b → a ≤ randint a b raw ≤ b.
Proof. intros H. unfold randint. pose proof (Z.mod_pos_bound raw (b - a + 1)). lia. Qed.

Section day.
Import Pricing.

Lemma bind_read_Some {A B} (f : ConcertPricing → option A) (k : A → M B)
    (e : ConcertPricing) (a : A) :
  f e = Some a → (read f ≫= k) e = k a e.
Proof. intros H. unfold mbind, M_bind, bind, read. by rewrite H. Qed.

Lemma bind_read_None {A B} (f : ConcertPricing → option A) (k : A → M B)
    (e : ConcertPricing) :
  f e = None → (read f ≫= k) e = (e, None).
Proof. intros H. unfold mbind, M_bind, bind, read. by rewrite H. Qed.

Lemma bind_update_Some {B} (f : ConcertPricing → option ConcertPricing)
    (k : unit → M B) (e e' : ConcertPricing) :
  f e = Some e' → (update f ≫= k) e = k tt e'.
Proof. intros H. unfold mbind, M_bind, bind, update. by rewrite H. Qed.

Lemma get_price_is_Some (e : ConcertPricing) (c : string) (traffic : Z) :
  ready e c → is_Some (get_price e c traffic).
Proof.
  intros ([base Hb] & [d Hd] & (total & Ht & Hne) & [sold Hs] & [h Hh]).
  unfold get_price, raw_price, _time_multiplier, _inventory_multiplier.
  rewrite Hb, Hd, Ht, Hs, Hh. simpl.
  destruct (decide (total = 0)) as [?|_]; [done|]. simpl.
  destruct h as [|x h]; [by eexists|].
  destruct (median_is_Some (x :: h)) as [m ->]; [done|]. by eexists.
Qed.

Lemma get_price_Some_inv (e : ConcertPricing) (c : string) (traffic : Z) (p : Q) :
  get_price e c traffic = Some p →
  ∃ h total sold, price_history e !! c = Some h
                  ∧ total_tickets e !! c = Some total
                  ∧ sold_tickets e !! c = Some sold.
Proof.
  unfold get_price, raw_price, _inventory_multiplier. intros H.
  destruct (dict_get (base_prices e) c); [|done].
  destruct (_time_multiplier e c); [|done].
  destruct (total_tickets e !! c) as [total|]; [|done].
  destruct (sold_tickets e !! c) as [sold|]; [|done].
  simpl in H. case_decide; [done|]. simpl in H.
  destruct (price_history e !! c) as [h|]; [|done].
  by exists h, total, sold.
Qed.

Lemma calculate_reward_is_Some (e : ConcertPricing) (c : string) (h : list Q)
    (p : Q) (nb : Z) :
  price_history e !! c = Some h → 0 ≤ nb + 1 →
  is_Some (calculate_reward e c p nb).
Proof.
  intros Hh Hnb. destruct (decide (h = [])) as [->|Hne].
  { unfold calculate_reward. rewrite Hh. by eexists. }
  destruct (list_min_is_Some h Hne) as [lo Hlo].
  destruct (list_max_is_Some h Hne) as [hi Hhi].
  destruct (Qeq_bool lo hi) eqn:Heq.
  - erewrite Pricing_degenerate by done. by eexists.
  - destruct (locate_bin_Some lo hi p nb Hnb) as (bins & Hb & _).
    erewrite Pricing_spread by done. by eexists.
Qed.

(** The body either raises before it has mutated anything (no traffic
    for [c], or [get_price] raises), or runs to its end. *)
Lemma simulate_concert_cases (web_traffic_dict : gmap string Z) (raw : Z)
    (c : string) (e : ConcertPricing) :
  is_Some (user_preferences e !! c) →
  (simulate_concert web_traffic_dict raw c e = (e, None)
   ∧ ∀ traffic, web_traffic_dict !! c = Some traffic →
                get_price e c traffic = None)
  ∨ (∃ traffic price h total sold entry,
       web_traffic_dict !! c = Some traffic
       ∧ get_price e c traffic = Some price
       ∧ price_history e !! c = Some h
       ∧ total_tickets e !! c = Some total
       ∧ sold_tickets e !! c = Some sold
       ∧ Price entry = price
       ∧ let sold_today := randint 0 (Z.max 1 (traffic `div` 10)) raw in
         let e' := after_concert e c h price
                     (sold + Z.min sold_today (total - sold)) in
         simulate_concert web_traffic_dict raw c e = (e', Some entry)
         ∧ calculate_reward e' c price 5 = Some (Reward entry)
         ∧ Sold_Today entry = sold_today
         ∧ 0 ≤ sold_today).
Proof.
  intros [pref Hpref]. unfold simulate_concert.
  destruct (web_traffic_dict !! c) as [traffic|] eqn:Htr.
  2:{ left. split; [|done]. by rewrite bind_read_None. }
  rewrite (bind_read_Some _ _ _ traffic) by done.
  destruct (get_price e c traffic) as [price|] eqn:Hprice.
  2:{ left. split; [by rewrite bind_read_None|]. by intros ? [= <-]. }
  rewrite (bind_read_Some _ _ _ price) by done.
  destruct (get_price_Some_inv _ _ _ _ Hprice) as (h & total & sold & Hh & Ht & Hs).
  right. exists traffic, price, h, total, sold.
  set (sold_today := randint 0 (Z.max 1 (traffic `div` 10)) raw).
  set (e1 := set_price_history e (<[c := h ++ [price]]> (price_history e))).
  set (e2 := after_concert e c h price (sold + Z.min sold_today (total - sold))).
  assert (price_history e2 !! c = Some (h ++ [price])) as Hh2
    by apply lookup_insert_eq.
  destruct (calculate_reward_is_Some e2 c _ price 5 Hh2) as [reward Hr]; [lia|].
  destruct (median_is_Some (h ++ [price])) as [m Hm]; [by destruct h|].
  set (sold_now := sold + Z.min sold_today (total - sold)) in *.
  exists (mkDayEntry price traffic pref sold_today sold_now
            (total - sold_now) m reward).
  do 6 (split; [done|]). split; [|split; [exact Hr|]].
  2:{ split; [done|]. apply randint_nonneg. lia. }
  rewrite (bind_update_Some _ _ e e1) by (unfold append_price; by rewrite Hh).
  rewrite (bind_update_Some _ _ e1 e2)
    by (cbn beta; by rewrite (sell_ticket_Some e1 c _ total sold Ht Hs)).
  rewrite (bind_read_Some _ _ _ reward) by done.
  rewrite (bind_read_Some _ _ _ pref) by done.
  rewrite (bind_read_Some _ _ _ sold_now) by apply lookup_insert_eq.
  rewrite (bind_read_Some _ _ _ total) by done.
  rewrite (bind_read_Some _ _ _ m) by (by rewrite Hh2).
  reflexivity.
Qed.

(** ** The day simulator: the loop *)

Lemma bind_run {A B} (m : M A) (k : A → M B) (e : ConcertPricing) :
  (m ≫= k) e = match m e with
               | (e', Some a) => k a e'
               | (e', None) => (e', None)
               end.
Proof. reflexivity. Qed.

(** The method reads nothing but the concert's history and preference. *)
Lemma calculate_reward_ext (e1 e2 : ConcertPricing) (c : string) (p : Q) (nb : Z) :
  price_history e1 !! c = price_history e2 !! c →
  user_preferences e1 !! c = user_preferences e2 !! c →
  calculate_reward e1 c p nb = calculate_reward e2 c p nb.
Proof. intros Hh Hp. unfold calculate_reward. by rewrite Hh, Hp. Qed.

(** The price depends on the engine through the concert's own entries. *)
Lemma get_price_ext (e1 e2 : ConcertPricing) (c : string) (traffic : Z) :
  base_prices e1 = base_prices e2 →
  concert_dates e1 = concert_dates e2 →
  current_date e1 = current_date e2 →
  total_tickets e1 = total_tickets e2 →
  user_preferences e1 = user_preferences e2 →
  sold_tickets e1 !! c = sold_tickets e2 !! c →
  price_history e1 !! c = price_history e2 !! c →
  get_price e1 c traffic = get_price e2 c traffic.
Proof.
  intros Hb Hd Hn Ht Hp Hs Hh.
  unfold get_price, raw_price, _time_multiplier, _inventory_multiplier,
    _preference_multiplier.
  by rewrite Hb, Hd, Hn, Ht, Hp, Hs, Hh.
Qed.

Lemma simulate_loop_spec (web_traffic_dict : gmap string Z) (rng : nat → Z)
    (concerts : list string) :
  ∀ (i : nat) (ds0 : gmap string DayEntry) (e : ConcertPricing),
    NoDup concerts →
    (∀ c, c ∈ concerts → is_Some (user_preferences e !! c)) →
    ∃ done rest e' r,
      simulate_loop web_traffic_dict rng i concerts ds0 e = (e', r)
      ∧ concerts = done ++ rest
      ∧ match r with Some _ => rest = [] | None => rest ≠ [] end
      ∧ same_config e e'
      ∧ processed e e' done r
      ∧ untouched e e' done ds0 r.
Proof.
  induction concerts as [|c cs IH]; intros i ds0 e Hnd Hprefs.
  { exists [], [], e, (Some ds0). do 4 (split; [done|]). split.
    - intros c Hc. by apply elem_of_nil in Hc.
    - intros c _. do 2 (split; [done|]). by intros ds [= <-]. }
  apply NoDup_cons in Hnd as [Hc Hnd]. cbn [simulate_loop]. rewrite bind_run.
  destruct (simulate_concert_cases web_traffic_dict (rng i) c e)
    as [[-> _]|(traffic & price & h & total & sold & entry & _ & _ & Hh & Ht & Hs
                & Hprice & Hrun & Hreward & Hsold & Hpos)];
    [apply Hprefs; left|..].
  { exists [], (c :: cs), e, None. do 4 (split; [done|]). split.
    - intros c' Hc'. by apply elem_of_nil in Hc'.
    - intros c' _. done. }
  cbv zeta in Hrun, Hreward, Hsold, Hpos. rewrite Hrun.
  set (n := randint 0 _ _) in *.
  set (e2 := after_concert e c h price _) in *.
  destruct (IH (S i) (<[c := entry]> ds0) e2 Hnd)
    as (done & rest & e' & r & Hloop & -> & Hrest & Hcfg & Hdone & Hother).
  { intros c' Hc'. apply Hprefs. by right. }
  assert (c ∉ done) as Hcd by (intros ?; apply Hc, elem_of_app; by left).
  destruct (Hother c Hcd) as (Hhc & Hsc & Hdsc).
  destruct Hcfg as (Hbp & Htt & Hcd' & Hdate & Hup).
  exists (c :: done), rest, e', r. split; [done|]. split; [done|].
  split; [done|]. split; [done|]. split.
  - intros k [->|Hk]%elem_of_cons.
    + exists h, price, sold, total, n. split; [done|]. split.
      { rewrite Hhc. apply lookup_insert_eq. }
      do 3 (split; [done|]). split.
      { rewrite Hsc. apply lookup_insert_eq. }
      intros ds Hr. exists entry. split; [|do 2 (split; [done|])].
      * rewrite (Hdsc ds Hr). apply lookup_insert_eq.
      * rewrite <- Hreward. apply calculate_reward_ext; [done|by rewrite Hup].
    + destruct (Hdone k Hk) as (h' & p' & sold' & total' & n' & Hh' & Hh''
                                & Hs' & Ht' & Hn' & Hs'' & Hds).
      assert (c ≠ k) as Hne by (by intros ->).
      exists h', p', sold', total', n'. split.
      { rewrite <- Hh'. symmetry. by apply lookup_insert_ne. }
      split; [done|]. split.
      { rewrite <- Hs'. symmetry. by apply lookup_insert_ne. }
      done.
  - intros k [Hne Hk]%not_elem_of_cons.
    destruct (Hother k Hk) as (Hhk & Hsk & Hdsk).
    split; [|split].
    + rewrite Hhk. by apply lookup_insert_ne.
    + rewrite Hsk. by apply lookup_insert_ne.
    + intros ds Hr. rewrite (Hdsk ds Hr). by apply lookup_insert_ne.
Qed.

(** ** The day simulator: the whole call *)

Lemma parse_prefs_is_Some (e : ConcertPricing) (prompt c : string) :
  c ∈ keys (base_prices e) →
  is_Some (user_preferences (_parse_user_prompt e prompt) !! c).
Proof.
  intros Hc. unfold _parse_user_prompt. simpl.
  rewrite assign_preferences_lookup, decide_True by done. by eexists.
Qed.

(** [simulate_purchase] is the loop run after the parser, followed by the
    date advance when the loop has not raised. *)
Lemma simulate_purchase_run (e : ConcertPricing) (prompt : string)
    (web_traffic_dict : gmap string Z) (rng : nat → Z) :
  simulate_purchase e prompt web_traffic_dict rng
  = match simulate_loop web_traffic_dict rng 0 (keys (base_prices e)) ∅
            (_parse_user_prompt e prompt) with
    | (e', Some ds) =>
        (set_current_date e' (current_date e' + microseconds_per_day), Some ds)
    | (e', None) => (e', None)
    end.
Proof.
  unfold simulate_purchase. rewrite bind_run. simpl base_prices.
  by destruct (simulate_loop _ _ _ _ _ _) as [e' [ds|]].
Qed.

(** The effect of one call, whether it returns or raises. *)
Lemma simulate_purchase_spec (e : ConcertPricing) (prompt : string)
    (web_traffic_dict : gmap string Z) (rng : nat → Z) :
  NoDup (keys (base_prices e)) →
  ∃ done rest,
    let res := simulate_purchase e prompt web_traffic_dict rng in
    keys (base_prices e) = done ++ rest
    ∧ user_preferences res.1 = user_preferences (_parse_user_prompt e prompt)
    ∧ processed e res.1 done res.2
    ∧ untouched e res.1 done ∅ res.2
    ∧ match res.2 with
      | Some _ =>
          rest = []
          ∧ current_date res.1 = current_date e + microseconds_per_day
      | None => rest ≠ [] ∧ current_date res.1 = current_date e
      end.
Proof.
  intros Hnd. cbv zeta. rewrite simulate_purchase_run.
  destruct (simulate_loop_spec web_traffic_dict rng (keys (base_prices e)) 0 ∅
              (_parse_user_prompt e prompt) Hnd)
    as (done & rest & e' & r & -> & Hsplit & Hrest & Hcfg & Hdone & Hother).
  { intros c Hc. by apply parse_prefs_is_Some. }
  destruct Hcfg as (_ & _ & _ & Hdate & Hup).
  exists done, rest. destruct r as [ds|]; simpl.
  - do 2 (split; [done|]). split; [|split; [done|by rewrite Hdate]].
    intros c Hc. destruct (Hdone c Hc) as (h & p & sold & total & n & H).
    exists h, p, sold, total, n. simpl in *.
    destruct H as (? & ? & ? & ? & ? & ? & Hds). do 6 (split; [done|]).
    intros ds' Hds'. destruct (Hds ds' Hds') as (entry & ? & ? & ? & Hr).
    exists entry. do 3 (split; [done|]). by rewrite <- Hr.
  - done.
Qed.

(** ** The day simulator: what is kept when the loop stops

    The loop goes through the concerts in order; it stops at the first one
    whose body raises, and what the earlier ones have written stays. *)

Lemma loop_state_step (e0 : ConcertPricing) (web_traffic_dict : gmap string Z)
    (rng : nat → Z) (done : list string) (c : string) (e1 : ConcertPricing)
    (traffic : Z) (price : Q) (h : list Q) (total sold : Z) :
  c ∉ done →
  loop_state e0 web_traffic_dict rng done e1 →
  web_traffic_dict !! c = Some traffic →
  get_price e1 c traffic = Some price →
  price_history e1 !! c = Some h →
  total_tickets e1 !! c = Some total →
  sold_tickets e1 !! c = Some sold →
  loop_state e0 web_traffic_dict rng (done ++ [c])
    (after_concert e1 c h price
       (sold + Z.min (randint 0 (Z.max 1 (traffic `div` 10)) (rng (length done)))
                 (total - sold))).
Proof.
  intros Hc ((Hbp & Htt & Hcd & Hdate & Hup) & Hrest & Hdone) Htr Hprice Hh Ht Hs.
  destruct (Hrest c Hc) as [Hh0 Hs0].
  split; [done|]. split.
  - intros k Hk. apply not_elem_of_app in Hk as [Hk Hne].
    apply not_elem_of_cons in Hne as [Hne _].
    destruct (Hrest k Hk) as [? ?]. simpl. by rewrite !lookup_insert_ne.
  - intros i k Hik. apply lookup_snoc_Some in Hik as [[Hlt Hik]|[-> <-]].
    + assert (c ≠ k) as Hne
        by (intros ->; apply Hc; by eapply list_elem_of_lookup_2).
      destruct (Hdone i k Hik)
        as (traffic' & h' & total' & sold' & p' & ? & ? & ? & ? & ? & ? & ?).
      exists traffic', h', total', sold', p'. simpl.
      rewrite !lookup_insert_ne by done. done.
    + exists traffic, h, total, sold, price.
      split; [done|]. split; [by rewrite <- Hh0|].
      split; [by rewrite <- Htt|]. split; [by rewrite <- Hs0|]. split.
      { rewrite <- Hprice. by apply get_price_ext. }
      simpl. by rewrite !lookup_insert_eq.
Qed.

Lemma simulate_loop_commits (e0 : ConcertPricing)
    (web_traffic_dict : gmap string Z) (rng : nat → Z) (concerts : list string) :
  ∀ (done : list string) (e1 : ConcertPricing) (ds1 : gmap string DayEntry)
    (e' : ConcertPricing) (r : option (gmap string DayEntry)),
    NoDup (done ++ concerts) →
    (∀ c, c ∈ concerts → is_Some (user_preferences e0 !! c)) →
    loop_state e0 web_traffic_dict rng done e1 →
    simulate_loop web_traffic_dict rng (length done) concerts ds1 e1 = (e', r) →
    ∃ done' rest,
      concerts = done' ++ rest
      ∧ loop_state e0 web_traffic_dict rng (done ++ done') e'
      ∧ match r with
        | Some _ => rest = []
        | None => ∃ c rest', rest = c :: rest' ∧ raises_at e0 web_traffic_dict c
        end.
Proof.
  induction concerts as [|c cs IH]; intros done e1 ds1 e' r Hnd Hprefs Hst.
  { cbn. intros [= <- <-]. exists [], []. by rewrite (app_nil_r done). }
  cbn [simulate_loop]. rewrite bind_run.
  assert (c ∉ done) as Hc.
  { apply NoDup_app in Hnd as (_ & Hnd & _). intros Hin. apply (Hnd c Hin). left. }
  pose proof Hst as ((Hbp & Htt & Hcd & Hdate & Hup) & Hrest & _).
  destruct (Hrest c Hc) as [Hh0 Hs0].
  destruct (simulate_concert_cases web_traffic_dict (rng (length done)) c e1)
    as [[-> Hfail]|(traffic & price & h & total & sold & entry & Htr & Hprice & Hh
                    & Ht & Hs & _ & Hrun & _)].
  { rewrite Hup. apply Hprefs. left. }
  { intros [= <- <-]. exists [], (c :: cs). rewrite (app_nil_r done).
    do 2 (split; [done|]). exists c, cs. split; [done|]. unfold raises_at.
    destruct (web_traffic_dict !! c) as [traffic|] eqn:Htr; [|done]. simpl.
    rewrite <- (Hfail traffic eq_refl). by apply get_price_ext. }
  cbv zeta in Hrun. rewrite Hrun. intros Hloop.
  pose proof (loop_state_step e0 web_traffic_dict rng done c e1 traffic price h
                total sold Hc Hst Htr Hprice Hh Ht Hs) as Hst'.
  assert (length (done ++ [c]) = S (length done)) as Hlen
    by (rewrite length_app; simpl; lia).
  rewrite <- Hlen in Hloop.
  edestruct (IH (done ++ [c])) as (done' & rest & -> & Hst'' & Hr);
    [| |exact Hst'|exact Hloop|].
  { by rewrite <- app_assoc. }
  { intros k Hk. apply Hprefs. by right. }
  exists (c :: done'), rest. split; [done|].
  rewrite <- app_assoc in Hst''. done.
Qed.

Lemma simulate_purchase_commits (e : ConcertPricing) (prompt : string)
    (web_traffic_dict : gmap string Z) (rng : nat → Z) :
  NoDup (keys (base_prices e)) →
  let e0 := _parse_user_prompt e prompt in
  let res := simulate_purchase e prompt web_traffic_dict rng in
  ∃ done rest,
    keys (base_prices e) = done ++ rest
    ∧ (∀ i c, done !! i = Some c →
              committed e0 web_traffic_dict (rng i) res.1 c)
    ∧ (∀ c, c ∉ done →
            price_history res.1 !! c = price_history e !! c
            ∧ sold_tickets res.1 !! c = sold_tickets e !! c)
    ∧ match res.2 with
      | Some _ => rest = []
      | None => ∃ c rest', rest = c :: rest' ∧ raises_at e0 web_traffic_dict c
      end.
Proof.
  intros Hnd e0 res. subst res. rewrite simulate_purchase_run. fold e0.
  destruct (simulate_loop web_traffic_dict rng 0 (keys (base_prices e)) ∅ e0)
    as [e' r] eqn:Hloop.
  destruct (simulate_loop_commits e0 web_traffic_dict rng (keys (base_prices e))
              [] e0 ∅ e' r) as (dn & rest & Hsplit & Hst & Hr); [done| | |done|].
  { intros c Hc. by apply parse_prefs_is_Some. }
  { split; [done|]. split; [done|]. intros i c Hi. done. }
  simpl in Hst. destruct Hst as (_ & Hrest & Hdone).
  exists dn, rest. split; [done|].
  destruct r as [ds|]; simpl; (split; [exact Hdone|split; [exact Hrest|exact Hr]]).
Qed.

(** C6 (as amended). [simulate_purchase] is not all-or-nothing. The
    preferences are reset by the prompt parser in every case. When the
    call returns, every tracked concert has its price appended and its
    sales applied, and [current_date] is one day later. When it raises,
    it does so at the first concert [c], in iteration order, that has no
    traffic entry or for which [get_price] raises; [current_date] is not
    advanced and [c] and the later concerts are untouched, but every
    concert iterated before [c] keeps the price [get_price] gave it,
    appended to its history, and the tickets drawn for it, added to its
    sold count: nothing is rolled back. *)
Theorem C6_day_not_atomic (e : ConcertPricing) (prompt : string)
    (web_traffic_dict : gmap string Z) (rng : nat → Z) :
  NoDup (keys (base_prices e)) →
  let e0 := _parse_user_prompt e prompt in
  let res := simulate_purchase e prompt web_traffic_dict rng in
  let e' := res.1 in
  user_preferences e' = user_preferences e0
  ∧ match res.2 with
    | Some ds =>
        current_date e' = current_date e + microseconds_per_day
        ∧ processed e e' (keys (base_prices e)) (Some ds)
        ∧ ∀ i c, keys (base_prices e) !! i = Some c →
            committed e0 web_traffic_dict (rng i) e' c
    | None =>
        current_date e' = current_date e
        ∧ ∃ done c rest,
            keys (base_prices e) = done ++ c :: rest
            ∧ raises_at e0 web_traffic_dict c
            ∧ (∀ i k, done !! i = Some k →
                 committed e0 web_traffic_dict (rng i) e' k)
            ∧ processed e e' done None
            ∧ untouched e e' done ∅ None
    end.
Proof.
  intros Hnd e0 res e'. subst e'.
  destruct (simulate_purchase_spec e prompt web_traffic_dict rng Hnd)
    as (done & rest & H).
  destruct (simulate_purchase_commits e prompt web_traffic_dict rng Hnd)
    as (done' & rest' & H').
  cbv zeta in H, H'. fold e0 res in H, H'.
  destruct H as (Hsplit & Hup & Hdone & Hother & Hres).
  destruct H' as (Hsplit' & Hcommit & Hrest' & Hres').
  split; [done|].
  destruct res.2 as [ds|].
  - destruct Hres as [-> Hdate]. rewrite app_nil_r in Hsplit. subst done.
    subst rest'. rewrite app_nil_r in Hsplit'. subst done'. done.
  - destruct Hres as [_ Hdate]. split; [done|].
    destruct Hres' as (c & rest'' & -> & Hraise).
    exists done', c, rest''. do 3 (split; [done|]). split.
    + intros k Hk. apply list_elem_of_lookup_1 in Hk as [i Hi].
      destruct (Hcommit i k Hi)
        as (traffic & h & total & sold & p & _ & Hh & Ht & Hs & _ & Hh' & Hs').
      exists h, p, sold, total, (randint 0 (Z.max 1 (traffic `div` 10)) (rng i)).
      do 4 (split; [done|]). split; [apply randint_nonneg; lia|]. done.
    + intros k Hk. destruct (Hrest' k Hk) as [? ?]. done.
Qed.

Lemma Demo_keys_NoDup : NoDup (keys (base_prices Demo.pricing)).
Proof. apply (bool_decide_unpack _). vm_compute. exact I. Qed.

Lemma C6_day_not_atomic_witness :
  let e0 := _parse_user_prompt Demo.pricing "I want Coldplay" in
  let res := simulate_purchase Demo.pricing "I want Coldplay"
               Demo.web_traffic_missing (λ _, 7) in
  let e' := res.1 in
  user_preferences e' = user_preferences e0
  ∧ match res.2 with
    | Some ds =>
        current_date e' = current_date Demo.pricing + microseconds_per_day
        ∧ processed Demo.pricing e' (keys (base_prices Demo.pricing)) (Some ds)
        ∧ ∀ i c, keys (base_prices Demo.pricing) !! i = Some c →
            committed e0 Demo.web_traffic_missing 7 e' c
    | None =>
        current_date e' = current_date Demo.pricing
        ∧ ∃ done c rest,
            keys (base_prices Demo.pricing) = done ++ c :: rest
            ∧ raises_at e0 Demo.web_traffic_missing c
            ∧ (∀ i k, done !! i = Some k →
                 committed e0 Demo.web_traffic_missing 7 e' k)
            ∧ processed Demo.pricing e' done None
            ∧ untouched Demo.pricing e' done ∅ None
    end.
Proof.
  apply (C6_day_not_atomic Demo.pricing "I want Coldplay"
           Demo.web_traffic_missing (λ _, 7)).
  apply (bool_decide_unpack _). vm_compute. exact I.
Defined.

(** C6 fails as stated: with no traffic entry for the second concert the
    call raises, yet the first concert has a price appended and a ticket
    sold, and the preferences have been reset. *)
Lemma C6_counterexample :
  let res := simulate_purchase Demo.pricing "I want Coldplay"
               Demo.web_traffic_missing (λ _, 7) in
  res.2 = None
  ∧ price_history Demo.pricing !! "Coldplay" = Some []
  ∧ map Qred <$> price_history res.1 !! "Coldplay" = Some [8050%Q]
  ∧ sold_tickets Demo.pricing !! "Coldplay" = Some 0
  ∧ sold_tickets res.1 !! "Coldplay" = Some 1
  ∧ user_preferences Demo.pricing !! "Coldplay" = Some 50
  ∧ user_preferences res.1 !! "Coldplay" = Some 95
  ∧ current_date res.1 = current_date Demo.pricing.
Proof. repeat split; reflexivity. Qed.

(** The same day with the full traffic dictionary. *)
Example simulate_purchase_demo :
  let res := simulate_purchase Demo.pricing "I want Coldplay"
               Demo.web_traffic (λ _, 7) in
  (λ ds, (λ kv, (kv.1, Qred (Price kv.2))) <$> map_to_list ds) <$> res.2
  = Some [("Coldplay", 8050%Q); ("Arijit Singh", 5400%Q); ("Taylor Swift", 7695%Q)]
  ∧ current_date res.1 = microseconds_per_day.
Proof. split; reflexivity. Qed.

(** ** C10: the first day of a fresh engine *)

Lemma ready_after_concert (e : ConcertPricing) (c k : string) (h : list Q)
    (price : Q) (sold_now : Z) :
  ready e k → ready (after_concert e c h price sold_now) k.
Proof.
  intros (Hb & Hd & Ht & Hs & Hh). repeat split; try done; simpl.
  - destruct (decide (c = k)) as [->|Hne].
    + rewrite lookup_insert_eq. by eexists.
    + by rewrite lookup_insert_ne.
  - destruct (decide (c = k)) as [->|Hne].
    + rewrite lookup_insert_eq. by eexists.
    + by rewrite lookup_insert_ne.
Qed.

(** With every concert ready and present in the traffic dictionary the
    loop does not raise. *)
Lemma simulate_loop_succeeds (web_traffic_dict : gmap string Z) (rng : nat → Z)
    (concerts : list string) :
  ∀ (i : nat) (ds0 : gmap string DayEntry) (e : ConcertPricing),
    (∀ c, c ∈ concerts →
          ready e c ∧ is_Some (user_preferences e !! c)
          ∧ is_Some (web_traffic_dict !! c)) →
    ∃ e' ds, simulate_loop web_traffic_dict rng i concerts ds0 e = (e', Some ds).
Proof.
  induction concerts as [|c cs IH]; intros i ds0 e Hready.
  { by exists e, ds0. }
  destruct (Hready c) as (Hc & Hpref & [traffic Htr]); [left|].
  cbn [simulate_loop]. rewrite bind_run.
  destruct (simulate_concert_cases web_traffic_dict (rng i) c e Hpref)
    as [[_ Hfail]|(? & price & h & total & sold & entry & _ & _ & _ & _ & _
                   & _ & Hrun & _)].
  { destruct (get_price_is_Some e c traffic Hc) as [p Hp].
    rewrite (Hfail traffic Htr) in Hp. done. }
  cbv zeta in Hrun. rewrite Hrun. apply IH.
  intros k Hk. destruct (Hready k) as (Hrk & Hpk & Htk); [by right|].
  split; [by apply ready_after_concert|]. done.
Qed.

Lemma dict_get_is_Some {V} (d : list (string * V)) (c : string) :
  c ∈ keys d → is_Some (dict_get d c).
Proof.
  unfold keys. induction d as [|[k v] d IH]; simpl.
  - by intros ?%elem_of_nil.
  - intros Hc. case_decide; [by eexists|]. apply IH.
    apply elem_of_cons in Hc as [->|Hc]; done.
Qed.

(** In a fresh engine the history of every tracked concert is empty. *)
Lemma init_price_history (base_prices : list (string * Q))
    (total_tickets concert_dates : gmap string Z) (now : Z) (c : string) :
  c ∈ keys base_prices →
  price_history (init base_prices total_tickets concert_dates now) !! c
  = Some [].
Proof.
  intros Hc. simpl.
  destruct (list_to_map (M := gmap string (list Q))
              ((λ c, (c, [])) <$> keys base_prices) !! c) as [h|] eqn:E.
  - apply elem_of_list_to_map_2 in E.
    apply list_elem_of_fmap in E as (k & [= -> ->] & _). done.
  - apply not_elem_of_list_to_map in E. exfalso. apply E.
    rewrite <- list_fmap_compose. simpl.
    by rewrite list_fmap_id.
Qed.

(** A one-price history is degenerate. *)
Lemma calculate_reward_single (e : ConcertPricing) (c : string) (p q : Q) (nb : Z) :
  price_history e !! c = Some [p] →
  calculate_reward e c q nb = Some (inject_Z (nb - 1)).
Proof.
  intros Hh. eapply Pricing_degenerate; [done|reflexivity|reflexivity|].
  apply Qeq_bool_iff. reflexivity.
Qed.

(** C10. On a freshly constructed engine the first [simulate_purchase]
    returns a snapshot as soon as every tracked concert has a non-zero
    inventory, a date and a traffic entry; and whenever it returns a
    snapshot, that snapshot has an entry for every tracked concert and
    every recorded [Reward] is [num_bins - 1 = 4], whatever the prompt,
    the traffic and the random draws. *)
Theorem C10_first_day_rewards (prices : list (string * Q))
    (totals dates : gmap string Z) (now : Z) (prompt : string)
    (web_traffic_dict : gmap string Z) (rng : nat → Z) :
  NoDup (keys prices) →
  let res := simulate_purchase
               (init prices totals dates now)
               prompt web_traffic_dict rng in
  ((∀ c, c ∈ keys prices →
         (∃ total, totals !! c = Some total ∧ total ≠ 0)
         ∧ is_Some (dates !! c)
         ∧ is_Some (web_traffic_dict !! c)) →
   is_Some res.2)
  ∧ ∀ ds, res.2 = Some ds →
      (∀ c, c ∈ keys prices → is_Some (ds !! c))
      ∧ (∀ c entry, ds !! c = Some entry →
                    Reward entry = inject_Z (default_num_bins - 1)).
Proof.
  intros Hnd res. set (e0 := init prices totals dates now).
  split.
  - intros Hwf. subst res. fold e0. rewrite simulate_purchase_run.
    change (base_prices e0) with prices.
    destruct (simulate_loop_succeeds web_traffic_dict rng (keys prices) 0 ∅
                (_parse_user_prompt e0 prompt)) as (e' & ds & ->); [|by eexists].
    intros c Hc. destruct (Hwf c Hc) as ((total & Ht & Hne) & Hd & Htr).
    split; [|split; [by apply parse_prefs_is_Some|done]].
    split; [by apply dict_get_is_Some|]. split; [done|].
    split; [by exists total|]. split.
    + simpl. rewrite lookup_fmap, Ht. by eexists.
    + change (price_history (_parse_user_prompt e0 prompt))
        with (price_history e0).
      unfold e0. rewrite init_price_history by done. by eexists.
  - intros ds Hds. subst res. fold e0 in Hds.
    destruct (simulate_purchase_spec e0 prompt web_traffic_dict rng Hnd)
      as (done & rest & H).
    cbv zeta in H. rewrite Hds in H.
    destruct H as (Hsplit & _ & Hdone & Hother & -> & _).
    rewrite app_nil_r in Hsplit. simpl in Hsplit. subst done.
    assert (∀ c, c ∈ keys prices →
              ∃ entry, ds !! c = Some entry
                       ∧ Reward entry = inject_Z (default_num_bins - 1)) as Hin.
    { intros c Hc.
      destruct (Hdone c Hc) as (h & p & sold & total & n & Hh & Hh' & _ & _
                                & _ & _ & Hentry).
      destruct (Hentry ds eq_refl) as (entry & Hlook & _ & _ & Hr).
      exists entry. split; [done|].
      unfold e0 in Hh. rewrite init_price_history in Hh by done.
      injection Hh as <-. simpl app in Hh'.
      rewrite (calculate_reward_single _ _ p p 5 Hh') in Hr. by injection Hr. }
    split.
    + intros c Hc. destruct (Hin c Hc) as (entry & -> & _). by eexists.
    + intros c entry Hlook.
      destruct (decide (c ∈ keys prices)) as [Hc|Hc].
      * destruct (Hin c Hc) as (entry' & Hlook' & Hr). congruence.
      * destruct (Hother c Hc) as (_ & _ & Hnone).
        rewrite (Hnone ds eq_refl) in Hlook. done.
Qed.

Lemma C10_first_day_rewards_witness :
  let res := simulate_purchase
               (init Demo.base_prices Demo.total_tickets Demo.concert_dates 0)
               "cheapest please" Demo.web_traffic (λ i, 13 * Z.of_nat i) in
  ((∀ c, c ∈ keys Demo.base_prices →
         (∃ total, Demo.total_tickets !! c = Some total ∧ total ≠ 0)
         ∧ is_Some (Demo.concert_dates !! c)
         ∧ is_Some (Demo.web_traffic !! c)) →
   is_Some res.2)
  ∧ ∀ ds, res.2 = Some ds →
      (∀ c, c ∈ keys Demo.base_prices → is_Some (ds !! c))
      ∧ (∀ c entry, ds !! c = Some entry →
                    Reward entry = inject_Z (default_num_bins - 1)).
Proof.
  apply (C10_first_day_rewards Demo.base_prices Demo.total_tickets
           Demo.concert_dates 0 "cheapest please" Demo.web_traffic
           (λ i, 13 * Z.of_nat i)).
  exact Demo_keys_NoDup.
Defined.

Example first_day_rewards_demo :
  let res := simulate_purchase Demo.pricing "cheapest please"
               Demo.web_traffic (λ i, 13 * Z.of_nat i) in
  (λ ds, (λ kv, (kv.1, Reward kv.2, Sold_Today kv.2)) <$> map_to_list ds)
    <$> res.2
  = Some [("Coldplay", 4%Q, 0); ("Arijit Singh", 4%Q, 4);
          ("Taylor Swift", 4%Q, 2)].
Proof. reflexivity. Qed.

End day.

(** * Further properties of the reward scorers *)

(** ** Comparisons see the value of a fraction only *)

Lemma Qltb_compat (a a' b b' : Q) :
  (a == a')%Q → (b == b')%Q → Qltb a b = Qltb a' b'.
Proof.
  intros Ha Hb. destruct (Qltb a' b') eqn:E.
  - apply Qltb_true in E. apply Qltb_true. by rewrite Ha, Hb.
  - apply Qltb_false in E. apply Qltb_false. by rewrite Ha, Hb.
Qed.

Lemma digitize_compat (x y : Q) (bins : list Q) :
  (x == y)%Q → digitize x bins = digitize y bins.
Proof.
  intros H. induction bins as [|b bins IH]; simpl; [done|].
  by rewrite (Qltb_compat b b x y), IH.
Qed.

Lemma clip_below (p lo hi : Q) :
  (p <= lo)%Q → (clip p lo hi == clip lo lo hi)%Q.
Proof.
  intros H. unfold clip, fmax.
  destruct (Qltb p lo) eqn:E1; [apply Qltb_true in E1|apply Qltb_false in E1];
    (destruct (Qltb lo lo) eqn:E2;
       [apply Qltb_true in E2|apply Qltb_false in E2]);
    unfold fmin; repeat case_Qltb; lra.
Qed.

Lemma clip_above (p lo hi : Q) :
  (hi <= p)%Q → (clip p lo hi == clip hi lo hi)%Q.
Proof.
  intros H. unfold clip, fmax.
  destruct (Qltb p lo) eqn:E1; [apply Qltb_true in E1|apply Qltb_false in E1];
    (destruct (Qltb hi lo) eqn:E2;
       [apply Qltb_true in E2|apply Qltb_false in E2]);
    unfold fmin; repeat case_Qltb; lra.
Qed.

Lemma locate_bin_compat (lo hi p q : Q) (nb : Z) :
  (clip p lo hi == clip q lo hi)%Q →
  locate_bin lo hi p nb = locate_bin lo hi q nb.
Proof.
  intros H. unfold locate_bin. destruct (linspace lo hi (nb + 1)); [|done].
  simpl. by rewrite (digitize_compat _ _ _ H).
Qed.

(** Both scorers read the purchased price through [locate_bin] only. *)
Lemma calculate_reward_locate (e : Pricing.ConcertPricing) (c : string)
    (h : list Q) (lo hi p q : Q) (pref nb : Z) (thr : Q) :
  list_min h = Some lo → list_max h = Some hi →
  Pricing.price_history e !! c = Some h →
  locate_bin lo hi p nb = locate_bin lo hi q nb →
  RewardFunc.calculate_reward h p pref nb thr
  = RewardFunc.calculate_reward h q pref nb thr
  ∧ Pricing.calculate_reward e c p nb = Pricing.calculate_reward e c q nb.
Proof.
  intros Hlo Hhi Hh Hloc.
  unfold RewardFunc.calculate_reward, Pricing.calculate_reward.
  rewrite Hh. simpl. destruct h as [|x h]; [done|].
  rewrite Hlo, Hhi. simpl. destruct (Qeq_bool lo hi); [done|].
  by rewrite Hloc.
Qed.

(** A purchased price at or below the historical minimum is scored as the
    minimum, one at or above the maximum as the maximum, by both scorers. *)
Theorem X1_reward_clips (e : Pricing.ConcertPricing) (c : string)
    (h : list Q) (lo hi p : Q) (pref nb : Z) (thr : Q) :
  list_min h = Some lo → list_max h = Some hi →
  Pricing.price_history e !! c = Some h →
  ((p <= lo)%Q →
   RewardFunc.calculate_reward h p pref nb thr
   = RewardFunc.calculate_reward h lo pref nb thr
   ∧ Pricing.calculate_reward e c p nb = Pricing.calculate_reward e c lo nb)
  ∧ ((hi <= p)%Q →
     RewardFunc.calculate_reward h p pref nb thr
     = RewardFunc.calculate_reward h hi pref nb thr
     ∧ Pricing.calculate_reward e c p nb = Pricing.calculate_reward e c hi nb).
Proof.
  intros Hlo Hhi Hh. split; intros Hp;
    eapply calculate_reward_locate; try done;
    apply locate_bin_compat; first [by apply clip_below | by apply clip_above].
Qed.

Lemma X1_reward_clips_witness :
  ((50 <= 100)%Q →
   RewardFunc.calculate_reward [100; 200; 150]%Q 50 80 5 2
   = RewardFunc.calculate_reward [100; 200; 150]%Q 100 80 5 2
   ∧ Pricing.calculate_reward (Demo.with_history [100; 200; 150]%Q) "Coldplay" 50 5
     = Pricing.calculate_reward (Demo.with_history [100; 200; 150]%Q) "Coldplay" 100 5)
  ∧ ((200 <= 50)%Q →
     RewardFunc.calculate_reward [100; 200; 150]%Q 50 80 5 2
     = RewardFunc.calculate_reward [100; 200; 150]%Q 200 80 5 2
     ∧ Pricing.calculate_reward (Demo.with_history [100; 200; 150]%Q) "Coldplay" 50 5
       = Pricing.calculate_reward (Demo.with_history [100; 200; 150]%Q) "Coldplay" 200 5).
Proof.
  apply (X1_reward_clips (Demo.with_history [100; 200; 150]%Q) "Coldplay"
           [100; 200; 150]%Q 100 200 50 80 5 2); reflexivity.
Defined.

(** ** The minimum and the maximum of a history *)

Lemma fold_fmin_le (l : list Q) :
  ∀ x y, y ∈ x :: l → (fold_left fmin l x <= y)%Q.
Proof.
  induction l as [|z l IH]; intros x y Hy; simpl.
  - apply list_elem_of_singleton in Hy as ->. lra.
  - assert (fmin x z <= x)%Q by apply fmin_lb_l.
    assert (fmin x z <= z)%Q by apply fmin_lb_r.
    pose proof (IH (fmin x z) (fmin x z) ltac:(left)).
    apply elem_of_cons in Hy as [->|[->|Hy]%elem_of_cons]; [lra|lra|].
    apply IH. by right.
Qed.

Lemma fold_fmax_ge (l : list Q) :
  ∀ x y, y ∈ x :: l → (y <= fold_left fmax l x)%Q.
Proof.
  induction l as [|z l IH]; intros x y Hy; simpl.
  - apply list_elem_of_singleton in Hy as ->. lra.
  - assert (x <= fmax x z)%Q by apply fmax_ub_l.
    assert (z <= fmax x z)%Q by apply fmax_ub_r.
    pose proof (IH (fmax x z) (fmax x z) ltac:(left)).
    apply elem_of_cons in Hy as [->|[->|Hy]%elem_of_cons]; [lra|lra|].
    apply IH. by right.
Qed.

(** Every price of the history lies between its minimum and its maximum. *)
Lemma list_min_max_bounds (h : list Q) (lo hi x : Q) :
  list_min h = Some lo → list_max h = Some hi → x ∈ h → (lo <= x <= hi)%Q.
Proof.
  destruct h as [|x0 h]; [done|]. intros [= <-] [= <-] Hx.
  split; [by apply fold_fmin_le|by apply fold_fmax_ge].
Qed.

Lemma list_min_le_max (h : list Q) (lo hi : Q) :
  list_min h = Some lo → list_max h = Some hi → (lo <= hi)%Q.
Proof.
  intros Hlo Hhi. destruct h as [|x0 h]; [done|].
  destruct (list_min_max_bounds (x0 :: h) lo hi x0 Hlo Hhi); [left|lra].
Qed.

Lemma spread_lt (h : list Q) (lo hi : Q) :
  list_min h = Some lo → list_max h = Some hi → Qeq_bool lo hi = false →
  (lo < hi)%Q.
Proof.
  intros Hlo Hhi Hne. pose proof (list_min_le_max h lo hi Hlo Hhi) as Hle.
  apply Qeq_bool_neq in Hne. apply Qle_lteq in Hle as [?|?]; done.
Qed.

(** ** The edges built by [np.linspace] *)

Lemma linspace_edges (lo hi : Q) (nb : Z) :
  1 ≤ nb →
  linspace lo hi (nb + 1)
  = Some (((λ i : nat, (inject_Z (Z.of_nat i) * ((hi - lo) / inject_Z nb) + lo)%Q)
             <$> seq 0 (Z.to_nat nb)) ++ [hi]).
Proof.
  intros H. unfold linspace. destruct (decide (nb + 1 < 0)); [lia|].
  rewrite decide_True by lia. replace (nb + 1 - 1) with nb by lia.
  replace (Z.to_nat (nb + 1)) with (S (Z.to_nat nb)) by lia.
  replace (S (Z.to_nat nb) - 1)%nat with (Z.to_nat nb) by lia.
  change map with (@fmap list _). rewrite <- fmap_take, take_seq.
  by rewrite Nat.min_l by lia.
Qed.

Lemma edge_increasing (lo hi : Q) (nb : Z) (i j : nat) :
  (lo < hi)%Q → 1 ≤ nb → (i < j)%nat →
  (inject_Z (Z.of_nat i) * ((hi - lo) / inject_Z nb) + lo
   < inject_Z (Z.of_nat j) * ((hi - lo) / inject_Z nb) + lo)%Q.
Proof.
  intros Hlt Hnb Hij.
  assert (0 < (hi - lo) / inject_Z nb)%Q as Hstep.
  { apply Qlt_shift_div_l.
    - change 0%Q with (inject_Z 0). rewrite <- Zlt_Qlt. lia.
    - lra. }
  assert (inject_Z (Z.of_nat i) < inject_Z (Z.of_nat j))%Q as Hinj
    by (rewrite <- Zlt_Qlt; lia).
  pose proof (Qmult_lt_compat_r _ _ _ Hstep Hinj) as Hmul.
  set (s := ((hi - lo) / inject_Z nb)%Q) in *.
  set (a := (inject_Z (Z.of_nat i) * s)%Q) in *.
  set (b := (inject_Z (Z.of_nat j) * s)%Q) in *. lra.
Qed.

Lemma edge_last (lo hi : Q) (nb : Z) :
  1 ≤ nb →
  (inject_Z (Z.of_nat (Z.to_nat nb)) * ((hi - lo) / inject_Z nb) + lo == hi)%Q.
Proof.
  intros Hnb. rewrite Z2Nat.id by lia. field.
  intros H0. unfold Qeq in H0. simpl in H0. lia.
Qed.

(** For [lo < hi] the edges are strictly increasing. *)
Lemma linspace_increasing (lo hi : Q) (nb : Z) (bins : list Q) :
  (lo < hi)%Q → 1 ≤ nb →
  linspace lo hi (nb + 1) = Some bins →
  ∀ i j x y, bins !! i = Some x → bins !! j = Some y → (i < j)%nat → (x < y)%Q.
Proof.
  intros Hlt Hnb. rewrite linspace_edges by done. intros [= <-] i j x y Hi Hj Hij.
  set (f := λ i : nat, (inject_Z (Z.of_nat i) * ((hi - lo) / inject_Z nb) + lo)%Q) in *.
  assert (∀ k z, (f <$> seq 0 (Z.to_nat nb)) !! k = Some z →
                 z = f k ∧ (k < Z.to_nat nb)%nat) as Hin.
  { intros k z. rewrite list_lookup_fmap. intros Hk.
    apply fmap_Some in Hk as (k' & [-> ?]%lookup_seq & ->). done. }
  assert (length (f <$> seq 0 (Z.to_nat nb)) = Z.to_nat nb) as Hlen
    by (by rewrite length_fmap, length_seq).
  apply lookup_snoc_Some in Hi as [[Hi1 Hi2]|[Hi1 <-]];
    apply lookup_snoc_Some in Hj as [[Hj1 Hj2]|[Hj1 <-]]; try lia.
  - apply Hin in Hi2 as [-> _]. apply Hin in Hj2 as [-> _].
    by apply edge_increasing.
  - apply Hin in Hi2 as [-> Hi2]. rewrite <- (edge_last lo hi nb Hnb).
    by apply edge_increasing.
Qed.

(** [np.digitize] with [right=True]: the edges before the returned index
    are below the price, the edge at the index is not. *)
Lemma digitize_spec (x : Q) (bins : list Q) :
  ∃ n : nat,
    digitize x bins = Z.of_nat n
    ∧ (n ≤ length bins)%nat
    ∧ (∀ i b, (i < n)%nat → bins !! i = Some b → (b < x)%Q)
    ∧ (∀ b, bins !! n = Some b → (x <= b)%Q).
Proof.
  induction bins as [|b0 bins (n & Hn & Hlen & Hlow & Hup)]; simpl.
  - exists 0%nat. repeat split; [lia | intros; lia | done].
  - case_Qltb.
    + exists (S n). rewrite Hn. split; [lia|]. split; [simpl; lia|]. split.
      * intros [|i] b Hi Hb; simpl in Hb; [by injection Hb as <-|].
        eapply Hlow; [|done]. lia.
      * intros b Hb. simpl in Hb. by apply Hup.
    + exists 0%nat. split; [done|]. split; [lia|]. split; [intros; lia|].
      intros b [= <-]. done.
Qed.

Lemma clip_ge_lo (x lo hi : Q) : (lo <= hi)%Q → (lo <= clip x lo hi)%Q.
Proof.
  intros H. unfold clip. pose proof (fmax_ub_r x lo).
  unfold fmin. case_Qltb; lra.
Qed.

(** ** The triple returned by the standalone scorer *)

(** On a history with a spread and [num_bins >= 1] the standalone scorer
    returns a bin index in [1 .. num_bins] and [num_bins + 1] strictly
    increasing edges, and the edges of the returned bin enclose the clipped
    purchased price. *)
Theorem X2_standalone_result_well_formed (h : list Q) (lo hi p : Q)
    (pref nb : Z) (thr : Q) :
  list_min h = Some lo → list_max h = Some hi → ¬ (lo == hi)%Q → 1 ≤ nb →
  ∃ r b bins edge_lo edge_hi,
    RewardFunc.calculate_reward h p pref nb thr = Some (r, Some b, bins)
    ∧ 1 ≤ b ≤ nb
    ∧ length bins = Z.to_nat (nb + 1)
    ∧ (∀ i j x y, bins !! i = Some x → bins !! j = Some y → (i < j)%nat →
                  (x < y)%Q)
    ∧ bins !! Z.to_nat (b - 1) = Some edge_lo
    ∧ bins !! Z.to_nat b = Some edge_hi
    ∧ (edge_lo <= clip p lo hi <= edge_hi)%Q.
Proof.
  intros Hlo Hhi Hne Hnb.
  assert (Qeq_bool lo hi = false) as Hneb.
  { destruct (Qeq_bool lo hi) eqn:E; [|done]. by apply Qeq_bool_iff in E. }
  pose proof (spread_lt h lo hi Hlo Hhi Hneb) as Hlt.
  destruct (linspace_Some lo hi (nb + 1)) as (bins & Hbins & Hlen); [lia|].
  pose proof (linspace_increasing lo hi nb bins Hlt Hnb Hbins) as Hinc.
  assert (locate_bin lo hi p nb = Some (digitize (clip p lo hi) bins, bins)) as Hloc
    by (unfold locate_bin; by rewrite Hbins).
  pose proof (locate_bin_range _ _ _ _ _ _ Hnb Hloc) as Hrange.
  destruct (digitize_spec (clip p lo hi) bins) as (n & Hn & _ & Hlow & Hup).
  rewrite Hn in *.
  set (b := RewardFunc.clamp_bin nb (Z.of_nat n)).
  assert (1 ≤ b ≤ nb) as Hb by (subst b; unfold RewardFunc.clamp_bin; lia).
  destruct (lookup_lt_is_Some_2 bins (Z.to_nat (b - 1))) as [edge_lo Helo]; [lia|].
  destruct (lookup_lt_is_Some_2 bins (Z.to_nat b)) as [edge_hi Hehi]; [lia|].
  eexists _, b, bins, edge_lo, edge_hi.
  split; [by eapply RewardFunc_spread|]. do 5 (split; [done|]).
  destruct (decide (n = 0%nat)) as [->|Hn0].
  - assert (b = 1) as Hb1 by (subst b; unfold RewardFunc.clamp_bin; lia).
    rewrite Hb1 in *. simpl in Helo, Hehi.
    pose proof (Hup _ Helo). pose proof (Hinc 0%nat 1%nat _ _ Helo Hehi ltac:(lia)).
    destruct (linspace_first lo hi (nb + 1)) as (b0 & edges & Hfirst & Hb0); [lia|].
    rewrite Hbins in Hfirst. injection Hfirst as ->. injection Helo as <-.
    pose proof (clip_ge_lo p lo hi ltac:(lra)). lra.
  - assert (b = Z.of_nat n) as Hbn by (subst b; unfold RewardFunc.clamp_bin; lia).
    rewrite Hbn, Nat2Z.id in Hehi.
    pose proof (Hup _ Hehi).
    assert (edge_lo < clip p lo hi)%Q; [|lra].
    eapply (Hlow (Z.to_nat (b - 1))); [lia|done].
Qed.

Lemma X2_standalone_result_well_formed_witness :
  ∃ r b bins edge_lo edge_hi,
    RewardFunc.calculate_reward [100; 200; 300; 400; 500]%Q 250 50 5 2
    = Some (r, Some b, bins)
    ∧ 1 ≤ b ≤ 5
    ∧ length bins = Z.to_nat (5 + 1)
    ∧ (∀ i j x y, bins !! i = Some x → bins !! j = Some y → (i < j)%nat →
                  (x < y)%Q)
    ∧ bins !! Z.to_nat (b - 1) = Some edge_lo
    ∧ bins !! Z.to_nat b = Some edge_hi
    ∧ (edge_lo <= clip 250 100 500 <= edge_hi)%Q.
Proof.
  apply (X2_standalone_result_well_formed [100; 200; 300; 400; 500]%Q 100 500 250 50 5 2);
    [reflexivity | reflexivity | | lia].
  intros H. vm_compute in H. discriminate H.
Defined.

(** ** The two ends of the price range *)

Lemma locate_bin_at_max (lo hi p : Q) (nb : Z) :
  (lo < hi)%Q → 1 ≤ nb → (hi <= p)%Q →
  ∃ bins, locate_bin lo hi p nb = Some (nb, bins).
Proof.
  intros Hlt Hnb Hp.
  destruct (linspace_last lo hi (nb + 1)) as (edges & Hbins & Hlen); [lia|].
  pose proof (linspace_increasing lo hi nb _ Hlt Hnb Hbins) as Hinc.
  exists (edges ++ [hi]). unfold locate_bin. rewrite Hbins. simpl. do 2 f_equal.
  assert (clip p lo hi == hi)%Q as Hclip.
  { rewrite clip_above by done. unfold clip, fmin, fmax.
    destruct (Qltb hi lo) eqn:E; [apply Qltb_true in E; lra|].
    case_Qltb; lra. }
  rewrite (digitize_compat _ _ _ Hclip).
  destruct (digitize_spec hi (edges ++ [hi])) as (n & Hn & _ & _ & Hup).
  pose proof (digitize_below_last hi hi edges ltac:(lra)) as Hle.
  rewrite Hn in *.
  destruct (decide (n < length edges)%nat) as [Hsmall|Hbig]; [|lia].
  destruct (lookup_lt_is_Some_2 edges n Hsmall) as [b Hb].
  assert ((edges ++ [hi]) !! n = Some b) as Hb' by (by rewrite lookup_app_l).
  pose proof (Hup b Hb').
  assert ((edges ++ [hi]) !! length edges = Some hi) as Hlast
    by apply list_lookup_middle, eq_refl.
  pose proof (Hinc _ _ _ _ Hb' Hlast Hsmall). lra.
Qed.

(** The standalone scorer at the two ends: a price at or below the minimum
    is in bin 1 with base reward [num_bins - 1], a price at or above the
    maximum is in bin [num_bins] with base reward 0; the adjustments are
    applied to that base. *)
Theorem X3_standalone_extremes (h : list Q) (lo hi p : Q) (pref nb : Z) (thr : Q) :
  list_min h = Some lo → list_max h = Some hi → ¬ (lo == hi)%Q → 1 ≤ nb →
  let adjusted base :=
    RewardFunc.threshold_adjustment pref thr
      (RewardFunc.preference_adjustment pref (inject_Z base)) in
  ∃ bins,
    linspace lo hi (nb + 1) = Some bins
    ∧ ((p <= lo)%Q →
       RewardFunc.calculate_reward h p pref nb thr
       = Some (adjusted (nb - 1), Some 1, bins))
    ∧ ((hi <= p)%Q →
       RewardFunc.calculate_reward h p pref nb thr
       = Some (adjusted 0, Some nb, bins)).
Proof.
  intros Hlo Hhi Hne Hnb adjusted.
  assert (Qeq_bool lo hi = false) as Hneb.
  { destruct (Qeq_bool lo hi) eqn:E; [|done]. by apply Qeq_bool_iff in E. }
  pose proof (spread_lt h lo hi Hlo Hhi Hneb) as Hlt.
  destruct (linspace_Some lo hi (nb + 1)) as (bins & Hbins & _); [lia|].
  exists bins. split; [done|]. split; intros Hp.
  - destruct (locate_bin_at_min lo hi nb) as [bins' Hloc]; [lia|].
    rewrite <- (locate_bin_compat lo hi p lo nb) in Hloc by (by apply clip_below).
    assert (bins' = bins) as ->.
    { unfold locate_bin in Hloc. rewrite Hbins in Hloc. simpl in Hloc. congruence. }
    erewrite RewardFunc_spread by done. subst adjusted. cbv beta.
    replace (RewardFunc.clamp_bin nb 0) with 1
      by (unfold RewardFunc.clamp_bin; lia).
    replace (RewardFunc.base_reward nb 1) with (nb - 1)
      by (unfold RewardFunc.base_reward; lia).
    done.
  - destruct (locate_bin_at_max lo hi p nb Hlt Hnb Hp) as [bins' Hloc].
    assert (bins' = bins) as ->.
    { unfold locate_bin in Hloc. rewrite Hbins in Hloc. simpl in Hloc. congruence. }
    erewrite RewardFunc_spread by done. subst adjusted. cbv beta.
    replace (RewardFunc.clamp_bin nb nb) with nb
      by (unfold RewardFunc.clamp_bin; lia).
    replace (RewardFunc.base_reward nb nb) with 0
      by (unfold RewardFunc.base_reward; lia).
    done.
Qed.

Lemma X3_standalone_extremes_witness :
  let adjusted base :=
    RewardFunc.threshold_adjustment 80 2
      (RewardFunc.preference_adjustment 80 (inject_Z base)) in
  ∃ bins,
    linspace 100 200 (5 + 1) = Some bins
    ∧ ((250 <= 100)%Q →
       RewardFunc.calculate_reward [100; 200; 150]%Q 250 80 5 2
       = Some (adjusted (5 - 1), Some 1, bins))
    ∧ ((200 <= 250)%Q →
       RewardFunc.calculate_reward [100; 200; 150]%Q 250 80 5 2
       = Some (adjusted 0, Some 5, bins)).
Proof.
  apply (X3_standalone_extremes [100; 200; 150]%Q 100 200 250 80 5 2);
    [reflexivity | reflexivity | | lia].
  intros H. vm_compute in H. discriminate H.
Defined.

(** The method at the upper end: the most expensive purchase earns 0, or
    the bonus 0.5 alone when the concert is preferred. *)
Theorem X4_method_most_expensive (e : Pricing.ConcertPricing) (c : string)
    (h : list Q) (lo hi p : Q) (nb : Z) :
  Pricing.price_history e !! c = Some h →
  list_min h = Some lo → list_max h = Some hi → ¬ (lo == hi)%Q → 1 ≤ nb →
  (hi <= p)%Q →
  ∃ r, Pricing.calculate_reward e c p nb = Some r
       ∧ (r == if decide (70 < default 50 (Pricing.user_preferences e !! c))%Z
               then 1 # 2 else 0)%Q.
Proof.
  intros Hh Hlo Hhi Hne Hnb Hp.
  assert (Qeq_bool lo hi = false) as Hneb.
  { destruct (Qeq_bool lo hi) eqn:E; [|done]. by apply Qeq_bool_iff in E. }
  pose proof (spread_lt h lo hi Hlo Hhi Hneb) as Hlt.
  destruct (locate_bin_at_max lo hi p nb Hlt Hnb Hp) as [bins Hloc].
  eexists. split; [by eapply Pricing_spread|].
  replace (Pricing.base_reward nb nb) with 0 by (unfold Pricing.base_reward; lia).
  unfold Pricing.preference_adjustment, fmax.
  change (inject_Z 0) with 0%Q.
  repeat case_decide; try lia; case_Qltb; lra.
Qed.

Lemma X4_method_most_expensive_witness :
  ∃ r, Pricing.calculate_reward (Demo.with_history [100; 200; 150]%Q)
         "Coldplay" 200 5 = Some r
       ∧ (r == if decide (70 < default 50
                            (Pricing.user_preferences
                               (Demo.with_history [100; 200; 150]%Q) !! "Coldplay"))%Z
               then 1 # 2 else 0)%Q.
Proof.
  apply (X4_method_most_expensive (Demo.with_history [100; 200; 150]%Q) "Coldplay"
           [100; 200; 150]%Q 100 200 200 5);
    [reflexivity | reflexivity | reflexivity | | lia | apply Qle_refl].
  intros H. vm_compute in H. discriminate H.
Defined.

(** ** Upper bounds *)

Lemma RewardFunc_adjust_upper (pref : Z) (thr r : Q) :
  (RewardFunc.threshold_adjustment pref thr
     (RewardFunc.preference_adjustment pref r) <= r + 1)%Q.
Proof.
  unfold RewardFunc.threshold_adjustment, RewardFunc.preference_adjustment.
  repeat case_decide; destruct (Qle_bool _ thr); try lia; lra.
Qed.

Lemma locate_bin_above_min (lo hi p : Q) (nb b : Z) (bins : list Q) :
  (lo < hi)%Q → (lo < p)%Q → 0 ≤ nb →
  locate_bin lo hi p nb = Some (b, bins) → 1 ≤ b.
Proof.
  intros Hlt Hp Hnb. unfold locate_bin.
  destruct (linspace_first lo hi (nb + 1)) as (b0 & edges & -> & Hb0); [lia|].
  simpl. intros [= <- _].
  assert (lo < clip p lo hi)%Q as Hclip.
  { unfold clip, fmax. destruct (Qltb p lo) eqn:E; [apply Qltb_true in E; lra|].
    unfold fmin. case_Qltb; lra. }
  rewrite (proj2 (Qltb_true _ _)) by (rewrite Hb0; done).
  pose proof (digitize_nonneg (clip p lo hi) edges). lia.
Qed.

(** For [num_bins >= 1] the standalone scorer never returns more than
    [num_bins]; the method never returns more than [num_bins - 0.5] for a
    purchased price above the historical minimum. *)
Theorem X5_reward_upper_bounds (e : Pricing.ConcertPricing) (c : string)
    (h : list Q) (lo p : Q) (pref nb : Z) (thr : Q) :
  1 ≤ nb →
  Pricing.price_history e !! c = Some h →
  list_min h = Some lo →
  (∃ res, RewardFunc.calculate_reward h p pref nb thr = Some res
          ∧ (RewardFunc.reward res <= inject_Z nb)%Q)
  ∧ ((lo < p)%Q →
     ∃ r, Pricing.calculate_reward e c p nb = Some r
          ∧ (r <= inject_Z nb - (1 # 2))%Q).
Proof.
  intros Hnb Hh Hlo.
  assert (h ≠ []) as Hne by (by destruct h).
  destruct (list_max_is_Some h Hne) as [hi Hhi].
  assert (inject_Z (nb - 1) == inject_Z nb - 1)%Q as Hdeg.
  { unfold Z.sub. rewrite inject_Z_plus. reflexivity. }
  destruct (Qeq_bool lo hi) eqn:Heq.
  { split.
    - eexists. split; [by eapply RewardFunc_degenerate|]. cbn. lra.
    - intros _. eexists. split; [by eapply Pricing_degenerate|]. lra. }
  pose proof (spread_lt h lo hi Hlo Hhi Heq) as Hlt.
  destruct (locate_bin_Some lo hi p nb) as (bins & Hb & _); [lia|].
  split.
  - eexists. split; [by eapply RewardFunc_spread|]. cbn.
    eapply Qle_trans; [apply RewardFunc_adjust_upper|].
    destruct (RewardFunc_bin_range nb (digitize (clip p lo hi) bins) Hnb) as [_ [_ H]].
    rewrite Zle_Qle in H. rewrite Hdeg in H. lra.
  - intros Hp. eexists. split; [by eapply Pricing_spread|].
    pose proof (locate_bin_above_min lo hi p nb _ _ Hlt Hp ltac:(lia) Hb) as Hb1.
    pose proof (digitize_nonneg (clip p lo hi) bins) as H0.
    assert (Pricing.base_reward nb (digitize (clip p lo hi) bins) ≤ nb - 1) as H
      by (unfold Pricing.base_reward; lia).
    rewrite Zle_Qle in H. rewrite Hdeg in H.
    assert (1 <= inject_Z nb)%Q as Hnb'
      by (change 1%Q with (inject_Z 1); by rewrite <- Zle_Qle).
    set (base := inject_Z (Pricing.base_reward nb _)) in *.
    unfold Pricing.preference_adjustment, fmax.
    repeat case_decide; case_Qltb; lra.
Qed.

Lemma X5_reward_upper_bounds_witness :
  (∃ res, RewardFunc.calculate_reward [100; 200; 150]%Q 120 80 5 2 = Some res
          ∧ (RewardFunc.reward res <= inject_Z 5)%Q)
  ∧ ((100 < 120)%Q →
     ∃ r, Pricing.calculate_reward (Demo.with_history [100; 200; 150]%Q)
            "Coldplay" 120 5 = Some r
          ∧ (r <= inject_Z 5 - (1 # 2))%Q).
Proof.
  apply (X5_reward_upper_bounds (Demo.with_history [100; 200; 150]%Q) "Coldplay"
           [100; 200; 150]%Q 100 120 80 5 2); [lia | reflexivity | reflexivity].
Defined.

(** * Further properties of the price calculation *)

(** ** When [get_price] raises *)

Lemma get_price_defined_iff_ready (e : Pricing.ConcertPricing) (c : string)
    (traffic : Z) :
  is_Some (Pricing.get_price e c traffic) ↔ ready e c.
Proof.
  split; [|apply get_price_is_Some].
  intros [p Hp]. unfold ready.
  unfold Pricing.get_price, Pricing.raw_price, Pricing._time_multiplier,
    Pricing._inventory_multiplier in Hp.
  destruct (Pricing.dict_get (Pricing.base_prices e) c); [|done].
  destruct (Pricing.concert_dates e !! c); [|done].
  destruct (Pricing.total_tickets e !! c) as [total|]; [|done].
  destruct (Pricing.sold_tickets e !! c); [|done].
  simpl in Hp. destruct (decide (total = 0)); [done|]. simpl in Hp.
  destruct (Pricing.price_history e !! c); [|done].
  split; [by eexists|]. split; [by eexists|]. split; [by exists total|].
  split; by eexists.
Qed.

(** [get_price] returns a price exactly for the concerts that every
    dictionary of the engine knows and whose inventory total is not zero
    (the division of [_inventory_multiplier]); the traffic value plays no
    part in it. *)
Theorem X6_get_price_defined_iff_ready (e : Pricing.ConcertPricing) (c : string)
    (traffic : Z) :
  is_Some (Pricing.get_price e c traffic) ↔ ready e c.
Proof. exact (get_price_defined_iff_ready e c traffic). Qed.

(** ** [round(x, 2)] *)

Lemma round_half_even_error (y : Q) :
  (y - (1 # 2) <= inject_Z (round_half_even y) <= y + (1 # 2))%Q.
Proof.
  unfold round_half_even.
  pose proof (Qfloor_le y) as Hlo. pose proof (Qlt_floor y) as Hhi.
  rewrite inject_Z_plus in Hhi. change (inject_Z 1) with 1%Q in Hhi.
  set (f := inject_Z (Qfloor y)) in *.
  destruct (Qltb (y - f) (1 # 2)) eqn:E1;
    [apply Qltb_true in E1|apply Qltb_false in E1].
  { fold f. lra. }
  destruct (Qltb (1 # 2) (y - f)) eqn:E2;
    [apply Qltb_true in E2|apply Qltb_false in E2].
  { rewrite inject_Z_plus. change (inject_Z 1) with 1%Q. fold f. lra. }
  destruct (Z.even (Qfloor y)).
  - fold f. lra.
  - rewrite inject_Z_plus. change (inject_Z 1) with 1%Q. fold f. lra.
Qed.

(** [round(x, 2)] is within half a cent of [x]. *)
Lemma round2_error (x : Q) :
  (x - (1 # 200) <= round2 x <= x + (1 # 200))%Q.
Proof.
  unfold round2. pose proof (round_half_even_error (x * 100)) as H.
  set (r := inject_Z (round_half_even (x * 100))) in *.
  assert (r / 100 == r * (1 # 100))%Q as -> by (unfold Qdiv; reflexivity).
  lra.
Qed.

Lemma round_half_even_mono (x y : Q) :
  (x <= y)%Q → round_half_even x ≤ round_half_even y.
Proof.
  intros Hxy. pose proof (Qfloor_resp_le x y Hxy) as Hf.
  unfold round_half_even.
  destruct (decide (Qfloor x = Qfloor y)) as [Heq|Hne].
  - rewrite <- Heq. set (f := Qfloor x) in *.
    destruct (Qltb (x - inject_Z f) (1 # 2)) eqn:X1;
      [apply Qltb_true in X1|apply Qltb_false in X1];
      (destruct (Qltb (1 # 2) (x - inject_Z f)) eqn:X2;
         [apply Qltb_true in X2|apply Qltb_false in X2]);
      (destruct (Qltb (y - inject_Z f) (1 # 2)) eqn:Y1;
         [apply Qltb_true in Y1|apply Qltb_false in Y1]);
      (destruct (Qltb (1 # 2) (y - inject_Z f)) eqn:Y2;
         [apply Qltb_true in Y2|apply Qltb_false in Y2]);
      destruct (Z.even f); try lia; lra.
  - assert (Qfloor x + 1 ≤ Qfloor y) by lia.
    repeat case_Qltb; repeat destruct (Z.even _); lia.
Qed.

Lemma round2_mono (x y : Q) : (x <= y)%Q → (round2 x <= round2 y)%Q.
Proof.
  intros H. unfold round2.
  assert (round_half_even (x * 100) ≤ round_half_even (y * 100)) as Hr
    by (apply round_half_even_mono; lra).
  rewrite Zle_Qle in Hr. unfold Qdiv.
  apply Qmult_le_compat_r; [done|]. vm_compute. discriminate.
Qed.

(** ** The multipliers: ranges and monotonicity *)

Lemma time_multiplier_range (e : Pricing.ConcertPricing) (c : string) (t : Q) :
  Pricing._time_multiplier e c = Some t → (85 # 100 <= t <= 125 # 100)%Q.
Proof.
  unfold Pricing._time_multiplier. destruct (Pricing.concert_dates e !! c); [|done].
  simpl. intros [= <-]. repeat case_decide; lra.
Qed.

Lemma inventory_multiplier_range (e : Pricing.ConcertPricing) (c : string) (i : Q) :
  Pricing._inventory_multiplier e c = Some i → (1 <= i <= 135 # 100)%Q.
Proof.
  unfold Pricing._inventory_multiplier.
  destruct (Pricing.total_tickets e !! c) as [total|]; [|done].
  destruct (Pricing.sold_tickets e !! c) as [sold|]; [|done]. simpl.
  destruct (decide (total = 0)); [done|]. intros [= <-].
  repeat case_Qltb; lra.
Qed.

Lemma traffic_multiplier_range (traffic : Z) :
  (95 # 100 <= Pricing._traffic_multiplier traffic <= 12 # 10)%Q.
Proof. unfold Pricing._traffic_multiplier. repeat case_decide; lra. Qed.

Lemma preference_multiplier_range (e : Pricing.ConcertPricing) (c : string) :
  (9 # 10 <= Pricing._preference_multiplier e c <= 115 # 100)%Q.
Proof. unfold Pricing._preference_multiplier. repeat case_decide; lra. Qed.

Lemma product_bounds (base t i w p : Q) :
  (0 <= base)%Q → (85 # 100 <= t <= 125 # 100)%Q → (1 <= i <= 135 # 100)%Q →
  (95 # 100 <= w <= 12 # 10)%Q → (9 # 10 <= p <= 115 # 100)%Q →
  (base * (72675 # 100000) <= base * t * i * w * p
   <= base * (232875 # 100000))%Q.
Proof.
  intros Hb Ht Hi Hw Hp.
  assert (base * (85 # 100) <= base * t <= base * (125 # 100))%Q as H1 by nra.
  set (a1 := (base * t)%Q) in *.
  assert (a1 * 1 <= a1 * i <= a1 * (135 # 100))%Q as H2 by nra.
  set (a2 := (a1 * i)%Q) in *.
  assert (a2 * (95 # 100) <= a2 * w <= a2 * (12 # 10))%Q as H3 by nra.
  set (a3 := (a2 * w)%Q) in *.
  assert (a3 * (9 # 10) <= a3 * p <= a3 * (115 # 100))%Q as H4 by nra.
  lra.
Qed.

(** For a non-negative base price the multiplier product stays between
    0.72675 and 2.32875 times the base, so the rounded raw price lies in
    that band up to half a cent, and the final price is never below the
    lower end of the band. *)
Theorem X7_price_band (e : Pricing.ConcertPricing) (c : string) (traffic : Z)
    (base raw : Q) :
  Pricing.dict_get (Pricing.base_prices e) c = Some base → (0 <= base)%Q →
  Pricing.raw_price e c traffic = Some raw →
  (base * (72675 # 100000) - (1 # 200) <= raw
   <= base * (232875 # 100000) + (1 # 200))%Q
  ∧ ∀ price, Pricing.get_price e c traffic = Some price →
             (base * (72675 # 100000) - (1 # 200) <= price)%Q.
Proof.
  intros Hbase Hpos Hraw.
  assert (base * (72675 # 100000) - (1 # 200) <= raw
          <= base * (232875 # 100000) + (1 # 200))%Q as Hband.
  { unfold Pricing.raw_price in Hraw. rewrite Hbase in Hraw. simpl in Hraw.
    destruct (Pricing._time_multiplier e c) as [t|] eqn:Ht; [|done].
    destruct (Pricing._inventory_multiplier e c) as [i|] eqn:Hi; [|done].
    simpl in Hraw. injection Hraw as <-.
    pose proof (product_bounds base t i (Pricing._traffic_multiplier traffic)
                  (Pricing._preference_multiplier e c) Hpos
                  (time_multiplier_range _ _ _ Ht)
                  (inventory_multiplier_range _ _ _ Hi)
                  (traffic_multiplier_range traffic)
                  (preference_multiplier_range e c)) as Hprod.
    pose proof (round2_error
                  (base * t * i * Pricing._traffic_multiplier traffic
                   * Pricing._preference_multiplier e c)) as Hround.
    lra. }
  split; [done|]. intros price Hprice.
  unfold Pricing.get_price in Hprice. rewrite Hraw in Hprice. simpl in Hprice.
  destruct (Pricing.price_history e !! c) as [h|]; [|done]. simpl in Hprice.
  destruct h as [|x h]; [injection Hprice as <-; lra|].
  destruct (median (x :: h)) as [m|]; [|done]. injection Hprice as <-.
  pose proof (fmax_ub_l raw m). lra.
Qed.

Lemma X7_price_band_witness :
  (7000 * (72675 # 100000) - (1 # 200) <= 7000.00
   <= 7000 * (232875 # 100000) + (1 # 200))%Q
  ∧ ∀ price, Pricing.get_price Demo.pricing "Coldplay" 50 = Some price →
             (7000 * (72675 # 100000) - (1 # 200) <= price)%Q.
Proof.
  apply (X7_price_band Demo.pricing "Coldplay" 50 7000 7000.00);
    [reflexivity | by vm_compute | reflexivity].
Defined.

Lemma product_mono (base t i w p t' i' w' p' : Q) :
  (0 <= base)%Q → (0 < t <= t')%Q → (0 < i <= i')%Q → (0 < w <= w')%Q →
  (0 < p <= p')%Q →
  (base * t * i * w * p <= base * t' * i' * w' * p')%Q.
Proof.
  intros Hb Ht Hi Hw Hp.
  assert (0 <= base * t <= base * t')%Q as H1 by nra.
  set (a1 := (base * t)%Q) in *. set (b1 := (base * t')%Q) in *.
  assert (0 <= a1 * i <= b1 * i')%Q as H2 by nra.
  set (a2 := (a1 * i)%Q) in *. set (b2 := (b1 * i')%Q) in *.
  assert (0 <= a2 * w <= b2 * w')%Q as H3 by nra.
  set (a3 := (a2 * w)%Q) in *. set (b3 := (b2 * w')%Q) in *.
  nra.
Qed.

Lemma time_multiplier_mono (e e' : Pricing.ConcertPricing) (c : string) (t t' : Q) :
  Pricing.concert_dates e !! c = Pricing.concert_dates e' !! c →
  Pricing.current_date e ≤ Pricing.current_date e' →
  Pricing._time_multiplier e c = Some t →
  Pricing._time_multiplier e' c = Some t' → (t <= t')%Q.
Proof.
  intros Hd Hnow. unfold Pricing._time_multiplier. rewrite <- Hd.
  destruct (Pricing.concert_dates e !! c) as [d|]; [|done]. simpl.
  intros [= <-] [= <-].
  assert (days_between d (Pricing.current_date e')
          ≤ days_between d (Pricing.current_date e)) as Hdays.
  { unfold days_between, microseconds_per_day. apply Z.div_le_mono; lia. }
  repeat case_decide; try lia; lra.
Qed.

Lemma inventory_multiplier_mono (e e' : Pricing.ConcertPricing) (c : string)
    (total sold sold' : Z) (i i' : Q) :
  Pricing.total_tickets e !! c = Some total →
  Pricing.total_tickets e' !! c = Some total → 0 < total →
  Pricing.sold_tickets e !! c = Some sold →
  Pricing.sold_tickets e' !! c = Some sold' → sold ≤ sold' →
  Pricing._inventory_multiplier e c = Some i →
  Pricing._inventory_multiplier e' c = Some i' → (i <= i')%Q.
Proof.
  intros Ht Ht' Hpos Hs Hs' Hle. unfold Pricing._inventory_multiplier.
  rewrite Ht, Ht', Hs, Hs'. simpl. destruct (decide (total = 0)); [lia|].
  simpl. intros [= <-] [= <-].
  assert (inject_Z (total - sold') / inject_Z total
          <= inject_Z (total - sold) / inject_Z total)%Q as Hratio.
  { unfold Qdiv. apply Qmult_le_compat_r.
    - rewrite <- Zle_Qle. lia.
    - apply Qinv_le_0_compat. change 0%Q with (inject_Z 0).
      rewrite <- Zle_Qle. lia. }
  set (r := (inject_Z (total - sold) / inject_Z total)%Q) in *.
  set (r' := (inject_Z (total - sold') / inject_Z total)%Q) in *.
  destruct (Qltb (1 # 2) r) eqn:R1; [apply Qltb_true in R1|apply Qltb_false in R1];
    (destruct (Qltb (2 # 10) r) eqn:R2;
       [apply Qltb_true in R2|apply Qltb_false in R2]);
    (destruct (Qltb (1 # 2) r') eqn:R1';
       [apply Qltb_true in R1'|apply Qltb_false in R1']);
    (destruct (Qltb (2 # 10) r') eqn:R2';
       [apply Qltb_true in R2'|apply Qltb_false in R2']); lra.
Qed.

Lemma traffic_multiplier_mono (traffic traffic' : Z) :
  traffic ≤ traffic' →
  (Pricing._traffic_multiplier traffic <= Pricing._traffic_multiplier traffic')%Q.
Proof.
  intros H. unfold Pricing._traffic_multiplier. repeat case_decide; try lia; lra.
Qed.

Lemma preference_multiplier_mono (e e' : Pricing.ConcertPricing) (c : string) :
  default 50 (Pricing.user_preferences e !! c)
  ≤ default 50 (Pricing.user_preferences e' !! c) →
  (Pricing._preference_multiplier e c <= Pricing._preference_multiplier e' c)%Q.
Proof.
  intros H. unfold Pricing._preference_multiplier.
  repeat case_decide; try lia; lra.
Qed.

(** No demand signal lowers the raw price: with the same non-negative base
    price and the same positive inventory total, a later date, more tickets
    sold, more traffic and a higher preference give a raw price that is at
    least as high. *)
Theorem X8_raw_price_monotone (e e' : Pricing.ConcertPricing) (c : string)
    (traffic traffic' : Z) (base : Q) (total sold sold' : Z) (raw raw' : Q) :
  Pricing.dict_get (Pricing.base_prices e) c = Some base →
  Pricing.dict_get (Pricing.base_prices e') c = Some base →
  (0 <= base)%Q →
  Pricing.concert_dates e !! c = Pricing.concert_dates e' !! c →
  Pricing.current_date e ≤ Pricing.current_date e' →
  Pricing.total_tickets e !! c = Some total →
  Pricing.total_tickets e' !! c = Some total → 0 < total →
  Pricing.sold_tickets e !! c = Some sold →
  Pricing.sold_tickets e' !! c = Some sold' → sold ≤ sold' →
  default 50 (Pricing.user_preferences e !! c)
  ≤ default 50 (Pricing.user_preferences e' !! c) →
  traffic ≤ traffic' →
  Pricing.raw_price e c traffic = Some raw →
  Pricing.raw_price e' c traffic' = Some raw' →
  (raw <= raw')%Q.
Proof.
  intros Hb Hb' Hpos Hd Hnow Ht Ht' Htot Hs Hs' Hsold Hpref Htr.
  unfold Pricing.raw_price. rewrite Hb, Hb'. simpl.
  destruct (Pricing._time_multiplier e c) as [t|] eqn:Et; [|done].
  destruct (Pricing._time_multiplier e' c) as [t'|] eqn:Et'; [|done].
  destruct (Pricing._inventory_multiplier e c) as [i|] eqn:Ei; [|done].
  destruct (Pricing._inventory_multiplier e' c) as [i'|] eqn:Ei'; [|done].
  simpl. intros [= <-] [= <-]. apply round2_mono, product_mono; [done|..].
  - pose proof (time_multiplier_range _ _ _ Et).
    pose proof (time_multiplier_mono e e' c t t' Hd Hnow Et Et'). lra.
  - pose proof (inventory_multiplier_range _ _ _ Ei).
    pose proof (inventory_multiplier_mono e e' c total sold sold' i i'
                  Ht Ht' Htot Hs Hs' Hsold Ei Ei'). lra.
  - pose proof (traffic_multiplier_range traffic).
    pose proof (traffic_multiplier_mono traffic traffic' Htr). lra.
  - pose proof (preference_multiplier_range e c).
    pose proof (preference_multiplier_mono e e' c Hpref). lra.
Qed.

Lemma X8_raw_price_monotone_witness :
  let e' := Pricing.set_current_date
              (sell_all Demo.pricing [("Coldplay", 600)])
              (15 * microseconds_per_day) in
  Pricing.raw_price Demo.pricing "Coldplay" 50 = Some 7000.00%Q
  ∧ Pricing.raw_price e' "Coldplay" 90 = Some 12075.00%Q
  ∧ (7000.00 <= 12075.00)%Q.
Proof.
  intros e'. split; [reflexivity|]. split; [reflexivity|].
  apply (X8_raw_price_monotone Demo.pricing e' "Coldplay" 50 90 7000 1000 0 600
           7000.00 12075.00).
  all: first [reflexivity | lia | (vm_compute; discriminate) | (vm_compute; lia)].
Defined.

(** * Further properties of the sales and of the prompt parser *)

(** ** [sell_ticket] *)

(** A sale touches the sold count of its concert only; for a non-negative
    request on a concert that is not oversold the count does not decrease,
    grows by at most the request and stays within the total. An unknown
    concert raises and nothing is sold. *)
Theorem X9_sell_ticket_effect (e : Pricing.ConcertPricing) (c : string) (num : Z) :
  match Pricing.total_tickets e !! c, Pricing.sold_tickets e !! c with
  | Some total, Some sold =>
      ∃ e', Pricing.sell_ticket e c num = Some e'
            ∧ Pricing.sold_tickets e' = <[c := sold + Z.min num (total - sold)]>
                                          (Pricing.sold_tickets e)
            ∧ e' = Pricing.set_sold_tickets e (Pricing.sold_tickets e')
            ∧ (0 ≤ num → sold ≤ total →
               ∃ sold', Pricing.sold_tickets e' !! c = Some sold'
                        ∧ sold ≤ sold' ≤ total ∧ sold' - sold ≤ num)
  | _, _ => Pricing.sell_ticket e c num = None
  end.
Proof.
  destruct (Pricing.total_tickets e !! c) as [total|] eqn:Ht.
  2:{ unfold Pricing.sell_ticket. by rewrite Ht. }
  destruct (Pricing.sold_tickets e !! c) as [sold|] eqn:Hs.
  2:{ unfold Pricing.sell_ticket. by rewrite Ht, Hs. }
  eexists. split; [by apply sell_ticket_Some|]. simpl.
  split; [done|]. split; [done|]. intros Hnum Hle.
  eexists. rewrite lookup_insert_eq. split; [done|]. lia.
Qed.

(** Two non-negative sales in a row sell what one sale of the sum sells. *)
Theorem X10_sell_ticket_compose (e : Pricing.ConcertPricing) (c : string)
    (total sold n1 n2 : Z) :
  Pricing.total_tickets e !! c = Some total →
  Pricing.sold_tickets e !! c = Some sold →
  sold ≤ total → 0 ≤ n1 → 0 ≤ n2 →
  Pricing.sell_ticket e c n1 ≫= (λ e1, Pricing.sell_ticket e1 c n2)
  = Pricing.sell_ticket e c (n1 + n2).
Proof.
  intros Ht Hs Hle Hn1 Hn2.
  rewrite (sell_ticket_Some e c n1 total sold Ht Hs). simpl.
  erewrite sell_ticket_Some; [|exact Ht|apply lookup_insert_eq].
  rewrite (sell_ticket_Some e c (n1 + n2) total sold Ht Hs).
  unfold Pricing.set_sold_tickets. simpl. rewrite insert_insert_eq.
  do 3 f_equal. lia.
Qed.

Lemma X10_sell_ticket_compose_witness :
  Pricing.sell_ticket Demo.pricing "Coldplay" 700
    ≫= (λ e1, Pricing.sell_ticket e1 "Coldplay" 400)
  = Pricing.sell_ticket Demo.pricing "Coldplay" (700 + 400).
Proof.
  apply (X10_sell_ticket_compose Demo.pricing "Coldplay" 1000 0 700 400);
    first [reflexivity | lia].
Defined.

(** ** [_parse_user_prompt] *)

Lemma select_concert_first_match (prompt_lower : string)
    (concerts : list string) :
  match Pricing.select_concert prompt_lower concerts with
  | Some k =>
      ∃ before after,
        concerts = before ++ k :: after
        ∧ contains (lower k) prompt_lower = true
        ∧ ∀ c, c ∈ before → contains (lower c) prompt_lower = false
  | None => ∀ c, c ∈ concerts → contains (lower c) prompt_lower = false
  end.
Proof.
  induction concerts as [|c concerts IH]; simpl.
  - intros c Hc. by apply elem_of_nil in Hc.
  - destruct (contains (lower c) prompt_lower) eqn:Hc.
    + exists [], concerts. split; [done|]. split; [done|].
      intros c' Hc'. by apply elem_of_nil in Hc'.
    + destruct (Pricing.select_concert prompt_lower concerts) as [k|].
      * destruct IH as (before & after & -> & Hk & Hbefore).
        exists (c :: before), after. split; [done|]. split; [done|].
        intros c' [->|Hc']%elem_of_cons; [done|by apply Hbefore].
      * intros c' [->|Hc']%elem_of_cons; [done|by apply IH].
Qed.

(** The first loop stops at the first concert, in iteration order, whose
    lowered name occurs in the lowered prompt. *)
Theorem X11_select_concert_first_match (prompt_lower : string)
    (concerts : list string) :
  match Pricing.select_concert prompt_lower concerts with
  | Some k =>
      ∃ before after,
        concerts = before ++ k :: after
        ∧ contains (lower k) prompt_lower = true
        ∧ ∀ c, c ∈ before → contains (lower c) prompt_lower = false
  | None => ∀ c, c ∈ concerts → contains (lower c) prompt_lower = false
  end.
Proof. exact (select_concert_first_match prompt_lower concerts). Qed.

Lemma parse_user_prompt_preferences (e : Pricing.ConcertPricing)
    (prompt : string) :
  let e' := Pricing._parse_user_prompt e prompt in
  let selected := Pricing.select_concert (lower prompt)
                    (Pricing.keys (Pricing.base_prices e)) in
  (∀ c, c ∈ Pricing.keys (Pricing.base_prices e) →
        Pricing.user_preferences e' !! c
        = Some (if decide (Some c = selected) then 95 else 40))
  ∧ (∀ c, c ∉ Pricing.keys (Pricing.base_prices e) →
          Pricing.user_preferences e' !! c = Pricing.user_preferences e !! c)
  ∧ (∀ c1 c2, c1 ∈ Pricing.keys (Pricing.base_prices e) →
              c2 ∈ Pricing.keys (Pricing.base_prices e) →
              Pricing.user_preferences e' !! c1 = Some 95 →
              Pricing.user_preferences e' !! c2 = Some 95 → c1 = c2)
  ∧ ((∀ c, c ∈ Pricing.keys (Pricing.base_prices e) →
           contains (lower c) (lower prompt) = false) →
     ∀ c, c ∈ Pricing.keys (Pricing.base_prices e) →
          Pricing.user_preferences e' !! c = Some 40).
Proof.
  intros e' selected.
  assert (∀ c, c ∈ Pricing.keys (Pricing.base_prices e) →
               Pricing.user_preferences e' !! c
               = Some (if decide (Some c = selected) then 95 else 40)) as Hin.
  { intros c Hc. subst e'. unfold Pricing._parse_user_prompt. simpl.
    by rewrite assign_preferences_lookup, decide_True. }
  split; [done|]. split; [|split].
  - intros c Hc. subst e'. unfold Pricing._parse_user_prompt. simpl.
    by rewrite assign_preferences_lookup, decide_False.
  - intros c1 c2 H1 H2. rewrite (Hin c1 H1), (Hin c2 H2).
    repeat case_decide; try done. congruence.
  - intros Hmiss c Hc. rewrite (Hin c Hc). rewrite decide_False; [done|].
    intros Hsel. subst selected.
    pose proof (select_concert_first_match (lower prompt)
                  (Pricing.keys (Pricing.base_prices e))) as Hfirst.
    rewrite <- Hsel in Hfirst. destruct Hfirst as (_ & _ & _ & Hhit & _).
    rewrite (Hmiss c Hc) in Hhit. done.
Qed.

(** After the parser every tracked concert holds 95 or 40, at most one
    concert holds 95 (the selected one), the other keys of
    [user_preferences] are untouched, and when no concert name occurs in
    the prompt every tracked concert holds 40. *)
Theorem X12_parse_user_prompt_preferences (e : Pricing.ConcertPricing)
    (prompt : string) :
  let e' := Pricing._parse_user_prompt e prompt in
  let selected := Pricing.select_concert (lower prompt)
                    (Pricing.keys (Pricing.base_prices e)) in
  (∀ c, c ∈ Pricing.keys (Pricing.base_prices e) →
        Pricing.user_preferences e' !! c
        = Some (if decide (Some c = selected) then 95 else 40))
  ∧ (∀ c, c ∉ Pricing.keys (Pricing.base_prices e) →
          Pricing.user_preferences e' !! c = Pricing.user_preferences e !! c)
  ∧ (∀ c1 c2, c1 ∈ Pricing.keys (Pricing.base_prices e) →
              c2 ∈ Pricing.keys (Pricing.base_prices e) →
              Pricing.user_preferences e' !! c1 = Some 95 →
              Pricing.user_preferences e' !! c2 = Some 95 → c1 = c2)
  ∧ ((∀ c, c ∈ Pricing.keys (Pricing.base_prices e) →
           contains (lower c) (lower prompt) = false) →
     ∀ c, c ∈ Pricing.keys (Pricing.base_prices e) →
          Pricing.user_preferences e' !! c = Some 40).
Proof. exact (parse_user_prompt_preferences e prompt). Qed.

(** Every call resets the preferences: a prompt parsed after another one
    leaves what it would have left alone, and parsing a prompt twice is
    parsing it once. *)
Theorem X13_parse_user_prompt_overrides (e : Pricing.ConcertPricing)
    (prompt1 prompt2 : string) :
  Pricing._parse_user_prompt (Pricing._parse_user_prompt e prompt1) prompt2
  = Pricing._parse_user_prompt e prompt2
  ∧ Pricing._parse_user_prompt (Pricing._parse_user_prompt e prompt2) prompt2
    = Pricing._parse_user_prompt e prompt2.
Proof.
  assert (∀ p1 p2,
    Pricing._parse_user_prompt (Pricing._parse_user_prompt e p1) p2
    = Pricing._parse_user_prompt e p2) as H; [|by split].
  intros p1 p2. unfold Pricing._parse_user_prompt at 1 3.
  unfold Pricing.set_user_preferences. simpl. f_equal.
  apply map_eq. intros c. rewrite !assign_preferences_lookup.
  by case_decide.
Qed.

(** After the parser a tracked concert is priced with 1.15 when selected
    and 0.9 otherwise, and scored by the method with the bonus 0.5 when
    selected and no adjustment otherwise: the neutral multiplier and the
    penalty 1.5 are out of reach of the keyword parser. *)
Theorem X14_parse_then_preference (e : Pricing.ConcertPricing)
    (prompt c : string) (r : Q) :
  c ∈ Pricing.keys (Pricing.base_prices e) →
  let e' := Pricing._parse_user_prompt e prompt in
  let selected := Pricing.select_concert (lower prompt)
                    (Pricing.keys (Pricing.base_prices e)) in
  Pricing._preference_multiplier e' c
  = (if decide (Some c = selected) then 115 # 100 else 9 # 10)
  ∧ Pricing.preference_adjustment
      (default 50 (Pricing.user_preferences e' !! c)) r
    = (if decide (Some c = selected) then (r + (1 # 2))%Q else r).
Proof.
  intros Hc e' selected.
  destruct (parse_user_prompt_preferences e prompt) as (Hin & _).
  cbv zeta in Hin. fold e' selected in Hin.
  unfold Pricing._preference_multiplier, Pricing.preference_adjustment.
  rewrite (Hin c Hc). simpl. by destruct (decide (Some c = selected)).
Qed.

Lemma X14_parse_then_preference_witness :
  let e' := Pricing._parse_user_prompt Demo.pricing "coldplay, cheap" in
  let selected := Pricing.select_concert (lower "coldplay, cheap")
                    (Pricing.keys (Pricing.base_prices Demo.pricing)) in
  Pricing._preference_multiplier e' "Taylor Swift"
  = (if decide (Some "Taylor Swift" = selected) then 115 # 100 else 9 # 10)
  ∧ Pricing.preference_adjustment
      (default 50 (Pricing.user_preferences e' !! "Taylor Swift")) 3
    = (if decide (Some "Taylor Swift" = selected) then (3 + (1 # 2))%Q else 3%Q).
Proof.
  apply (X14_parse_then_preference Demo.pricing "coldplay, cheap"
           "Taylor Swift" 3).
  cbn. set_solver.
Defined.

(** * Further properties of the day simulator *)

Section day_more.
Import Pricing.

(** ** A successful run of the loop body, in full *)

Lemma simulate_concert_Some (web_traffic_dict : gmap string Z) (raw : Z)
    (c : string) (e e' : ConcertPricing) (entry : DayEntry) :
  simulate_concert web_traffic_dict raw c e = (e', Some entry) →
  ∃ traffic h total sold,
    web_traffic_dict !! c = Some traffic
    ∧ price_history e !! c = Some h
    ∧ total_tickets e !! c = Some total
    ∧ sold_tickets e !! c = Some sold
    ∧ get_price e c traffic = Some (Price entry)
    ∧ e' = after_concert e c h (Price entry) (Total_Sold entry)
    ∧ Total_Sold entry = sold + Z.min (Sold_Today entry) (total - sold)
    ∧ Sold_Today entry = randint 0 (Z.max 1 (traffic `div` 10)) raw
    ∧ Remaining entry = total - Total_Sold entry
    ∧ Traffic entry = traffic
    ∧ user_preferences e !! c = Some (Preference entry)
    ∧ median (h ++ [Price entry]) = Some (Floor_Price entry)
    ∧ calculate_reward e' c (Price entry) 5 = Some (Reward entry).
Proof.
  unfold simulate_concert. intros H.
  destruct (web_traffic_dict !! c) as [traffic|] eqn:Htr.
  2:{ by rewrite bind_read_None in H. }
  rewrite (bind_read_Some _ _ _ traffic) in H by done.
  destruct (get_price e c traffic) as [price|] eqn:Hprice.
  2:{ by rewrite bind_read_None in H. }
  rewrite (bind_read_Some _ _ _ price) in H by done.
  destruct (get_price_Some_inv _ _ _ _ Hprice) as (h & total & sold & Hh & Ht & Hs).
  set (sold_today := randint 0 (Z.max 1 (traffic `div` 10)) raw) in *.
  set (sold_now := sold + Z.min sold_today (total - sold)).
  set (e1 := set_price_history e (<[c := h ++ [price]]> (price_history e))).
  set (e2 := after_concert e c h price sold_now).
  rewrite (bind_update_Some _ _ e e1) in H
    by (unfold append_price; by rewrite Hh).
  rewrite (bind_update_Some _ _ e1 e2) in H
    by (cbn beta; by rewrite (sell_ticket_Some e1 c _ total sold Ht Hs)).
  assert (price_history e2 !! c = Some (h ++ [price])) as Hh2
    by apply lookup_insert_eq.
  destruct (calculate_reward e2 c price 5) as [reward|] eqn:Hr.
  2:{ by rewrite bind_read_None in H. }
  rewrite (bind_read_Some _ _ _ reward) in H by done.
  destruct (user_preferences e !! c) as [pref|] eqn:Hpref.
  2:{ by rewrite bind_read_None in H. }
  rewrite (bind_read_Some _ _ _ pref) in H by done.
  rewrite (bind_read_Some _ _ _ sold_now) in H by apply lookup_insert_eq.
  rewrite (bind_read_Some _ _ _ total) in H by done.
  destruct (median (h ++ [price])) as [m|] eqn:Hm.
  2:{ rewrite bind_read_None in H; [done|]. by rewrite Hh2. }
  rewrite (bind_read_Some _ _ _ m) in H by (by rewrite Hh2).
  injection H as <- <-. simpl.
  exists traffic, h, total, sold. repeat split; done.
Qed.

(** ** An invariant rule for the loop *)

Lemma simulate_loop_rule (web_traffic_dict : gmap string Z) (rng : nat → Z)
    (I : list string → ConcertPricing → gmap string DayEntry → Prop) :
  (∀ done c i e1 ds1 e2 entry,
     c ∉ done → I done e1 ds1 →
     simulate_concert web_traffic_dict (rng i) c e1 = (e2, Some entry) →
     I (done ++ [c]) e2 (<[c := entry]> ds1)) →
  ∀ concerts done i e1 ds1 e' ds,
    NoDup (done ++ concerts) → I done e1 ds1 →
    simulate_loop web_traffic_dict rng i concerts ds1 e1 = (e', Some ds) →
    I (done ++ concerts) e' ds.
Proof.
  intros Hstep. induction concerts as [|c cs IH]; intros done i e1 ds1 e' ds Hnd HI.
  - cbn. intros [= <- <-]. by rewrite app_nil_r.
  - cbn [simulate_loop]. rewrite bind_run.
    destruct (simulate_concert web_traffic_dict (rng i) c e1) as [e2 [entry|]] eqn:Hc;
      [|done].
    intros Hloop. rewrite cons_middle, app_assoc in Hnd |- *.
    eapply IH; [done| |done].
    eapply Hstep; [|done|done].
    apply NoDup_app in Hnd as [Hnd _]. apply NoDup_app in Hnd as (_ & Hnd & _).
    intros Hin. apply (Hnd c Hin). left.
Qed.

(** ** What the returned snapshot records *)

Lemma day_entry_ok_ext (e0 : ConcertPricing) (web_traffic_dict : gmap string Z)
    (e1 e2 : ConcertPricing) (c : string) (entry : DayEntry) :
  price_history e2 !! c = price_history e1 !! c →
  sold_tickets e2 !! c = sold_tickets e1 !! c →
  user_preferences e2 !! c = user_preferences e1 !! c →
  day_entry_ok e0 web_traffic_dict e1 c entry →
  day_entry_ok e0 web_traffic_dict e2 c entry.
Proof.
  intros Hh Hs Hp (traffic & h & total & sold & H).
  exists traffic, h, total, sold. rewrite Hh, Hs.
  destruct H as (? & ? & ? & ? & ? & ? & ? & ? & ? & ? & ? & ? & ? & Hr).
  do 13 (split; [done|]). rewrite <- Hr. by apply calculate_reward_ext.
Qed.

Lemma day_invariant_step (e0 : ConcertPricing) (web_traffic_dict : gmap string Z)
    (raw : Z) (done : list string) (c : string) (e1 e2 : ConcertPricing)
    (ds1 : gmap string DayEntry) (entry : DayEntry) :
  c ∉ done →
  day_invariant e0 web_traffic_dict done e1 ds1 →
  simulate_concert web_traffic_dict raw c e1 = (e2, Some entry) →
  day_invariant e0 web_traffic_dict (done ++ [c]) e2 (<[c := entry]> ds1).
Proof.
  intros Hc ((Hbp & Htt & Hcd & Hdate & Hup) & Hrest & Hdone) Hrun.
  destruct (simulate_concert_Some _ _ _ _ _ _ Hrun)
    as (traffic & h & total & sold & Htr & Hh & Ht & Hs & Hprice & -> & Hsold
        & Htoday & Hrem & Htraffic & Hpref & Hmed & Hreward).
  destruct (Hrest c Hc) as (Hh0 & Hs0 & _).
  split; [done|]. split.
  - intros k Hk. apply not_elem_of_app in Hk as [Hk Hne].
    apply not_elem_of_cons in Hne as [Hne _].
    destruct (Hrest k Hk) as (? & ? & ?). simpl.
    by rewrite !lookup_insert_ne.
  - intros k [Hk|Hk%list_elem_of_singleton]%elem_of_app.
    + assert (c ≠ k) as Hne by (by intros ->).
      destruct (Hdone k Hk) as (entry' & Hlook & Hok).
      exists entry'. rewrite lookup_insert_ne by done. split; [done|].
      eapply day_entry_ok_ext; [| | |exact Hok]; simpl;
        by rewrite ?lookup_insert_ne.
    + subst k. exists entry. rewrite lookup_insert_eq. split; [done|].
      exists traffic, h, total, sold.
      split; [done|]. split; [by rewrite <- Hh0|]. split; [by rewrite <- Htt|].
      split; [by rewrite <- Hs0|]. split.
      { rewrite <- Hprice. symmetry. by apply get_price_ext. }
      split; [apply lookup_insert_eq|]. split; [apply lookup_insert_eq|].
      split; [done|]. split.
      { rewrite Htoday. apply randint_range. lia. }
      do 2 (split; [done|]). split; [by rewrite <- Hup|]. done.
Qed.

Lemma Some_default {A} (d : A) (x : option A) :
  (if x is Some _ then true else false) = true → x = Some (default d x).
Proof. by destruct x. Qed.

Lemma simulate_purchase_snapshot (e : ConcertPricing) (prompt : string)
    (web_traffic_dict : gmap string Z) (rng : nat → Z)
    (ds : gmap string DayEntry) :
  NoDup (keys (base_prices e)) →
  let res := simulate_purchase e prompt web_traffic_dict rng in
  res.2 = Some ds →
  (∀ c, c ∈ keys (base_prices e) ↔ is_Some (ds !! c))
  ∧ ∀ c entry, ds !! c = Some entry →
      day_entry_ok (_parse_user_prompt e prompt) web_traffic_dict res.1 c entry.
Proof.
  intros Hnd res. subst res. rewrite simulate_purchase_run.
  set (e0 := _parse_user_prompt e prompt).
  destruct (simulate_loop web_traffic_dict rng 0 (keys (base_prices e)) ∅ e0)
    as [e' [ds'|]] eqn:Hloop; [|done].
  simpl. intros [= ->].
  pose proof (simulate_loop_rule web_traffic_dict rng
                (day_invariant e0 web_traffic_dict)
                (λ done c i e1 ds1 e2 entry,
                   day_invariant_step e0 web_traffic_dict (rng i) done c e1 e2 ds1 entry)
                (keys (base_prices e)) [] 0 e0 ∅ e' ds Hnd) as Hinv.
  destruct Hinv as (_ & Hrest & Hdone); [|done|].
  { split; [done|]. split; [done|]. intros c Hc. by apply elem_of_nil in Hc. }
  simpl in Hrest, Hdone. split.
  - intros c. split.
    + intros Hc. destruct (Hdone c Hc) as (entry & -> & _). by eexists.
    + intros [entry Hentry]. destruct (decide (c ∈ keys (base_prices e))); [done|].
      destruct (Hrest c) as (_ & _ & Hnone); [done|]. congruence.
  - intros c entry Hentry.
    destruct (decide (c ∈ keys (base_prices e))) as [Hc|Hc].
    + destruct (Hdone c Hc) as (entry' & Hentry' & Hok).
      assert (entry' = entry) as -> by congruence.
      eapply day_entry_ok_ext; [| | |exact Hok]; done.
    + destruct (Hrest c Hc) as (_ & _ & Hnone). congruence.
Qed.

(** When [simulate_purchase] returns a snapshot, the snapshot has an entry
    for the tracked concerts and for them only, and every entry records the
    day faithfully: the price is [get_price] on the engine as the parser
    left it and is the price appended to the history; the sold count, the
    remaining tickets, the preference and the floor price are those of the
    engine after the call; the tickets sold today lie between 0 and
    [max(1, traffic // 10)]. *)
Theorem X15_simulate_purchase_snapshot (e : ConcertPricing) (prompt : string)
    (web_traffic_dict : gmap string Z) (rng : nat → Z)
    (ds : gmap string DayEntry) :
  NoDup (keys (base_prices e)) →
  let res := simulate_purchase e prompt web_traffic_dict rng in
  res.2 = Some ds →
  (∀ c, c ∈ keys (base_prices e) ↔ is_Some (ds !! c))
  ∧ ∀ c entry, ds !! c = Some entry →
      day_entry_ok (_parse_user_prompt e prompt) web_traffic_dict res.1 c entry.
Proof. exact (simulate_purchase_snapshot e prompt web_traffic_dict rng ds). Qed.

Lemma X15_simulate_purchase_snapshot_witness :
  let res := simulate_purchase Demo.pricing "I want Coldplay"
               Demo.web_traffic (λ _, 7) in
  let ds := default ∅ res.2 in
  res.2 = Some ds
  ∧ (∀ c, c ∈ keys (base_prices Demo.pricing) ↔ is_Some (ds !! c))
  ∧ ∀ c entry, ds !! c = Some entry →
      day_entry_ok (_parse_user_prompt Demo.pricing "I want Coldplay")
        Demo.web_traffic res.1 c entry.
Proof.
  intros res ds.
  assert (res.2 = Some ds) as Hds by (apply Some_default; by vm_compute).
  split; [exact Hds|].
  exact (X15_simulate_purchase_snapshot Demo.pricing "I want Coldplay"
           Demo.web_traffic (λ _, 7) ds Demo_keys_NoDup Hds).
Defined.

(** ** The ratchet *)

Lemma get_price_floor (e : ConcertPricing) (c : string) (traffic : Z)
    (h : list Q) (p : Q) :
  get_price e c traffic = Some p → price_history e !! c = Some h →
  (h = [] → raw_price e c traffic = Some p)
  ∧ (h ≠ [] → ∃ m, median h = Some m ∧ (m <= p)%Q).
Proof.
  unfold get_price. intros Hp Hh.
  destruct (raw_price e c traffic) as [raw|]; [|done]. simpl in Hp.
  rewrite Hh in Hp. simpl in Hp. split.
  - intros ->. done.
  - intros Hne. destruct h as [|x h]; [done|].
    destruct (median (x :: h)) as [m|]; [|done]. injection Hp as <-.
    exists m. split; [done|apply fmax_ub_r].
Qed.

(** Every price a simulated day appends is at least the median of the
    concert's history before that day; on an empty history it is the raw
    price computed with the preferences the parser has just set. *)
Theorem X16_simulate_purchase_ratchet (e : ConcertPricing) (prompt : string)
    (web_traffic_dict : gmap string Z) (rng : nat → Z)
    (ds : gmap string DayEntry) :
  NoDup (keys (base_prices e)) →
  let res := simulate_purchase e prompt web_traffic_dict rng in
  res.2 = Some ds →
  ∀ c, c ∈ keys (base_prices e) →
    ∃ h p traffic,
      price_history e !! c = Some h
      ∧ price_history res.1 !! c = Some (h ++ [p])
      ∧ web_traffic_dict !! c = Some traffic
      ∧ (h = [] → raw_price (_parse_user_prompt e prompt) c traffic = Some p)
      ∧ (h ≠ [] → ∃ m, median h = Some m ∧ (m <= p)%Q).
Proof.
  intros Hnd res Hds c Hc.
  destruct (simulate_purchase_snapshot e prompt web_traffic_dict rng ds Hnd Hds)
    as [Hdom Hok].
  destruct (proj1 (Hdom c) Hc) as [entry Hentry].
  destruct (Hok c entry Hentry)
    as (traffic & h & total & sold & Htr & Hh & _ & _ & Hprice & Hh' & _).
  exists h, (Price entry), traffic. do 3 (split; [done|]).
  by apply get_price_floor.
Qed.

Lemma X16_simulate_purchase_ratchet_witness :
  let e := Demo.with_history [8050; 9000; 9500]%Q in
  let res := simulate_purchase e "anything cheap" Demo.web_traffic (λ _, 7) in
  res.2 = Some (default ∅ res.2)
  ∧ ∀ c, c ∈ keys (base_prices e) →
    ∃ h p traffic,
      price_history e !! c = Some h
      ∧ price_history res.1 !! c = Some (h ++ [p])
      ∧ Demo.web_traffic !! c = Some traffic
      ∧ (h = [] → raw_price (_parse_user_prompt e "anything cheap") c traffic
                  = Some p)
      ∧ (h ≠ [] → ∃ m, median h = Some m ∧ (m <= p)%Q).
Proof.
  intros e res.
  assert (res.2 = Some (default ∅ res.2)) as Hds
    by (apply Some_default; by vm_compute).
  split; [exact Hds|].
  exact (X16_simulate_purchase_ratchet e "anything cheap" Demo.web_traffic (λ _, 7)
           (default ∅ res.2) Demo_keys_NoDup Hds).
Defined.

(** ** What a day keeps, whether it returns or raises *)

Lemma simulate_purchase_frame (e : ConcertPricing) (prompt : string)
    (web_traffic_dict : gmap string Z) (rng : nat → Z) :
  NoDup (keys (base_prices e)) →
  let e' := (simulate_purchase e prompt web_traffic_dict rng).1 in
  base_prices e' = base_prices e
  ∧ total_tickets e' = total_tickets e
  ∧ concert_dates e' = concert_dates e
  ∧ ∃ done, processed e e' done None ∧ untouched e e' done ∅ None.
Proof.
  intros Hnd. cbv zeta. rewrite simulate_purchase_run.
  destruct (simulate_loop_spec web_traffic_dict rng (keys (base_prices e)) 0 ∅
              (_parse_user_prompt e prompt) Hnd)
    as (done & rest & e' & r & -> & _ & _ & Hcfg & Hdone & Hother).
  { intros c Hc. by apply parse_prefs_is_Some. }
  destruct Hcfg as (Hbp & Htt & Hcd & _ & _).
  assert (processed e e' done None ∧ untouched e e' done ∅ None) as [Hp Hu].
  { split.
    - intros c Hc. destruct (Hdone c Hc) as (h & p & sold & total & n & H).
      exists h, p, sold, total, n.
      destruct H as (? & ? & ? & ? & ? & ? & _). do 6 (split; [done|]). done.
    - intros c Hc. destruct (Hother c Hc) as (? & ? & _). done. }
  destruct r as [ds|]; simpl; do 3 (split; [done|]); by exists done.
Qed.

Lemma simulate_purchase_keeps_invariants (e : ConcertPricing)
    (prompt : string) (web_traffic_dict : gmap string Z) (rng : nat → Z) :
  NoDup (keys (base_prices e)) →
  let e' := (simulate_purchase e prompt web_traffic_dict rng).1 in
  base_prices e' = base_prices e
  ∧ total_tickets e' = total_tickets e
  ∧ concert_dates e' = concert_dates e
  ∧ (never_oversold e →
     never_oversold e'
     ∧ ∀ c sold, sold_tickets e !! c = Some sold →
         ∃ sold', sold_tickets e' !! c = Some sold' ∧ sold ≤ sold').
Proof.
  intros Hnd e'.
  destruct (simulate_purchase_frame e prompt web_traffic_dict rng Hnd)
    as (Hbp & Htt & Hcd & done & Hdone & Hother).
  fold e' in Hbp, Htt, Hcd, Hdone, Hother.
  do 3 (split; [done|]). intros Hinv. split.
  - intros c total Hc. rewrite Htt in Hc.
    destruct (decide (c ∈ done)) as [Hin|Hout].
    + destruct (Hdone c Hin) as (h & p & sold & total' & n & _ & _ & Hs & Ht & Hn
                                 & Hs' & _).
      assert (total' = total) as -> by congruence.
      destruct (Hinv c total Hc) as (sold0 & Hs0 & Hle).
      assert (sold0 = sold) as -> by congruence.
      eexists. split; [done|]. lia.
    + destruct (Hother c Hout) as (_ & -> & _). by apply Hinv.
  - intros c sold Hs.
    destruct (decide (c ∈ done)) as [Hin|Hout].
    + destruct (Hdone c Hin) as (h & p & sold0 & total & n & _ & _ & Hs0 & Ht & Hn
                                 & Hs' & _).
      assert (sold0 = sold) as -> by congruence.
      destruct (Hinv c total Ht) as (sold1 & Hs1 & Hle).
      assert (sold1 = sold) as -> by congruence.
      eexists. split; [done|]. lia.
    + destruct (Hother c Hout) as (_ & -> & _). exists sold. split; [done|lia].
Qed.

(** A simulated day never changes the base prices, the inventory totals or
    the concert dates, never oversells and never takes a sale back, also
    when it raises partway. *)
Theorem X17_simulate_purchase_keeps_invariants (e : ConcertPricing)
    (prompt : string) (web_traffic_dict : gmap string Z) (rng : nat → Z) :
  NoDup (keys (base_prices e)) →
  let e' := (simulate_purchase e prompt web_traffic_dict rng).1 in
  base_prices e' = base_prices e
  ∧ total_tickets e' = total_tickets e
  ∧ concert_dates e' = concert_dates e
  ∧ (never_oversold e →
     never_oversold e'
     ∧ ∀ c sold, sold_tickets e !! c = Some sold →
         ∃ sold', sold_tickets e' !! c = Some sold' ∧ sold ≤ sold').
Proof. exact (simulate_purchase_keeps_invariants e prompt web_traffic_dict rng). Qed.

Lemma X17_simulate_purchase_keeps_invariants_witness :
  let e' := (simulate_purchase Demo.pricing "I want Coldplay"
               Demo.web_traffic_missing (λ _, 7)).1 in
  base_prices e' = base_prices Demo.pricing
  ∧ total_tickets e' = total_tickets Demo.pricing
  ∧ concert_dates e' = concert_dates Demo.pricing
  ∧ (never_oversold Demo.pricing →
     never_oversold e'
     ∧ ∀ c sold, sold_tickets Demo.pricing !! c = Some sold →
         ∃ sold', sold_tickets e' !! c = Some sold' ∧ sold ≤ sold').
Proof.
  apply (X17_simulate_purchase_keeps_invariants Demo.pricing "I want Coldplay"
           Demo.web_traffic_missing (λ _, 7)).
  exact Demo_keys_NoDup.
Defined.

(** ** Several days in a row *)

Lemma simulate_days_cons (e : ConcertPricing) (prompt : string)
    (traffic : gmap string Z) (rng : nat → Z) (rest : list DayInput) :
  simulate_days e ((prompt, traffic, rng) :: rest)
  = (let res := simulate_purchase e prompt traffic rng in
     let res' := simulate_days res.1 rest in
     (res'.1, res.2 :: res'.2)).
Proof.
  cbn [simulate_days].
  destruct (simulate_purchase e prompt traffic rng) as [e1 r]. cbn [fst snd].
  by destruct (simulate_days e1 rest) as [e2 rs].
Qed.

(** Over any sequence of days, raised or not, the tracked concerts stay
    the same and no concert gets oversold; when every day returned its
    snapshot, each tracked concert has gained exactly one price per day and
    the date has advanced by as many days. *)
Theorem X18_simulate_days_invariants (days : list DayInput) (e : ConcertPricing) :
  NoDup (keys (base_prices e)) →
  let res := simulate_days e days in
  base_prices res.1 = base_prices e
  ∧ (never_oversold e → never_oversold res.1)
  ∧ (Forall is_Some res.2 →
     current_date res.1
     = current_date e + Z.of_nat (length days) * microseconds_per_day
     ∧ ∀ c h, c ∈ keys (base_prices e) → price_history e !! c = Some h →
         ∃ appended, price_history res.1 !! c = Some (h ++ appended)
                     ∧ length appended = length days).
Proof.
  revert e. induction days as [|[[prompt traffic] rng] days IH]; intros e Hnd.
  { cbn. split; [done|]. split; [done|]. intros _. split; [lia|].
    intros c h _ Hh. exists []. by rewrite app_nil_r. }
  cbv zeta. rewrite simulate_days_cons. cbv zeta. cbn [fst snd].
  pose proof (simulate_purchase_keeps_invariants e prompt traffic rng Hnd) as Hkeep.
  cbv zeta in Hkeep. destruct Hkeep as (Hbp & _ & _ & Hsold).
  set (res := simulate_purchase e prompt traffic rng) in *.
  assert (NoDup (keys (base_prices res.1))) as Hnd' by (by rewrite Hbp).
  specialize (IH res.1 Hnd'). cbv zeta in IH.
  destruct IH as (IHbp & IHsold & IHall).
  split; [by rewrite IHbp|]. split.
  { intros Hinv. apply IHsold. by apply Hsold. }
  intros [Hr Hrest]%Forall_cons. destruct Hr as [ds Hr].
  destruct (IHall Hrest) as [IHdate IHhist].
  pose proof (simulate_purchase_spec e prompt traffic rng Hnd) as Hspec.
  destruct Hspec as (done & rest & Hspec). cbv zeta in Hspec. fold res in Hspec.
  rewrite Hr in Hspec.
  destruct Hspec as (Hsplit & _ & Hdone & _ & -> & Hdate).
  rewrite app_nil_r in Hsplit. subst done. split.
  - rewrite IHdate, Hdate. cbn [length]. lia.
  - intros c h Hc Hh.
    destruct (Hdone c Hc) as (h0 & p & ? & ? & ? & Hh0 & Hh1 & _).
    assert (h0 = h) as -> by congruence.
    destruct (IHhist c (h ++ [p])) as (appended & Happ & Hlen);
      [by rewrite Hbp|done|].
    exists (p :: appended). split; [|simpl; lia].
    rewrite Happ. by rewrite <- app_assoc.
Qed.

Lemma X18_simulate_days_invariants_witness :
  let days : list DayInput :=
    [("I want Coldplay", Demo.web_traffic, λ _, 7);
     ("cheapest", Demo.web_traffic_missing, λ _, 3);
     ("taylor swift", Demo.web_traffic, λ i, Z.of_nat i)] in
  let res := simulate_days Demo.pricing days in
  base_prices res.1 = base_prices Demo.pricing
  ∧ (never_oversold Demo.pricing → never_oversold res.1)
  ∧ (Forall is_Some res.2 →
     current_date res.1
     = current_date Demo.pricing
       + Z.of_nat (length days) * microseconds_per_day
     ∧ ∀ c h, c ∈ keys (base_prices Demo.pricing) →
         price_history Demo.pricing !! c = Some h →
         ∃ appended, price_history res.1 !! c = Some (h ++ appended)
                     ∧ length appended = length days).
Proof.
  intros days.
  exact (X18_simulate_days_invariants days Demo.pricing Demo_keys_NoDup).
Defined.

End day_more.

(** * Properties of the routes of [app.py] *)

Section app.
Import Pricing.

(** ** [get_state] *)

(** What [get_state] reports for one concert. *)
Lemma get_state_concert_Some (e : ConcertPricing) (c : string)
    (P P' : gmap string Q) (R R' F F' : gmap string Z) :
  App.get_state_concert e c (P, R, F) = Some (P', R', F') →
  ∃ h price total sold p,
    price_history e !! c = Some h
    ∧ (match last h with Some x => Some x | None => dict_get (base_prices e) c end)
      = Some price
    ∧ total_tickets e !! c = Some total
    ∧ sold_tickets e !! c = Some sold
    ∧ user_preferences e !! c = Some p
    ∧ P' = <[c := price]> P ∧ R' = <[c := total - sold]> R ∧ F' = <[c := p]> F.
Proof.
  unfold App.get_state_concert. intros H.
  destruct (price_history e !! c) as [h|]; [|done]. simpl in H.
  destruct (match last h with Some x => Some x | None => _ end) as [price|] eqn:Hp;
    [|done]. simpl in H.
  destruct (total_tickets e !! c) as [total|]; [|done]. simpl in H.
  destruct (sold_tickets e !! c) as [sold|]; [|done]. simpl in H.
  destruct (user_preferences e !! c) as [p|]; [|done]. simpl in H.
  injection H as <- <- <-. by exists h, price, total, sold, p.
Qed.

Lemma get_state_loop_spec (e : ConcertPricing) (concerts : list string) :
  ∀ (P P' : gmap string Q) (R R' F F' : gmap string Z),
    App.get_state_loop e concerts (P, R, F) = Some (P', R', F') →
    ∀ c,
      (c ∉ concerts → P' !! c = P !! c ∧ R' !! c = R !! c ∧ F' !! c = F !! c)
      ∧ (c ∈ concerts →
         ∃ h total sold,
           price_history e !! c = Some h
           ∧ total_tickets e !! c = Some total
           ∧ sold_tickets e !! c = Some sold
           ∧ P' !! c = (match last h with
                        | Some x => Some x
                        | None => dict_get (base_prices e) c
                        end)
           ∧ is_Some (P' !! c)
           ∧ R' !! c = Some (total - sold)
           ∧ F' !! c = user_preferences e !! c
           ∧ is_Some (F' !! c)).
Proof.
  induction concerts as [|k concerts IH]; intros P P' R R' F F' H c.
  { injection H as <- <- <-. split; [done|]. by intros ?%elem_of_nil. }
  cbn [App.get_state_loop] in H.
  destruct (App.get_state_concert e k (P, R, F)) as [[[P1 R1] F1]|] eqn:Hk; [|done].
  simpl in H.
  destruct (get_state_concert_Some _ _ _ _ _ _ _ _ Hk)
    as (h & price & total & sold & p & Hh & Hprice & Ht & Hs & Hp & -> & -> & ->).
  destruct (IH _ _ _ _ _ _ H c) as [Hout Hin]. split.
  - intros [Hne Hc]%not_elem_of_cons. destruct (Hout Hc) as (-> & -> & ->).
    by rewrite !lookup_insert_ne.
  - intros Hc. destruct (decide (c ∈ concerts)) as [Hc'|Hc']; [by apply Hin|].
    apply elem_of_cons in Hc as [->|Hc]; [|done].
    destruct (Hout Hc') as (-> & -> & ->). rewrite !lookup_insert_eq.
    exists h, total, sold. rewrite Hprice, Hp. by repeat split.
Qed.

Lemma get_state_loop_is_Some (e : ConcertPricing) (concerts : list string) :
  (∀ c, c ∈ concerts →
        ready e c ∧ is_Some (user_preferences e !! c)) →
  ∀ acc, is_Some (App.get_state_loop e concerts acc).
Proof.
  induction concerts as [|k concerts IH]; intros Hready acc; [by eexists|].
  cbn [App.get_state_loop].
  destruct (Hready k) as (([base Hb] & _ & (total & Ht & _) & [sold Hs] & [h Hh])
                          & [p Hp]); [left|].
  destruct acc as [[P R] F]. unfold App.get_state_concert.
  rewrite Hh, Hb, Ht, Hs, Hp. simpl.
  destruct (last h); simpl; apply IH; intros c Hc; apply Hready; by right.
Qed.

Lemma get_state_spec (e : ConcertPricing) :
  ((∀ c, c ∈ keys (base_prices e) →
         ready e c ∧ is_Some (user_preferences e !! c)) →
   is_Some (App.get_state e))
  ∧ ∀ st, App.get_state e = Some st →
      App.date st = current_date e
      ∧ (∀ c, c ∉ keys (base_prices e) →
              App.prices st !! c = None ∧ App.remaining st !! c = None
              ∧ App.preference st !! c = None)
      ∧ (∀ c, c ∈ keys (base_prices e) →
              ∃ h total sold,
                price_history e !! c = Some h
                ∧ total_tickets e !! c = Some total
                ∧ sold_tickets e !! c = Some sold
                ∧ App.prices st !! c
                  = (match last h with
                     | Some x => Some x
                     | None => dict_get (base_prices e) c
                     end)
                ∧ App.remaining st !! c = Some (total - sold)
                ∧ App.preference st !! c = user_preferences e !! c).
Proof.
  unfold App.get_state. split.
  - intros Hready.
    destruct (get_state_loop_is_Some e _ Hready (∅, ∅, ∅)) as [[[P R] F] ->].
    by eexists.
  - intros st Hst.
    destruct (App.get_state_loop e (keys (base_prices e)) (∅, ∅, ∅))
      as [[[P R] F]|] eqn:Hloop; [|done].
    simpl in Hst. injection Hst as <-. simpl. split; [done|].
    pose proof (get_state_loop_spec e _ _ _ _ _ _ _ Hloop) as Hspec. split.
    + intros c Hc. destruct (proj1 (Hspec c) Hc) as (-> & -> & ->). done.
    + intros c Hc.
      destruct (proj2 (Hspec c) Hc) as (h & total & sold & ? & ? & ? & ? & _ & ? & ? & _).
      by exists h, total, sold.
Qed.

Lemma get_state_loop_defined (e : ConcertPricing) (concerts : list string) :
  (∀ c, c ∈ concerts →
        c ∈ keys (base_prices e)
        ∧ is_Some (price_history e !! c)
        ∧ is_Some (total_tickets e !! c)
        ∧ is_Some (sold_tickets e !! c)
        ∧ is_Some (user_preferences e !! c)) →
  ∀ acc, is_Some (App.get_state_loop e concerts acc).
Proof.
  induction concerts as [|k concerts IH]; intros Hin acc; [by eexists|].
  cbn [App.get_state_loop].
  destruct (Hin k) as (Hk & [h Hh] & [total Ht] & [sold Hs] & [p Hp]); [left|].
  destruct (dict_get_is_Some _ _ Hk) as [base Hb].
  destruct acc as [[P R] F]. unfold App.get_state_concert.
  rewrite Hh, Hb, Ht, Hs, Hp. simpl.
  destruct (last h); simpl; apply IH; intros c Hc; apply Hin; by right.
Qed.

Lemma get_state_defined_iff (e : ConcertPricing) :
  is_Some (App.get_state e)
  ↔ ∀ c, c ∈ keys (base_prices e) →
         is_Some (price_history e !! c)
         ∧ is_Some (total_tickets e !! c)
         ∧ is_Some (sold_tickets e !! c)
         ∧ is_Some (user_preferences e !! c).
Proof.
  unfold App.get_state. split.
  - intros [st Hst] c Hc.
    destruct (App.get_state_loop e (keys (base_prices e)) (∅, ∅, ∅))
      as [[[P R] F]|] eqn:Hloop; [|done].
    destruct (proj2 (get_state_loop_spec e _ _ _ _ _ _ _ Hloop c) Hc)
      as (h & total & sold & Hh & Ht & Hs & _ & _ & _ & HF & HF').
    rewrite HF in HF'. rewrite Hh, Ht, Hs. by repeat split.
  - intros Hin.
    destruct (get_state_loop_defined e (keys (base_prices e))) with (acc := (∅ : gmap string Q, ∅ : gmap string Z, ∅ : gmap string Z))
      as [[[P R] F] ->]; [|by eexists].
    intros c Hc. split; [done|by apply Hin].
Qed.

(** [get_state] returns exactly when every tracked concert has an entry
    in the price history, the totals, the sold counts and the preferences:
    it reads neither the concert dates nor the traffic and never divides,
    so a zero total does not make it raise. What it returns lists the
    tracked concerts and them only: for each one the last price of its
    history, or its base price while the history is empty, the tickets
    that remain and the current preference, with the current date. *)
Theorem X19_get_state_spec (e : ConcertPricing) :
  (is_Some (App.get_state e)
   ↔ ∀ c, c ∈ keys (base_prices e) →
          is_Some (price_history e !! c)
          ∧ is_Some (total_tickets e !! c)
          ∧ is_Some (sold_tickets e !! c)
          ∧ is_Some (user_preferences e !! c))
  ∧ ∀ st, App.get_state e = Some st →
      App.date st = current_date e
      ∧ (∀ c, c ∉ keys (base_prices e) →
              App.prices st !! c = None ∧ App.remaining st !! c = None
              ∧ App.preference st !! c = None)
      ∧ (∀ c, c ∈ keys (base_prices e) →
              ∃ h total sold,
                price_history e !! c = Some h
                ∧ total_tickets e !! c = Some total
                ∧ sold_tickets e !! c = Some sold
                ∧ App.prices st !! c
                  = (match last h with
                     | Some x => Some x
                     | None => dict_get (base_prices e) c
                     end)
                ∧ App.remaining st !! c = Some (total - sold)
                ∧ App.preference st !! c = user_preferences e !! c).
Proof.
  split; [exact (get_state_defined_iff e)|exact (proj2 (get_state_spec e))].
Qed.

(** An engine built with a zero total: the state query returns. *)
Example get_state_zero_total :
  let e := init Demo.base_prices (<["Coldplay" := 0]> Demo.total_tickets)
             Demo.concert_dates 0 in
  get_price e "Coldplay" 50 = None
  ∧ App.remaining <$> App.get_state e
    = Some {[ "Coldplay" := 0; "Arijit Singh" := 1500; "Taylor Swift" := 2000 ]}.
Proof. split; reflexivity. Qed.

(** After a day that returned its snapshot the state query reports, for
    every concert, the price, the remaining tickets and the preference that
    the snapshot recorded, and the advanced date. *)
Theorem X20_get_state_after_day (e : ConcertPricing) (prompt : string)
    (web_traffic_dict : gmap string Z) (rng : nat → Z)
    (ds : gmap string DayEntry) :
  NoDup (keys (base_prices e)) →
  let res := simulate_purchase e prompt web_traffic_dict rng in
  res.2 = Some ds →
  ∃ st, App.get_state res.1 = Some st
        ∧ App.date st = current_date e + microseconds_per_day
        ∧ ∀ c entry, ds !! c = Some entry →
            App.prices st !! c = Some (Price entry)
            ∧ App.remaining st !! c = Some (Remaining entry)
            ∧ App.preference st !! c = Some (Preference entry).
Proof.
  intros Hnd res Hds.
  destruct (simulate_purchase_snapshot e prompt web_traffic_dict rng ds Hnd Hds)
    as [Hdom Hok]. fold res in Hok.
  destruct (simulate_purchase_keeps_invariants e prompt web_traffic_dict rng Hnd)
    as (Hbp & Htt & Hcd & _). fold res in Hbp, Htt, Hcd.
  destruct (simulate_purchase_spec e prompt web_traffic_dict rng Hnd)
    as (done & rest & Hspec). cbv zeta in Hspec. fold res in Hspec.
  rewrite Hds in Hspec. destruct Hspec as (_ & Hup & Hdone & _ & _ & Hdate).
  assert (∀ c, c ∈ keys (base_prices e) →
            ∃ entry, ds !! c = Some entry
                     ∧ day_entry_ok (_parse_user_prompt e prompt)
                         web_traffic_dict res.1 c entry) as Hentries.
  { intros c Hc. destruct (proj1 (Hdom c) Hc) as [entry Hentry].
    exists entry. split; [done|by apply Hok]. }
  destruct (get_state_spec res.1) as [Htotal Hstate].
  destruct Htotal as [st Hst].
  { rewrite Hbp. intros c Hc.
    destruct (Hentries c Hc)
      as (entry & _ & traffic & h & total & sold & _ & _ & Ht & _ & Hprice & Hh
          & Hs & _ & _ & _ & _ & Hp & _).
    destruct (proj1 (get_price_defined_iff_ready _ _ _) (mk_is_Some _ _ Hprice))
      as (Hb & Hd & _).
    split.
    - split; [by rewrite Hbp|]. split; [by rewrite Hcd|].
      destruct (proj1 (get_price_defined_iff_ready _ _ _) (mk_is_Some _ _ Hprice))
        as (_ & _ & (total' & Ht' & Hne) & _).
      split; [exists total'; by rewrite Htt|]. split; by eexists.
    - rewrite Hup. by eexists. }
  exists st. split; [done|].
  destruct (Hstate st Hst) as (Hd & _ & Hin). split; [by rewrite Hd|].
  intros c entry Hentry.
  assert (c ∈ keys (base_prices res.1)) as Hc
    by (rewrite Hbp; apply Hdom; by eexists).
  destruct (Hin c Hc) as (h' & total' & sold' & Hh' & Ht' & Hs' & HP & HR & HF).
  destruct (Hok c entry Hentry)
    as (traffic & h & total & sold & _ & _ & Ht & _ & _ & Hh & Hs & _ & _ & Hrem
        & _ & Hp & _).
  rewrite Hh in Hh'. injection Hh' as <-. rewrite last_snoc in HP.
  rewrite Hs in Hs'. injection Hs' as <-.
  rewrite Htt in Ht'. simpl in Ht. rewrite Ht in Ht'. injection Ht' as <-.
  rewrite Hup in HF. by rewrite HP, HR, HF, Hrem.
Qed.

Lemma X20_get_state_after_day_witness :
  let res := simulate_purchase Demo.pricing "I want Coldplay"
               Demo.web_traffic (λ _, 7) in
  res.2 = Some (default ∅ res.2)
  ∧ ∃ st, App.get_state res.1 = Some st
          ∧ App.date st = current_date Demo.pricing + microseconds_per_day
          ∧ ∀ c entry, default ∅ res.2 !! c = Some entry →
              App.prices st !! c = Some (Price entry)
              ∧ App.remaining st !! c = Some (Remaining entry)
              ∧ App.preference st !! c = Some (Preference entry).
Proof.
  intros res.
  assert (res.2 = Some (default ∅ res.2)) as Hds
    by (apply Some_default; by vm_compute).
  split; [exact Hds|].
  exact (X20_get_state_after_day Demo.pricing "I want Coldplay" Demo.web_traffic
           (λ _, 7) (default ∅ res.2) Demo_keys_NoDup Hds).
Defined.

(** ** [buy] *)

Lemma imap_keys {A} (g : nat → string → A) (l : list string) :
  (imap (λ i c, (c, g i c)) l).*1 = l.
Proof.
  revert g. induction l as [|c l IH]; intros g; [done|].
  cbn. f_equal. apply (IH (λ i, g (S i))).
Qed.

(** Every concert gets a traffic value, between [lo] and 100. *)
Lemma generate_traffic_lookup (lo : Z) (concerts : list string) (rng : nat → Z)
    (c : string) :
  lo ≤ 100 → c ∈ concerts →
  ∃ t, App.generate_traffic lo concerts rng !! c = Some t ∧ lo ≤ t ≤ 100.
Proof.
  intros Hlo Hc. unfold App.generate_traffic.
  destruct (list_to_map (M := gmap string Z)
              (imap (λ i c, (c, randint lo 100 (rng i))) concerts) !! c)
    as [t|] eqn:E.
  - exists t. split; [done|]. apply elem_of_list_to_map_2 in E.
    apply elem_of_lookup_imap in E as (i & k & [= -> ->] & _).
    by apply randint_range.
  - apply not_elem_of_list_to_map in E. exfalso. apply E.
    by rewrite (imap_keys (λ i _, randint lo 100 (rng i))).
Qed.

(** The standalone scorer as [buy] calls it: preference 50, five bins,
    threshold 2.0. *)
Lemma RewardFunc_default_reward (h : list Q) (p : Q) :
  h ≠ [] →
  ∃ r b bins,
    RewardFunc.calculate_reward h p RewardFunc.default_preference 5
      RewardFunc.default_threshold = Some (r, Some b, bins)
    ∧ 1 ≤ b ≤ 5
    ∧ (r == -1 ∨ r == 0 ∨ r == 1 ∨ r == 3 ∨ r == 4)%Q.
Proof.
  intros Hne.
  destruct (list_min_is_Some h Hne) as [lo Hlo].
  destruct (list_max_is_Some h Hne) as [hi Hhi].
  destruct (Qeq_bool lo hi) eqn:Heq.
  - eexists _, 1, _. split; [by eapply RewardFunc_degenerate|].
    split; [lia|]. do 4 right. reflexivity.
  - destruct (locate_bin_Some lo hi p 5) as (bins & Hb & _); [lia|].
    eexists _, _, bins. split; [by eapply RewardFunc_spread|].
    destruct (RewardFunc_bin_range 5 (digitize (clip p lo hi) bins)) as [Hbin Hbase];
      [lia|].
    split; [done|].
    set (base := RewardFunc.base_reward 5 _) in *.
    assert (base = 0 ∨ base = 1 ∨ base = 2 ∨ base = 3 ∨ base = 4)
      as [->|[->|[->|[->| ->]]]] by lia; vm_compute; tauto.
Qed.

(** [buy] on an engine whose tracked concerts are all ready never raises
    and always simulates the day. For an unknown concert it answers
    "concert not found", after the day has been simulated. For a tracked
    concert the logged price is the price just appended to its history, the
    bin index lies in [1 .. 5], the reward is one of -1, 0, 1, 3 and 4
    (the preference plays no part: the scorer is called with its default
    50), and every concert had a traffic value between 20 and 100. *)
Theorem X21_buy_spec (e : ConcertPricing) (concert prompt : string) (rng : nat → Z) :
  NoDup (keys (base_prices e)) →
  (∀ c, c ∈ keys (base_prices e) → ready e c) →
  let res := App.buy e concert prompt rng in
  current_date res.1 = current_date e + microseconds_per_day
  ∧ (concert ∉ keys (base_prices e) → res.2 = Some App.ConcertNotFound)
  ∧ (concert ∈ keys (base_prices e) →
     ∃ entry h b,
       res.2 = Some (App.Bought entry)
       ∧ price_history e !! concert = Some h
       ∧ price_history res.1 !! concert = Some (h ++ [App.entry_price entry])
       ∧ App.entry_bin_index entry = Some b ∧ 1 ≤ b ≤ 5
       ∧ (App.entry_reward entry == -1 ∨ App.entry_reward entry == 0
          ∨ App.entry_reward entry == 1 ∨ App.entry_reward entry == 3
          ∨ App.entry_reward entry == 4)%Q
       ∧ App.entry_date entry = current_date res.1
       ∧ ∀ c, c ∈ keys (base_prices e) →
           ∃ t, App.entry_web_traffic entry !! c = Some t ∧ 20 ≤ t ≤ 100).
Proof.
  intros Hnd Hready res. subst res. unfold App.buy.
  set (traffic := App.generate_traffic 20 (keys (base_prices e)) rng).
  set (rng' := λ i : nat, rng (length (keys (base_prices e)) + i)%nat).
  assert (∀ c, c ∈ keys (base_prices e) →
            ∃ t, traffic !! c = Some t ∧ 20 ≤ t ≤ 100) as Htraffic
    by (intros c Hc; by apply generate_traffic_lookup).
  destruct (simulate_loop_succeeds traffic rng' (keys (base_prices e)) 0 ∅
              (_parse_user_prompt e prompt)) as (e1 & ds & Hloop).
  { intros c Hc. split; [exact (Hready c Hc)|].
    split; [by apply parse_prefs_is_Some|].
    destruct (Htraffic c Hc) as (t & -> & _). by eexists. }
  pose proof (simulate_purchase_run e prompt traffic rng') as Hrun.
  rewrite Hloop in Hrun.
  assert ((simulate_purchase e prompt traffic rng').2 = Some ds) as Hds
    by (by rewrite Hrun).
  destruct (simulate_purchase_snapshot e prompt traffic rng' ds Hnd Hds)
    as [Hdom Hok].
  destruct (simulate_purchase_spec e prompt traffic rng' Hnd)
    as (done & rest & Hspec). cbv zeta in Hspec. rewrite Hds in Hspec.
  destruct Hspec as (_ & _ & _ & _ & _ & Hdate).
  rewrite Hrun in *. cbn [fst snd] in *.
  set (e' := set_current_date e1 _) in *.
  split; [done|]. split.
  - intros Hc. cbn. destruct (ds !! concert) as [entry|] eqn:Hentry; [|done].
    exfalso. apply Hc, Hdom. by eexists.
  - intros Hc. destruct (proj1 (Hdom concert) Hc) as [snapshot Hsnap].
    cbn. rewrite Hsnap. cbn.
    destruct (Hok concert snapshot Hsnap)
      as (t & h & total & sold & _ & Hh & _ & _ & _ & Hh' & _).
    subst e'. cbn in Hh'. rewrite Hh'. cbn.
    destruct (RewardFunc_default_reward (h ++ [Price snapshot]) (Price snapshot))
      as (r & b & bins & -> & Hb & Hr); [by destruct h|].
    cbn. eexists _, h, b. split; [reflexivity|]. cbn.
    split; [exact Hh|]. do 3 (split; [done|]). split; [exact Hr|].
    split; [done|exact Htraffic].
Qed.

Lemma X21_buy_spec_witness :
  let res := App.buy Demo.pricing "Coldplay" "two for coldplay" (λ i, 37 * Z.of_nat i) in
  current_date res.1 = current_date Demo.pricing + microseconds_per_day
  ∧ ("Coldplay" ∉ keys (base_prices Demo.pricing) →
     res.2 = Some App.ConcertNotFound)
  ∧ ("Coldplay" ∈ keys (base_prices Demo.pricing) →
     ∃ entry h b,
       res.2 = Some (App.Bought entry)
       ∧ price_history Demo.pricing !! "Coldplay" = Some h
       ∧ price_history res.1 !! "Coldplay" = Some (h ++ [App.entry_price entry])
       ∧ App.entry_bin_index entry = Some b ∧ 1 ≤ b ≤ 5
       ∧ (App.entry_reward entry == -1 ∨ App.entry_reward entry == 0
          ∨ App.entry_reward entry == 1 ∨ App.entry_reward entry == 3
          ∨ App.entry_reward entry == 4)%Q
       ∧ App.entry_date entry = current_date res.1
       ∧ ∀ c, c ∈ keys (base_prices Demo.pricing) →
           ∃ t, App.entry_web_traffic entry !! c = Some t ∧ 20 ≤ t ≤ 100).
Proof.
  apply (X21_buy_spec Demo.pricing "Coldplay" "two for coldplay" (λ i, 37 * Z.of_nat i)).
  - exact Demo_keys_NoDup.
  - intros c Hc. apply (get_price_defined_iff_ready Demo.pricing c 0).
    cbn in Hc. rewrite !elem_of_cons, elem_of_nil in Hc.
    destruct Hc as [->|[->|[->|[]]]]; vm_compute; by eexists.
Defined.

End app.

(** * The variant of [testy.py] against [pricing.py] *)

Section testy.
Import Pricing.

Lemma Testy_assign_preferences_lookup (selected : option string)
    (concerts : list string) (prefs : gmap string Z) (c : string) :
  Testy.assign_preferences selected concerts prefs !! c
  = if decide (c ∈ concerts)
    then Some (if decide (Some c = selected) then high_preference
               else Testy.low_preference)
    else prefs !! c.
Proof.
  unfold Testy.assign_preferences.
  revert prefs. induction concerts as [|k concerts IH]; intros prefs;
    cbn [fold_left].
  - rewrite decide_False; [done|]. apply not_elem_of_nil.
  - rewrite IH. destruct (decide (c ∈ concerts)) as [Hin|Hnin].
    + rewrite (decide_True (P := c ∈ k :: concerts)); [done|]. by right.
    + destruct (decide (c ∈ k :: concerts)) as [Hin'|Hnin'].
      * apply elem_of_cons in Hin' as [->|?]; [|done].
        case_decide; by rewrite lookup_insert_eq.
      * apply not_elem_of_cons in Hnin' as [? _].
        case_decide; by rewrite lookup_insert_ne.
Qed.

Lemma dict_get_Some_keys {V} (d : list (string * V)) (c : string) (v : V) :
  dict_get d c = Some v → c ∈ keys d.
Proof.
  unfold keys. induction d as [|[k w] d IH]; simpl; [done|].
  case_decide; [subst; by left|]. intros Hget. right. by apply IH.
Qed.

(** The two methods score alike whenever the preference is at least 30;
    below 30 the method of [pricing.py] subtracts 1.5 where [testy.py]
    subtracts 0.5, so it never returns more. *)
Theorem X22_testy_reward_vs_pricing (e : ConcertPricing) (c : string) (p : Q)
    (nb : Z) :
  (30 ≤ default 50 (user_preferences e !! c) →
   Testy.calculate_reward e c p nb = calculate_reward e c p nb)
  ∧ (∀ r1 r2, calculate_reward e c p nb = Some r1 →
              Testy.calculate_reward e c p nb = Some r2 → (r1 <= r2)%Q).
Proof.
  unfold Testy.calculate_reward, calculate_reward.
  destruct (price_history e !! c) as [h|]; [|done]. simpl.
  destruct h as [|x h].
  { split; [done|]. intros r1 r2 [= <-] [= <-]. lra. }
  destruct (list_min (x :: h)) as [lo|]; [|done].
  destruct (list_max (x :: h)) as [hi|]; [|done]. simpl.
  destruct (Qeq_bool lo hi).
  { split; [done|]. intros r1 r2 [= <-] [= <-]. lra. }
  destruct (locate_bin lo hi p nb) as [[b bins]|]; [|done]. simpl.
  set (pref := default 50 (user_preferences e !! c)).
  set (base := inject_Z (base_reward nb b)). split.
  - intros Hpref. unfold Testy.preference_adjustment, preference_adjustment.
    repeat case_decide; try lia; done.
  - intros r1 r2 [= <-] [= <-]. apply fmax_mono.
    unfold Testy.preference_adjustment, preference_adjustment.
    repeat case_decide; lra.
Qed.

(** Each variant after its own keyword parser computes the same price for
    every concert and every traffic value: the unselected concerts hold 40
    in one and 20 in the other, and both fall in the low band of their own
    [_preference_multiplier]. *)
Theorem X23_testy_prices_agree (e : ConcertPricing) (prompt c : string)
    (traffic : Z) :
  Testy.get_price (Testy._parse_user_prompt e prompt) c traffic
  = get_price (_parse_user_prompt e prompt) c traffic.
Proof.
  unfold Testy.get_price, get_price. f_equal.
  unfold Testy.raw_price, raw_price. simpl base_prices.
  destruct (dict_get (base_prices e) c) as [base|] eqn:Hb; [|done]. simpl.
  apply dict_get_Some_keys in Hb.
  assert (Testy._preference_multiplier (Testy._parse_user_prompt e prompt) c
          = _preference_multiplier (_parse_user_prompt e prompt) c) as ->; [|done].
  unfold Testy._preference_multiplier, _preference_multiplier,
    Testy._parse_user_prompt, _parse_user_prompt. simpl.
  rewrite Testy_assign_preferences_lookup, assign_preferences_lookup.
  destruct (decide (c ∈ keys (base_prices e))); [|done]. simpl.
  by destruct (decide (Some c = select_concert (lower prompt) (keys (base_prices e)))).
Qed.

End testy.

(** * Properties of the fallback decision and of [llm_buy] *)

Section llm.
Import Pricing.

Lemma min_key_from_spec (rest : list (string * Q)) :
  ∀ best best_price,
    ∃ v, (LlmClient.min_key_from best best_price rest, v)
           ∈ (best, best_price) :: rest
         ∧ ∀ k' v', (k', v') ∈ (best, best_price) :: rest → (v <= v')%Q.
Proof.
  induction rest as [|[k w] rest IH]; intros best bp; simpl.
  - exists bp. split; [left|]. intros k' v' [= -> ->]%list_elem_of_singleton. lra.
  - case_Qltb.
    + destruct (IH k w) as (v & Hin & Hmin). exists v. split.
      * right. exact Hin.
      * assert (v <= w)%Q by (apply (Hmin k w); left).
        intros k' v' [[= -> ->]|Hk]%elem_of_cons; [lra|by eapply Hmin].
    + destruct (IH best bp) as (v & Hin & Hmin). exists v. split.
      * apply elem_of_cons in Hin as [->|Hin]; [left|do 2 right; done].
      * assert (v <= bp)%Q by (apply (Hmin best bp); left).
        intros k' v' [[= -> ->]|[[= -> ->]|Hk]%elem_of_cons]%elem_of_cons.
        -- done.
        -- lra.
        -- eapply Hmin. by right.
Qed.

Lemma fallback_spec (user_prompt : string)
    (state_prices : option (list (string * Q)))
    (available_artists : list string) (raw : Z) :
  let decision := LlmClient.fallback user_prompt state_prices
                    available_artists raw in
  (∀ a, select_concert (lower user_prompt) available_artists = Some a →
        decision = Some a)
  ∧ (available_artists ≠ [] → is_Some decision)
  ∧ (∀ a, decision = Some a →
          a ∈ available_artists
          ∨ (contains "cheapest" (lower user_prompt) = true
             ∧ ∃ prices v, state_prices = Some prices ∧ (a, v) ∈ prices
                           ∧ ∀ k' v', (k', v') ∈ prices → (v <= v')%Q)).
Proof.
  intros decision. subst decision. unfold LlmClient.fallback.
  pose proof (select_concert_first_match (lower user_prompt) available_artists)
    as Hfirst.
  destruct (select_concert (lower user_prompt) available_artists) as [a0|].
  { split; [done|]. split; [by eexists|]. intros a [= <-]. left.
    destruct Hfirst as (before & after & -> & _). apply elem_of_app. right. left. }
  split; [done|].
  assert (∀ a, LlmClient.random_choice available_artists raw = Some a →
               a ∈ available_artists) as Hchoice.
  { intros a Ha. unfold LlmClient.random_choice in Ha.
    by eapply list_elem_of_lookup_2. }
  assert (available_artists ≠ [] →
          is_Some (LlmClient.random_choice available_artists raw)) as Htotal.
  { intros Hne. unfold LlmClient.random_choice. apply lookup_lt_is_Some.
    assert (0 < Z.of_nat (length available_artists))
      by (destruct available_artists; [done|simpl; lia]).
    pose proof (Z.mod_pos_bound raw (Z.of_nat (length available_artists))). lia. }
  destruct (contains "cheapest" (lower user_prompt)) eqn:Hcheap.
  2:{ split; [done|]. intros a Ha. left. by apply Hchoice. }
  destruct state_prices as [prices|]; simpl.
  2:{ split; [done|]. intros a Ha. left. by apply Hchoice. }
  destruct prices as [|[k v] rest]; simpl.
  { split; [done|]. intros a Ha. left. by apply Hchoice. }
  split; [by eexists|]. intros a [= <-]. right. split; [done|].
  destruct (min_key_from_spec rest k v) as (v0 & Hin & Hmin).
  by exists ((k, v) :: rest), v0.
Qed.

Lemma min_key_from_first (rest : list (string * Q)) :
  ∀ best best_price,
    ∃ v before after,
      (best, best_price) :: rest
      = before ++ (LlmClient.min_key_from best best_price rest, v) :: after
      ∧ (∀ k' v', (k', v') ∈ before → (v < v')%Q)
      ∧ (∀ k' v', (k', v') ∈ after → (v <= v')%Q).
Proof.
  induction rest as [|[k w] rest IH]; intros best bp; simpl.
  { exists bp, [], []. split; [done|].
    split; intros k' v' Hin; by apply elem_of_nil in Hin. }
  case_Qltb.
  - destruct (IH k w) as (v & before & after & Hsplit & Hbefore & Hafter).
    assert (v <= w)%Q as Hvw.
    { destruct before as [|[k0 w0] before]; simpl in Hsplit.
      - injection Hsplit as _ <- _. lra.
      - injection Hsplit as <- <- _.
        assert (v < w)%Q by (apply (Hbefore k); left). lra. }
    exists v, ((best, bp) :: before), after. simpl. rewrite Hsplit.
    split; [done|]. split; [|done].
    intros k' v' [[= -> ->]|Hin]%elem_of_cons; [lra|by eapply Hbefore].
  - destruct (IH best bp) as (v & before & after & Hsplit & Hbefore & Hafter).
    destruct before as [|[k0 w0] before]; simpl in Hsplit.
    + injection Hsplit as Hk <- <-.
      exists bp, [], ((k, w) :: rest). simpl. rewrite <- Hk.
      split; [done|]. split.
      * intros k' v' Hin. by apply elem_of_nil in Hin.
      * intros k' v' [[= -> ->]|Hin]%elem_of_cons; [lra|by eapply Hafter].
    + injection Hsplit as <- <- Hrest.
      assert (v < bp)%Q by (apply (Hbefore best); left).
      exists v, ((best, bp) :: (k, w) :: before), after.
      split; [simpl; by rewrite <- Hrest|]. split; [|done].
      intros k' v' [[= -> ->]|[[= -> ->]|Hin]%elem_of_cons]%elem_of_cons.
      * done.
      * lra.
      * apply (Hbefore k'). by right.
Qed.

Lemma fallback_cases (user_prompt : string)
    (state_prices : option (list (string * Q)))
    (available_artists : list string) (raw : Z) :
  let low := lower user_prompt in
  let decision := LlmClient.fallback user_prompt state_prices
                    available_artists raw in
  (∀ a, select_concert low available_artists = Some a → decision = Some a)
  ∧ (select_concert low available_artists = None →
     (contains "cheapest" low = true →
      ∀ prices, state_prices = Some prices → prices ≠ [] →
        ∃ a v before after,
          decision = Some a
          ∧ prices = before ++ (a, v) :: after
          ∧ (∀ k' v', (k', v') ∈ before → (v < v')%Q)
          ∧ (∀ k' v', (k', v') ∈ after → (v <= v')%Q))
     ∧ (contains "cheapest" low = false ∨ state_prices = None
        ∨ state_prices = Some [] →
        decision
        = available_artists
            !! Z.to_nat (raw `mod` Z.of_nat (length available_artists))
        ∧ (∀ a, decision = Some a → a ∈ available_artists)
        ∧ (available_artists ≠ [] → is_Some decision)))
  ∧ (decision = None → available_artists = []).
Proof.
  intros low decision. subst low decision. unfold LlmClient.fallback.
  assert (∀ a, LlmClient.random_choice available_artists raw = Some a →
               a ∈ available_artists) as Hchoice.
  { intros a Ha. unfold LlmClient.random_choice in Ha.
    by eapply list_elem_of_lookup_2. }
  assert (available_artists ≠ [] →
          is_Some (LlmClient.random_choice available_artists raw)) as Htotal.
  { intros Hne. unfold LlmClient.random_choice. apply lookup_lt_is_Some.
    assert (0 < Z.of_nat (length available_artists))
      by (destruct available_artists; [done|simpl; lia]).
    pose proof (Z.mod_pos_bound raw (Z.of_nat (length available_artists))). lia. }
  assert (LlmClient.random_choice available_artists raw = None →
          available_artists = []) as Hnone.
  { intros Hn. destruct available_artists as [|a l]; [done|].
    destruct Htotal as [x Hx]; [done|]. congruence. }
  destruct (select_concert (lower user_prompt) available_artists) as [a0|].
  { split; [done|]. split; intros [=]. }
  split; [done|].
  destruct (contains "cheapest" (lower user_prompt)) eqn:Hcheap.
  2:{ split; [|exact Hnone]. intros _. split; [done|]. intros _. done. }
  destruct state_prices as [prices|]; simpl.
  2:{ split; [|exact Hnone]. intros _. split; [done|]. intros _. done. }
  destruct prices as [|[k v] rest]; simpl.
  { split; [|exact Hnone]. intros _. split; [by intros _ prices [= <-]|].
    intros _. done. }
  split; [|done]. intros _. split.
  - intros _ prices [= <-] _.
    destruct (min_key_from_first rest k v) as (v0 & before & after & H).
    by exists (LlmClient.min_key_from k v rest), v0, before, after.
  - intros [?|[?|?]]; done.
Qed.

(** The fallback decision. An artist named in the prompt wins: the
    decision is the first one, in the order of the list. With no artist
    named, a prompt saying "cheapest" with readable, non-empty prices gives
    the first key of the state whose price is the lowest, whether or not it
    is an available artist. In every other case the decision is the
    available artist at the index drawn. The fallback raises only when no
    artist is available. *)
Theorem X24_fallback_spec (user_prompt : string)
    (state_prices : option (list (string * Q)))
    (available_artists : list string) (raw : Z) :
  let low := lower user_prompt in
  let decision := LlmClient.fallback user_prompt state_prices
                    available_artists raw in
  (∀ a, select_concert low available_artists = Some a → decision = Some a)
  ∧ (select_concert low available_artists = None →
     (contains "cheapest" low = true →
      ∀ prices, state_prices = Some prices → prices ≠ [] →
        ∃ a v before after,
          decision = Some a
          ∧ prices = before ++ (a, v) :: after
          ∧ (∀ k' v', (k', v') ∈ before → (v < v')%Q)
          ∧ (∀ k' v', (k', v') ∈ after → (v <= v')%Q))
     ∧ (contains "cheapest" low = false ∨ state_prices = None
        ∨ state_prices = Some [] →
        decision
        = available_artists
            !! Z.to_nat (raw `mod` Z.of_nat (length available_artists))
        ∧ (∀ a, decision = Some a → a ∈ available_artists)
        ∧ (available_artists ≠ [] → is_Some decision)))
  ∧ (decision = None → available_artists = []).
Proof.
  exact (fallback_cases user_prompt state_prices available_artists raw).
Qed.

(** The cheapest concert of the state is chosen, not the artist drawn. *)
Example fallback_cheapest :
  LlmClient.fallback "the CHEAPEST seat please" (Some Demo.base_prices)
    (keys Demo.base_prices) 0 = Some "Arijit Singh"
  ∧ LlmClient.fallback "a cheap seat please" (Some Demo.base_prices)
      (keys Demo.base_prices) 0 = Some "Coldplay"
  ∧ LlmClient.fallback "the cheapest seat please" None
      (keys Demo.base_prices) 2 = Some "Taylor Swift".
Proof. repeat split; reflexivity. Qed.

(** When the prompt names a tracked concert, the fallback decides for the
    very concert that the engine's parser gives the high preference. *)
Theorem X25_fallback_agrees_with_parser (e : ConcertPricing) (user_prompt : string)
    (state_prices : option (list (string * Q))) (raw : Z) (a : string) :
  select_concert (lower user_prompt) (keys (base_prices e)) = Some a →
  LlmClient.fallback user_prompt state_prices (keys (base_prices e)) raw = Some a
  ∧ user_preferences (_parse_user_prompt e user_prompt) !! a = Some 95
  ∧ ∀ c, c ∈ keys (base_prices e) → c ≠ a →
         user_preferences (_parse_user_prompt e user_prompt) !! c = Some 40.
Proof.
  intros Hsel.
  destruct (fallback_spec user_prompt state_prices (keys (base_prices e)) raw)
    as (Hkey & _). split; [by apply Hkey|].
  pose proof (select_concert_first_match (lower user_prompt) (keys (base_prices e)))
    as Hfirst. rewrite Hsel in Hfirst.
  destruct Hfirst as (before & after & Hsplit & _).
  assert (a ∈ keys (base_prices e)) as Ha
    by (rewrite Hsplit; apply elem_of_app; right; left).
  destruct (parse_user_prompt_preferences e user_prompt) as (Hin & _).
  cbv zeta in Hin. rewrite Hsel in Hin. split.
  - rewrite (Hin a Ha). by rewrite decide_True.
  - intros c Hc Hne. rewrite (Hin c Hc). rewrite decide_False; [done|]. congruence.
Qed.

Lemma X25_fallback_agrees_with_parser_witness :
  LlmClient.fallback "cheapest TAYLOR SWIFT seat" None
    (keys (base_prices Demo.pricing)) 5 = Some "Taylor Swift"
  ∧ user_preferences
      (_parse_user_prompt Demo.pricing "cheapest TAYLOR SWIFT seat")
      !! "Taylor Swift" = Some 95
  ∧ ∀ c, c ∈ keys (base_prices Demo.pricing) → c ≠ "Taylor Swift" →
         user_preferences
           (_parse_user_prompt Demo.pricing "cheapest TAYLOR SWIFT seat") !! c
         = Some 40.
Proof.
  apply (X25_fallback_agrees_with_parser Demo.pricing "cheapest TAYLOR SWIFT seat"
           None 5 "Taylor Swift").
  reflexivity.
Defined.




(** A run of [llm_buy] on the engine of [app.py]. *)
Example llm_buy_demo :
  let res := App.llm_buy Demo.pricing "surprise me" (λ _, "Arijit Singh")
               (λ i, 11 * Z.of_nat i) in
  (λ r, match r with
        | App.Decided entry =>
            Some (App.entry_concert entry, Qred (App.entry_price entry),
                  Qred (App.entry_reward entry), App.entry_bin_index entry,
                  map_to_list (App.entry_web_traffic entry))
        | App.Wait _ => None
        end) <$> res.2
  = Some (Some ("Arijit Singh", 4500%Q, 4%Q, Some 1,
                [("Coldplay", 33); ("Arijit Singh", 44); ("Taylor Swift", 55)])).
Proof. reflexivity. Qed.

(** With a zero total the state query and the "Wait" answer go through,
    and any other decision raises inside the day. *)
Example llm_buy_zero_total :
  let e := init Demo.base_prices (<["Coldplay" := 0]> Demo.total_tickets)
             Demo.concert_dates 0 in
  let rng := λ i, 11 * Z.of_nat i in
  (∃ state, App.llm_buy e "wait for it" (λ _, "Wait") rng
            = (e, Some (App.Wait state)))
  ∧ (App.llm_buy e "surprise me" (λ _, "Arijit Singh") rng).2 = None
  ∧ current_date (App.llm_buy e "surprise me" (λ _, "Arijit Singh") rng).1
    = current_date e.
Proof. split; [by eexists|split; reflexivity]. Qed.

End llm.
